(** * Verification of the RAG pipeline of the chatbot's Supabase Edge Functions

    A shallow embedding of the two Edge Functions (query-chat and
    extract-embeddings) and of the [match_documents] SQL function,
    followed by the proofs of the properties stated in the
    specification.

    Conventions of the embedding:
    - a JavaScript string is a [string]: a sequence of code units, here
      restricted to the range 0..255;
    - integers ([length], indices, HTTP status codes, milliseconds) are [Z]
      or [nat];
    - a float8 of the database (a distance, a similarity score) is an
      infinity, NaN, or the rational a finite value denotes; rounding is
      not modelled;
    - [await] is sequential composition; every observable interaction with
      the outside (network call, database call, timer, log line) is
      recorded as an [event] in a trace;
    - [throw] / [try]-[catch] become the [Throw] outcome of the [Eff]
      monad; a loop that JavaScript may run forever takes a fuel argument
      and answers [Running] when the fuel is used up. *)

From Stdlib Require Import String Ascii List ZArith QArith Bool Lia DecimalString.
From Stdlib Require Import Lqa Sorted.
From Equations Require Import Equations.
Import ListNotations.

Open Scope string_scope.
Open Scope Z_scope.

(* ================================================================== *)
(** ** JavaScript strings and arrays *)
(* ================================================================== *)

Module JS.

(** Code units that [String.prototype.trim] removes (WhiteSpace and
    LineTerminator) in the range 0..255: TAB, LF, VT, FF, CR, SP, NBSP. *)
Definition isWhiteSpace (c : ascii) : bool :=
  let n := N_of_ascii c in
  ((9 <=? n) && (n <=? 13))%N || (n =? 32)%N || (n =? 160)%N.

Fixpoint trimStart (s : string) : string :=
  match s with
  | EmptyString => EmptyString
  | String c r => if isWhiteSpace c then trimStart r else s
  end.

Fixpoint trimEnd (s : string) : string :=
  match s with
  | EmptyString => EmptyString
  | String c r =>
      match trimEnd r with
      | EmptyString => if isWhiteSpace c then EmptyString else String c EmptyString
      | r' => String c r'
      end
  end.

(** [s.trim()] *)
Definition trim (s : string) : string := trimEnd (trimStart s).

(** [s.length] *)
Definition len (s : string) : Z := Z.of_nat (String.length s).

(** The character class [[.!?]]. *)
Definition isTerminator (c : ascii) : bool :=
  Ascii.eqb c "." || Ascii.eqb c "!" || Ascii.eqb c "?".

(** Puts a code unit in front of the first piece of a split. *)
Definition consHead (c : ascii) (pieces : list string) : list string :=
  match pieces with
  | [] => [String c EmptyString]
  | w :: ws => String c w :: ws
  end.

(** [s.split(/[.!?]+/)]: the pieces between maximal runs of terminators;
    [inRun] tells that the previous code unit was a terminator. *)
Fixpoint splitRuns (inRun : bool) (s : string) : list string :=
  match s with
  | EmptyString => [EmptyString]
  | String c r =>
      if isTerminator c
      then (if inRun then splitRuns true r else EmptyString :: splitRuns true r)
      else consHead c (splitRuns false r)
  end.

Definition splitSentences (s : string) : list string := splitRuns false s.

(** [s.split(sep)] for a one-character separator. *)
Fixpoint split (sep : ascii) (s : string) : list string :=
  match s with
  | EmptyString => [EmptyString]
  | String c r =>
      if Ascii.eqb c sep then EmptyString :: split sep r
      else consHead c (split sep r)
  end.

(** [arr.join(sep)] *)
Definition join (sep : string) (arr : list string) : string :=
  String.concat sep arr.

(** Relative index of [Array.prototype.slice]: negative counts from the
    end, everything is clamped to [0, length]. *)
Definition relIndex (n : nat) (k : Z) : nat :=
  let len := Z.of_nat n in
  Z.to_nat (if k <? 0 then Z.max (len + k) 0 else Z.min k len).

(** [arr.slice(start)] *)
Definition sliceFrom {A : Type} (start : Z) (arr : list A) : list A :=
  skipn (relIndex (List.length arr) start) arr.

(** [arr.slice(start, end)] *)
Definition slice {A : Type} (start stop : Z) (arr : list A) : list A :=
  let k := relIndex (List.length arr) start in
  let e := relIndex (List.length arr) stop in
  firstn (e - k) (skipn k arr).

(** [s.toLowerCase()], one code unit at a time: the letters A..Z and the
    capital letters of the range 192..222 (all but the multiplication
    sign, 215). *)
Definition lowerChar (c : ascii) : ascii :=
  let n := N_of_ascii c in
  if ((65 <=? n) && (n <=? 90))%N
     || ((192 <=? n) && (n <=? 222) && negb (n =? 215))%N
  then ascii_of_N (n + 32) else c.

Fixpoint toLowerCase (s : string) : string :=
  match s with
  | EmptyString => EmptyString
  | String c r => String (lowerChar c) (toLowerCase r)
  end.

(** [s.replace(pat, rep)] with a string pattern: the first occurrence
    only. *)
Fixpoint replace (pat rep s : string) : string :=
  if String.prefix pat s
  then rep ++ String.substring (String.length pat)
                (String.length s - String.length pat) s
  else match s with
       | EmptyString => EmptyString
       | String c r => String c (replace pat rep r)
       end.

(** A field of the JSON body as the handlers see it after [req.json()].
    Numbers are kept as integers (the handlers only test them for
    truthiness); [Other] stands for nested objects and arrays. *)
Inductive value : Type :=
| Undefined
| Null
| Bool (b : bool)
| Num (z : Z)
| Str (s : string)
| Other.

(** ToBoolean *)
Definition truthy (v : value) : bool :=
  match v with
  | Undefined | Null => false
  | Bool b => b
  | Num z => negb (z =? 0)
  | Str s => negb (String.eqb s "")
  | Other => true
  end.

(** What [req.json()] resolves to: [null], an object with its fields, or
    another JSON value (number, string, boolean, array), which has none
    of the fields the handlers read. *)
Inductive json : Type :=
| JNull
| JObject (fields : list (string * value))
| JOther.

Fixpoint lookup (k : string) (fields : list (string * value)) : value :=
  match fields with
  | [] => Undefined
  | (k', v) :: rest => if String.eqb k k' then v else lookup k rest
  end.

(** Reading a field while destructuring: [None] is the TypeError that
    destructuring [null] raises. *)
Definition prop (k : string) (v : json) : option value :=
  match v with
  | JNull => None
  | JObject fields => Some (lookup k fields)
  | JOther => Some Undefined
  end.

(** [a === b] where [a] is a string. *)
Definition strictEqStr (a : string) (b : value) : bool :=
  match b with
  | Str s => String.eqb a s
  | _ => false
  end.

End JS.

(* ================================================================== *)
(** ** Chunker: [splitTextIntoChunks] (extract-embeddings) *)
(* ================================================================== *)

Module Chunker.
Import JS.

(** The loop state: the [chunks] array and the [currentChunk] buffer. *)
Record state : Type := mkState {
  chunks : list string;
  currentChunk : string
}.

(** [words.slice(-Math.floor(overlap / 5)).join(' ')] for
    [words = currentChunk.split(' ')]. *)
Definition overlapText (overlap : Z) (currentChunk : string) : string :=
  let words := split " " currentChunk in
  let overlapWords := sliceFrom (- (overlap / 5)) words in
  join " " overlapWords.

(** One iteration of [for (const sentence of sentences)]. *)
Definition step (chunkSize overlap : Z) (st : state) (sentence : string) : state :=
  let trimmedSentence := trim sentence in
  if String.eqb trimmedSentence "" then st
  else if (len (currentChunk st) + len trimmedSentence >? chunkSize)
          && (len (currentChunk st) >? 0)
  then {| chunks := chunks st ++ [trim (currentChunk st)];
          currentChunk := overlapText overlap (currentChunk st) ++ " " ++ trimmedSentence |}
  else {| chunks := chunks st;
          currentChunk := currentChunk st ++ " " ++ trimmedSentence |}.

Definition sentencesOf (text : string) : list string :=
  filter (fun s => len (trim s) >? 0) (splitSentences text).

(** The state after the loop. *)
Definition loop (text : string) (chunkSize overlap : Z) : state :=
  fold_left (step chunkSize overlap) (sentencesOf text)
            {| chunks := []; currentChunk := "" |}.

(** The [chunks] array just before the final filter. *)
Definition rawChunks (text : string) (chunkSize overlap : Z) : list string :=
  let st := loop text chunkSize overlap in
  if len (trim (currentChunk st)) >? 0
  then chunks st ++ [trim (currentChunk st)]
  else chunks st.

Definition splitTextIntoChunks (text : string) (chunkSize overlap : Z) : list string :=
  filter (fun chunk => len chunk >? 10) (rawChunks text chunkSize overlap).

End Chunker.

(* ================================================================== *)
(** ** Effects: traces, exceptions, unfinished runs *)
(* ================================================================== *)

(** What a handler does to the outside world, in order. The structured
    [meta] argument of [logger] is not recorded. *)
Inductive event : Type :=
| EvLog (level message : string)
| EvSleep (ms : Z)
| EvGetUser (token : string)
| EvFetchQueryEmbedding (query : JS.value)
| EvSelectDocuments (userId : string)
| EvRpcMatchDocuments (match_threshold : Q) (match_count : Z)
| EvSelectChunks (documentIds : list string) (limit : Z)
| EvFetchChat (systemMessage : string) (query : JS.value)
| EvFetchEmbeddings (input : list string)
| EvUpdateStatus (documentId : JS.value) (processing_status : string)
| EvDownload (filePath : JS.value)
| EvInsertChunks (records : list (JS.value * string * option (list Q) * Z)).

Inductive outcome (A : Type) : Type :=
| Ret (a : A)                 (* normal completion *)
| Throw (message : string)    (* an Error was thrown *)
| Running.                    (* still looping when the fuel ran out *)
Arguments Ret {A} a.
Arguments Throw {A} message.
Arguments Running {A}.

Definition Eff (A : Type) : Type := (list event * outcome A)%type.

Module Eff.

Definition ret {A} (a : A) : Eff A := ([], Ret a).
Definition throw {A} (message : string) : Eff A := ([], Throw message).
Definition running {A} : Eff A := ([], Running).
Definition emit (e : event) : Eff unit := ([e], Ret tt).

(** Events [tr] happen, then [c]. *)
Definition after {A} (tr : list event) (c : Eff A) : Eff A :=
  ((tr ++ fst c)%list, snd c).

Definition bind {A B} (c : Eff A) (k : A -> Eff B) : Eff B :=
  match snd c with
  | Ret a => after (fst c) (k a)
  | Throw m => (fst c, Throw m)
  | Running => (fst c, Running)
  end.

(** [try { c } catch (err) { handler(err.message) }] *)
Definition tryCatch {A} (c : Eff A) (handler : string -> Eff A) : Eff A :=
  match snd c with
  | Throw m => after (fst c) (handler m)
  | _ => c
  end.

(** [logger(level, message, meta)] of _shared/supabase.ts *)
Definition logger (level message : string) : Eff unit :=
  emit (EvLog level message).

(** [await new Promise(resolve => setTimeout(resolve, ms))] *)
Definition sleep (ms : Z) : Eff unit := emit (EvSleep ms).

End Eff.

Declare Scope eff_scope.
Delimit Scope eff_scope with eff.
Notation "x <- c ;; k" := (Eff.bind c (fun x => k))
  (at level 61, c at next level, right associativity) : eff_scope.
Notation "c ;; k" := (Eff.bind c (fun _ => k))
  (at level 61, right associativity) : eff_scope.
Open Scope eff_scope.

(* ================================================================== *)
(** ** float8: distances and similarity scores *)
(* ================================================================== *)

Module Float8.

(** A float8 value: minus infinity, a finite number (the rational it
    denotes), plus infinity, or NaN. *)
Inductive t : Type :=
| NegInf
| Finite (q : Q)
| PosInf
| NaN.

(** [a <= b] in the order PostgreSQL gives float8, in comparisons and in
    [ORDER BY]: NaN equals NaN and is greater than every other value. *)
Definition leb (a b : t) : bool :=
  match a, b with
  | _, NaN => true
  | NaN, _ => false
  | NegInf, _ => true
  | _, NegInf => false
  | _, PosInf => true
  | PosInf, _ => false
  | Finite x, Finite y => Qle_bool x y
  end.

(** [a > b] *)
Definition gtb (a b : t) : bool := negb (leb a b).

(** [1 - a] *)
Definition oneMinus (a : t) : t :=
  match a with
  | NegInf => PosInf
  | Finite q => Finite (1 - q)
  | PosInf => NegInf
  | NaN => NaN
  end.

End Float8.

(* ================================================================== *)
(** ** HTTP: [fetch] results and the handlers' requests and responses *)
(* ================================================================== *)

Module Http.

(** What reading a JSON payload gives: the value, or the message of the
    error thrown while parsing it or while reading the expected fields. *)
Inductive parsed (J : Type) : Type :=
| Parsed (j : J)
| Malformed (message : string).
Arguments Parsed {J} j.
Arguments Malformed {J} message.

(** A [Response] obtained from [fetch]. *)
Record reply (J : Type) : Type := mkReply {
  status : Z;
  text : string;      (* [await response.text()] *)
  json : parsed J     (* [await response.json()] and the fields read from it *)
}.
Arguments mkReply {J}.
Arguments status {J}.
Arguments text {J}.
Arguments json {J}.

(** [response.ok] *)
Definition ok {J} (r : reply J) : bool := (200 <=? status r) && (status r <=? 299).

(** [await fetch(...)]: rejected (network failure) or resolved. *)
Inductive fetched (J : Type) : Type :=
| NetworkError (message : string)
| Responded (r : reply J).
Arguments NetworkError {J} message.
Arguments Responded {J} r.

(** Decimal rendering of a non-negative integer inside a template
    literal. *)
Definition show (z : Z) : string := NilZero.string_of_uint (N.to_uint (Z.to_N z)).

(** The incoming request of an Edge Function. *)
Record Request : Type := mkRequest {
  method : string;
  body : parsed JS.json;           (* [await req.json()] *)
  authorization : option string    (* [req.headers.get('Authorization')] *)
}.

(** The JSON bodies the two handlers answer with. *)
Inductive payload : Type :=
| Plain (text : string)
| ErrorBody (error : string)
| Answer (answer : string) (sourceChunks : list (string * Float8.t))
| Processed (documentId : JS.value) (chunksProcessed : nat)
| Failed (error : string).

Record Response : Type := mkResponse {
  responseBody : payload;
  responseStatus : Z
}.

End Http.

(* ================================================================== *)
(** ** The database (migration) and the Supabase client *)
(* ================================================================== *)

Module Store.

Definition vector : Type := list Q.

(** [CHECK (processing_status IN (...))] *)
Inductive lifecycle : Type := Pending | Processing | Completed | Error.

Definition lifecycle_eqb (a b : lifecycle) : bool :=
  match a, b with
  | Pending, Pending | Processing, Processing
  | Completed, Completed | Error, Error => true
  | _, _ => false
  end.

(** Rows of [public.documents]; [uploaded_by] is nullable. *)
Record document : Type := mkDocument {
  doc_id : string;
  doc_name : string;
  uploaded_by : option string;
  file_path : string;
  processing_status : lifecycle
}.

(** Rows of [public.document_chunks]; [document_id] and
    [chunk_embedding] are nullable. *)
Record document_chunk : Type := mkChunk {
  chunk_id : string;
  chunk_document_id : option string;
  chunk_chunk_text : string;
  chunk_embedding : option vector;
  chunk_index : Z
}.

Record database : Type := mkDatabase {
  documents : list document;
  document_chunks : list document_chunk
}.

(** A retrieval result: the columns returned by [match_documents], and
    by the fallback select once [similarity] is added. *)
Record row : Type := mkRow {
  id : string;
  document_id : option string;
  chunk_text : string;
  similarity : Float8.t
}.

(** Insertion sort by ascending key, for [ORDER BY]. Rows with equal
    keys, whose order SQL leaves open, stay in the order of the list
    sorted. *)
Fixpoint insertBy {A} (key : A -> Float8.t) (x : A) (l : list A) : list A :=
  match l with
  | [] => [x]
  | y :: r => if Float8.gtb (key x) (key y) then y :: insertBy key x r else x :: l
  end.

Definition sortBy {A} (key : A -> Float8.t) (l : list A) : list A :=
  fold_right (insertBy key) [] l.

Section MatchDocuments.
(** The engine's [<=>] operator (cosine distance): a float8, NaN when
    one of the vectors is zero. *)
Variable distance : vector -> vector -> Float8.t.

(** The SQL function [match_documents]. A row whose embedding is NULL
    has a NULL distance and fails the WHERE clause; a row whose
    distance is NaN has similarity NaN, which is above every threshold
    but NaN, and is ordered last. *)
Definition match_documents (db : database) (query_embedding : vector)
           (match_threshold : Float8.t) (match_count : Z) : list row :=
  let scored :=
    flat_map (fun c => match chunk_embedding c with
                       | Some e => [(distance e query_embedding, c)]
                       | None => []
                       end) (document_chunks db) in
  let kept :=
    filter (fun dc => Float8.gtb (Float8.oneMinus (fst dc)) match_threshold) scored in
  let ordered := sortBy fst kept in
  map (fun dc => {| id := chunk_id (snd dc);
                    document_id := chunk_document_id (snd dc);
                    chunk_text := chunk_chunk_text (snd dc);
                    similarity := Float8.oneMinus (fst dc) |})
      (firstn (Z.to_nat match_count) ordered).
End MatchDocuments.

(** [{ data, error }], the shape of every supabase-js answer. *)
Record answer (A : Type) : Type := mkAnswer {
  data : option A;
  error : option string
}.
Arguments mkAnswer {A}.
Arguments data {A}.
Arguments error {A}.

Definition succeed {A} (a : A) : answer A := {| data := Some a; error := None |}.
Definition fail {A} (message : string) : answer A :=
  {| data := None; error := Some message |}.

Record User : Type := mkUser { user_id : string }.

(** How a write whose answer the caller ignores can end. *)
Inductive written : Type :=
| WriteOk
| WriteRefused (message : string)    (* resolved with [{ error }] *)
| WriteThrew (message : string).     (* the call itself threw *)

(** The Supabase project behind the service-role client: its data and
    how each of its operations answers during the request at hand. *)
Record Backend : Type := mkBackend {
  configured : bool;   (* SUPABASE_URL and SUPABASE_SERVICE_ROLE_KEY are set *)
  getUser : string -> answer User;
  db : database;
  distance : vector -> vector -> Float8.t;
  docsError : option string;      (* the select on documents fails *)
  searchError : option string;    (* the rpc fails *)
  chunksError : option string;    (* the select on document_chunks fails *)
  download : JS.value -> answer string;   (* file content, decoded *)
  updateStatus : JS.value -> string -> written;
  insertError : option string     (* the insert into document_chunks fails *)
}.

Definition ownedCompleted (userId : string) (d : document) : bool :=
  match uploaded_by d with
  | Some u => String.eqb u userId && lifecycle_eqb (processing_status d) Completed
  | None => false
  end.

(** [from('documents').select('id').eq('uploaded_by', userId)
      .eq('processing_status', 'completed')] *)
Definition selectCompletedDocuments (b : Backend) (userId : string)
  : answer (list string) :=
  match docsError b with
  | Some m => fail m
  | None => succeed (map doc_id (filter (ownedCompleted userId) (documents (db b))))
  end.

(** [rpc('match_documents', {...})]; the threshold travels as a JSON
    number, which is finite. *)
Definition rpcMatchDocuments (b : Backend) (query_embedding : vector)
           (match_threshold : Q) (match_count : Z) : answer (list row) :=
  match searchError b with
  | Some m => fail m
  | None => succeed (match_documents (distance b) (db b) query_embedding
                                     (Float8.Finite match_threshold) match_count)
  end.

Definition inIds (ids : list string) (c : document_chunk) : bool :=
  match chunk_document_id c with
  | Some d => existsb (String.eqb d) ids
  | None => false
  end.

(** [from('document_chunks').select('id, document_id, chunk_text')
      .in('document_id', documentIds).limit(n)], in stored order. *)
Definition selectChunksIn (b : Backend) (documentIds : list string) (limit : Z)
  : answer (list document_chunk) :=
  match chunksError b with
  | Some m => fail m
  | None => succeed (firstn (Z.to_nat limit)
                            (filter (inIds documentIds) (document_chunks (db b))))
  end.

(** [createSupabaseAdmin()] *)
Definition createSupabaseAdmin (b : Backend) : Eff Backend :=
  if configured b then Eff.ret b
  else Eff.throw "Missing Supabase environment variables".

End Store.

(* ================================================================== *)
(** ** The query-chat Edge Function *)
(* ================================================================== *)

Module QueryChat.
Import JS Http Store.

(** The surroundings of one request: the environment variable, the
    Supabase project, and how the two Groq endpoints answer (the chat
    endpoint by the number of calls made before). *)
Record Env : Type := mkEnv {
  GROQ_API_KEY : option string;
  backend : Backend;
  embeddings : JS.value -> fetched (list vector);
  chatCompletions : nat -> fetched string
}.

(** [!GROQ_API_KEY] *)
Definition unset (key : option string) : bool :=
  match key with
  | None => true
  | Some k => String.eqb k ""
  end.

Definition nl : string := String (ascii_of_nat 10) EmptyString.

Definition generateQueryEmbedding (env : Env) (query : JS.value) : Eff vector :=
  if unset (GROQ_API_KEY env)
  then Eff.throw "GROQ_API_KEY environment variable not set"
  else
    Eff.emit (EvFetchQueryEmbedding query);;
    match embeddings env query with
    | NetworkError m => Eff.throw m
    | Responded response =>
        if negb (ok response)
        then Eff.logger "error" "Failed to generate query embedding";;
             Eff.throw ("Failed to generate query embedding: " ++ show (status response))
        else match json response with
             | Malformed m => Eff.throw m
             | Parsed [] =>
                 Eff.throw "Cannot read properties of undefined (reading 'embedding')"
             | Parsed (embedding :: _) => Eff.ret embedding
             end
    end.

(** [documentIds.includes(chunk.document_id)] *)
Definition includes (documentIds : list string) (document_id : option string) : bool :=
  match document_id with
  | Some d => existsb (String.eqb d) documentIds
  | None => false
  end.

Definition fallbackTextSearch (supabaseAdmin : Backend) (documentIds : list string)
  : Eff (list row) :=
  Eff.emit (EvSelectChunks documentIds 5);;
  let r := selectChunksIn supabaseAdmin documentIds 5 in
  match error r with
  | Some m => Eff.throw ("Fallback search failed: " ++ m)
  | None =>
      match data r with
      | None => Eff.throw "Cannot read properties of null (reading 'map')"
      | Some chunks =>
          Eff.ret (map (fun chunk => {| id := chunk_id chunk;
                                        document_id := chunk_document_id chunk;
                                        chunk_text := chunk_chunk_text chunk;
                                        similarity := Float8.Finite (1 # 2) |}) chunks)
      end
  end.

Definition findRelevantChunks (supabaseAdmin : Backend) (queryEmbedding : vector)
           (userId : string) : Eff (list row) :=
  Eff.emit (EvSelectDocuments userId);;
  let docs := selectCompletedDocuments supabaseAdmin userId in
  match error docs with
  | Some m => Eff.throw ("Failed to fetch user documents: " ++ m)
  | None =>
      match data docs with
      | None | Some [] => Eff.ret []
      | Some documentIds =>
          Eff.emit (EvRpcMatchDocuments (1 # 10) 5);;
          let search := rpcMatchDocuments supabaseAdmin queryEmbedding (1 # 10) 5 in
          match error search with
          | Some m =>
              Eff.logger "error" "Vector search failed";;
              fallbackTextSearch supabaseAdmin documentIds
          | None =>
              match data search with
              | None | Some [] => fallbackTextSearch supabaseAdmin documentIds
              | Some chunks =>
                  Eff.ret (filter (fun chunk => includes documentIds (document_id chunk))
                                  chunks)
              end
          end
      end
  end.

Definition maxAttempts : nat := 3.

Definition systemMessage (relevantChunks : list row) : string :=
  let context := join (nl ++ nl) (map chunk_text relevantChunks) in
  "You are a helpful AI assistant that answers questions based on the provided context. Use the following context to answer the user's question. If the context doesn't contain enough information to fully answer the question, say so and provide what information you can."
  ++ nl ++ nl ++ "Context:" ++ nl ++ context.

(** How the [try] block of one loop iteration ends when it does not
    throw: [return] or [continue] (the latter after [attempt++]). *)
Inductive completion : Type :=
| Returned (content : string)
| Continued.

(** The [try] block of the retry loop; [calls] chat requests were sent
    before. *)
Definition attemptOnce (env : Env) (system : string) (query : JS.value)
           (calls : nat) (attempt : nat) : Eff completion :=
  Eff.emit (EvFetchChat system query);;
  match chatCompletions env calls with
  | NetworkError m => Eff.throw m
  | Responded response =>
      if status response =? 429
      then
        let delay := Z.min (1000 * 2 ^ Z.of_nat attempt) 60000 in
        Eff.logger "warning" "Rate limited, retrying";;
        Eff.sleep delay;;
        Eff.ret Continued
      else if negb (ok response)
      then Eff.throw ("Groq API error: " ++ show (status response) ++ " " ++ text response)
      else match json response with
           | Malformed m => Eff.throw m
           | Parsed content => Eff.ret (Returned content)
           end
  end.

(** [while (attempt < maxAttempts) { try {...} catch {...} }] followed by
    the final [throw]. *)
Equations? retryLoop (env : Env) (system : string) (query : JS.value)
           (calls : nat) (attempt : nat) : Eff string
  by wf (maxAttempts - attempt)%nat lt :=
  retryLoop env system query calls attempt with lt_dec attempt maxAttempts := {
    | right _ => Eff.throw "Failed to generate response after maximum attempts"
    | left Hlt with attemptOnce env system query calls attempt := {
        | (tr, Ret (Returned content)) => (tr, Ret content)
        | (tr, Ret Continued) =>
            Eff.after tr (retryLoop env system query (S calls) (S attempt))
        | (tr, Running) => (tr, Running)
        | (tr, Throw m) with ge_dec (S attempt) maxAttempts := {
            | left _ =>
                Eff.after tr
                  (Eff.logger "error" "Failed to generate chat response after retries";;
                   Eff.throw m)
            | right _ =>
                Eff.after tr
                  (Eff.sleep (1000 * Z.of_nat (S attempt));;
                   retryLoop env system query (S calls) (S attempt)) } } }.
Proof.
  all: unfold maxAttempts in *;
    change (3 - S attempt < 3 - attempt)%nat; lia.
Qed.

Definition generateChatResponse (env : Env) (query : JS.value)
           (relevantChunks : list row) : Eff string :=
  if unset (GROQ_API_KEY env)
  then Eff.throw "GROQ_API_KEY environment variable not set"
  else retryLoop env (systemMessage relevantChunks) query 0 0.

Definition noInformation : string :=
  "I couldn't find any relevant information in your documents to answer this question. Please make sure you have uploaded documents and they have been processed.".

Definition respond (p : payload) (code : Z) : Eff Response :=
  Eff.ret {| responseBody := p; responseStatus := code |}.

(** The [try] block of the handler. *)
Definition answerQuery (env : Env) (req : Request) : Eff Response :=
  match body req with
  | Malformed m => Eff.throw m
  | Parsed requestData =>
      match prop "query" requestData, prop "userId" requestData with
      | Some query, Some userId =>
          if negb (truthy query) || negb (truthy userId)
          then respond (ErrorBody "Missing query or userId") 400
          else
            Eff.logger "info" "Processing chat query";;
            match authorization req with
            | None => respond (ErrorBody "Missing authorization") 401
            | Some authHeader =>
                if String.eqb authHeader ""
                then respond (ErrorBody "Missing authorization") 401
                else
                  supabaseAdmin <- createSupabaseAdmin (backend env);;
                  let token := replace "Bearer " "" authHeader in
                  Eff.emit (EvGetUser token);;
                  let auth := getUser supabaseAdmin token in
                  match error auth, data auth, userId with
                  | None, Some user, Str uid =>
                      if negb (String.eqb (user_id user) uid)
                      then respond (ErrorBody "Unauthorized") 401
                      else
                        queryEmbedding <- generateQueryEmbedding env query;;
                        relevantChunks <- findRelevantChunks supabaseAdmin queryEmbedding uid;;
                        match relevantChunks with
                        | [] => respond (Answer noInformation []) 200
                        | _ =>
                            answer <- generateChatResponse env query relevantChunks;;
                            Eff.logger "info" "Chat query completed";;
                            respond (Answer answer
                                       (map (fun chunk => (id chunk, similarity chunk))
                                            relevantChunks)) 200
                        end
                  | _, _, _ => respond (ErrorBody "Unauthorized") 401
                  end
            end
      | _, _ => Eff.throw "Cannot destructure property 'query' of null"
      end
  end.

(** The function passed to [Deno.serve]. *)
Definition handler (env : Env) (req : Request) : Eff Response :=
  if negb (String.eqb (method req) "POST")
  then respond (Plain "Method not allowed") 405
  else
    Eff.tryCatch (answerQuery env req)
      (fun _ =>
         Eff.logger "error" "Chat query failed";;
         respond (ErrorBody "Failed to process query. Please try again.") 500).

End QueryChat.

(* ================================================================== *)
(** ** The extract-embeddings Edge Function *)
(* ================================================================== *)

Module ExtractEmbeddings.
Import JS Http Store.

(** The surroundings of one request; the embeddings endpoint answers by
    the number of calls made before and by the batch it is sent. *)
Record Env : Type := mkEnv {
  GROQ_API_KEY : option string;
  backend : Backend;
  embeddings : nat -> list string -> fetched (list vector)
}.

Definition CHUNK_SIZE : Z := 500.
Definition CHUNK_OVERLAP : Z := 50.
Definition batchSize : Z := 10.

Definition unset (key : option string) : bool :=
  match key with
  | None => true
  | Some k => String.eqb k ""
  end.

Definition extractTextFromFile (fileBuffer : string) (fileName : JS.value) : Eff string :=
  match fileName with
  | Str f =>
      let extension := last (split "." (toLowerCase f)) "" in
      if String.eqb extension "txt" then Eff.ret fileBuffer
      else if String.eqb extension "pdf" then
        Eff.logger "warning" "PDF parsing not implemented, using placeholder text";;
        Eff.ret "PDF content would be extracted here using a PDF parsing library."
      else if String.eqb extension "docx" then
        Eff.logger "warning" "DOCX parsing not implemented, using placeholder text";;
        Eff.ret "DOCX content would be extracted here using a DOCX parsing library."
      else Eff.throw ("Unsupported file type: " ++ extension)
  | Undefined => Eff.throw "Cannot read properties of undefined (reading 'toLowerCase')"
  | Null => Eff.throw "Cannot read properties of null (reading 'toLowerCase')"
  | _ => Eff.throw "fileName.toLowerCase is not a function"
  end.

(** The [catch] of the batch loop: log and rethrow. *)
Definition rethrow {A} (m : string) : Eff A :=
  Eff.logger "error" "Failed to generate embeddings for batch";;
  Eff.throw m.

(** The [for] loop of [generateEmbeddingsForChunks], entered at its test
    with index [i], the [embeddings] gathered so far and [calls] requests
    already sent. One unit of fuel is one pass through the body. *)
Fixpoint batchLoop (env : Env) (chunks : list string) (fuel : nat)
         (calls : nat) (i : Z) (embeddings : list vector) : Eff (list vector) :=
  if negb (i <? Z.of_nat (List.length chunks)) then Eff.ret embeddings
  else
    match fuel with
    | O => Eff.running
    | S fuel' =>
        let batch := slice i (i + batchSize) chunks in
        Eff.emit (EvFetchEmbeddings batch);;
        match ExtractEmbeddings.embeddings env calls batch with
        | NetworkError m => rethrow m
        | Responded response =>
            if negb (ok response)
            then
              Eff.logger "error" "Groq API error";;
              if status response =? 429
              then
                Eff.sleep 2000;;
                (* i -= batchSize; continue; then the loop's i += batchSize *)
                batchLoop env chunks fuel' (S calls) ((i - batchSize) + batchSize) embeddings
              else
                rethrow ("Groq API error: " ++ show (status response)
                         ++ " " ++ text response)
            else
              match json response with
              | Malformed m => rethrow m
              | Parsed batchEmbeddings =>
                  let embeddings' := (embeddings ++ batchEmbeddings)%list in
                  (if i + batchSize <? Z.of_nat (List.length chunks)
                   then Eff.sleep 500 else Eff.ret tt);;
                  batchLoop env chunks fuel' (S calls) (i + batchSize) embeddings'
              end
        end
    end.

Definition generateEmbeddingsForChunks (env : Env) (chunks : list string) (fuel : nat)
  : Eff (list vector) :=
  if unset (GROQ_API_KEY env)
  then Eff.throw "GROQ_API_KEY environment variable not set"
  else batchLoop env chunks fuel 0 0 [].

Definition respond (p : payload) (code : Z) : Eff Response :=
  Eff.ret {| responseBody := p; responseStatus := code |}.

(** An awaited status update whose answer is ignored. *)
Definition writeStatus (supabaseAdmin : Backend) (documentId : JS.value)
           (processing_status : string) : Eff unit :=
  Eff.emit (EvUpdateStatus documentId processing_status);;
  match updateStatus supabaseAdmin documentId processing_status with
  | WriteThrew m => Eff.throw m
  | WriteOk | WriteRefused _ => Eff.ret tt
  end.

(** [chunks.map((chunk, index) => ({...}))] from position [index] on. *)
Fixpoint chunkRecords (documentId : JS.value) (embeddings : list vector)
         (index : nat) (chunks : list string)
  : list (JS.value * string * option vector * Z) :=
  match chunks with
  | [] => []
  | chunk :: rest =>
      (documentId, chunk, nth_error embeddings index, Z.of_nat index)
        :: chunkRecords documentId embeddings (S index) rest
  end.

(** What follows authentication inside the [try] block. *)
Definition processDocument (env : Env) (supabaseAdmin : Backend)
           (filePath fileName documentId : JS.value) (fuel : nat) : Eff Response :=
  writeStatus supabaseAdmin documentId "processing";;
  Eff.emit (EvDownload filePath);;
  let file := download supabaseAdmin filePath in
  match error file, data file with
  | Some m, _ =>
      (* downloadError?.message || 'File not found' *)
      Eff.throw ("Failed to download file: "
                 ++ (if String.eqb m "" then "File not found" else m))
  | None, None => Eff.throw "Failed to download file: File not found"
  | None, Some fileBuffer =>
      textContent <- extractTextFromFile fileBuffer fileName;;
      if len (trim textContent) =? 0
      then Eff.throw "No text content extracted from file"
      else
        let chunks := Chunker.splitTextIntoChunks textContent CHUNK_SIZE CHUNK_OVERLAP in
        match chunks with
        | [] => Eff.throw "No chunks created from text content"
        | _ =>
            Eff.logger "info" "Text extracted and chunked";;
            embeddings <- generateEmbeddingsForChunks env chunks fuel;;
            Eff.emit (EvInsertChunks (chunkRecords documentId embeddings 0 chunks));;
            match insertError supabaseAdmin with
            | Some m => Eff.throw ("Failed to store chunks: " ++ m)
            | None =>
                writeStatus supabaseAdmin documentId "completed";;
                Eff.logger "info" "Document processing completed";;
                respond (Processed documentId (List.length chunks)) 200
            end
        end
  end.

(** The [try] block of the handler. *)
Definition tryBlock (env : Env) (req : Request) (fuel : nat) : Eff Response :=
  match body req with
  | Malformed m => Eff.throw m
  | Parsed requestData =>
      match prop "filePath" requestData, prop "fileName" requestData,
            prop "userId" requestData, prop "documentId" requestData with
      | Some filePath, Some fileName, Some userId, Some documentId =>
          Eff.logger "info" "Starting document processing";;
          match authorization req with
          | None => respond (ErrorBody "Missing authorization") 401
          | Some authHeader =>
              if String.eqb authHeader ""
              then respond (ErrorBody "Missing authorization") 401
              else
                supabaseAdmin <- createSupabaseAdmin (backend env);;
                let token := replace "Bearer " "" authHeader in
                Eff.emit (EvGetUser token);;
                let auth := getUser supabaseAdmin token in
                match error auth, data auth with
                | None, Some user =>
                    if negb (strictEqStr (user_id user) userId)
                    then respond (ErrorBody "Unauthorized") 401
                    else processDocument env supabaseAdmin filePath fileName documentId fuel
                | _, _ => respond (ErrorBody "Unauthorized") 401
                end
          end
      | _, _, _, _ => Eff.throw "Cannot destructure property 'filePath' of null"
      end
  end.

(** [requestData] as the [catch] block finds it: still [{}] when
    [req.json()] itself failed. *)
Definition requestDataOf (req : Request) : JS.json :=
  match body req with
  | Parsed requestData => requestData
  | Malformed _ => JObject []
  end.

(** The [catch] block of the handler, for a caught error with message
    [message]. *)
Definition catchBlock (env : Env) (requestData : JS.json) (message : string)
  : Eff Response :=
  Eff.logger "error" "Document processing failed";;
  Eff.tryCatch
    (match prop "documentId" requestData with
     | None => Eff.throw "Cannot destructure property 'documentId' of null"
     | Some documentId =>
         if truthy documentId
         then
           supabaseAdmin <- createSupabaseAdmin (backend env);;
           writeStatus supabaseAdmin documentId "error"
         else Eff.ret tt
     end)
    (fun _ => Eff.logger "error" "Failed to update document status to error");;
  respond (Failed message) 500.

(** The function passed to [Deno.serve]. *)
Definition handler (env : Env) (req : Request) (fuel : nat) : Eff Response :=
  if negb (String.eqb (method req) "POST")
  then respond (Plain "Method not allowed") 405
  else Eff.tryCatch (tryBlock env req fuel) (catchBlock env (requestDataOf req)).

End ExtractEmbeddings.

(* ================================================================== *)
(** ** Vocabulary of the statements *)
(* ================================================================== *)

Module Spec.
Import JS Http Store.

(** A string that does not begin with white space. *)
Definition headKept (s : string) : Prop :=
  match s with
  | EmptyString => True
  | String c _ => isWhiteSpace c = false
  end.

(** Strings made of white space only. *)
Fixpoint blank (s : string) : bool :=
  match s with
  | EmptyString => true
  | String c r => isWhiteSpace c && blank r
  end.

(** How the buffer behind a chunk was built: it fits (at most
    [chunkSize + 1] code units), or it is one sentence appended to the
    empty buffer, or it is the overlap carried from a closed buffer
    followed by one sentence. [closedChunks] are the chunks pushed so
    far. *)
Inductive origin (sentences closedChunks : list string) (chunkSize overlap : Z)
  : string -> Prop :=
| Fits (buffer : string) :
    len buffer <= chunkSize + 1 ->
    origin sentences closedChunks chunkSize overlap buffer
| Single (s : string) :
    In s sentences ->
    origin sentences closedChunks chunkSize overlap (" " ++ trim s)
| Seeded (closed s : string) :
    In s sentences ->
    In (trim closed) closedChunks ->
    origin sentences closedChunks chunkSize overlap
           (Chunker.overlapText overlap closed ++ " " ++ trim s).

(** The loop invariant of the chunker. *)
Definition chunkerInv (sentences : list string) (chunkSize overlap : Z)
           (st : Chunker.state) : Prop :=
  (Chunker.currentChunk st = ""
   \/ origin sentences (Chunker.chunks st) chunkSize overlap (Chunker.currentChunk st))
  /\ forall c, In c (Chunker.chunks st) ->
               exists buffer, c = trim buffer
                              /\ origin sentences (Chunker.chunks st) chunkSize overlap buffer.

(** The rows the textual fallback builds from stored chunks. *)
Definition placeholderRows (chunks : list document_chunk) : list row :=
  map (fun chunk => {| id := chunk_id chunk;
                       document_id := chunk_document_id chunk;
                       chunk_text := chunk_chunk_text chunk;
                       similarity := Float8.Finite (1 # 2) |}) chunks.

(** Number of requests sent to the chat-completion endpoint. *)
Definition isChatFetch (e : event) : bool :=
  match e with
  | EvFetchChat _ _ => true
  | _ => false
  end.

Definition chatCalls (tr : list event) : nat := List.length (filter isChatFetch tr).

(** The waits of a trace, in order. *)
Definition sleeps (tr : list event) : list Z :=
  flat_map (fun e => match e with EvSleep ms => [ms] | _ => [] end) tr.

(** The batches sent to the embeddings endpoint, in order. *)
Definition batches (tr : list event) : list (list string) :=
  flat_map (fun e => match e with EvFetchEmbeddings b => [b] | _ => [] end) tr.

(** A chat-completion answer that is a rate-limit response. *)
Definition rateLimited {J} (f : fetched J) : Prop :=
  exists r, f = Responded r /\ status r = 429.

(** The message with which the [try] block of the retry loop throws on an
    answer that is neither a success nor a rate-limit response. *)
Inductive chatFailure : fetched string -> string -> Prop :=
| ChatNetwork (m : string) : chatFailure (NetworkError m) m
| ChatStatus (r : reply string) :
    status r <> 429 -> ok r = false ->
    chatFailure (Responded r)
                ("Groq API error: " ++ show (status r) ++ " " ++ text r)
| ChatMalformed (r : reply string) (m : string) :
    ok r = true -> json r = Malformed m ->
    chatFailure (Responded r) m.



(** The failures of ingestion once processing has started, each with the
    message of the error it raises: download failure, unsupported file
    type, empty extracted content, zero chunks, embedding-service error,
    chunk-insert failure. *)
Inductive ingestionFailure (env : ExtractEmbeddings.Env) (supabaseAdmin : Backend)
          (filePath fileName : JS.value) (fuel : nat) : string -> Prop :=
| DownloadFailed (m : string) :
    error (download supabaseAdmin filePath) = Some m -> m <> "" ->
    ingestionFailure env supabaseAdmin filePath fileName fuel
                     ("Failed to download file: " ++ m)
| FileNotFound :
    error (download supabaseAdmin filePath) = None ->
    data (download supabaseAdmin filePath) = None ->
    ingestionFailure env supabaseAdmin filePath fileName fuel
                     "Failed to download file: File not found"
| UnsupportedFileType (fileBuffer f : string) :
    download supabaseAdmin filePath = succeed fileBuffer ->
    fileName = Str f ->
    last (split "." (toLowerCase f)) "" <> "txt" ->
    last (split "." (toLowerCase f)) "" <> "pdf" ->
    last (split "." (toLowerCase f)) "" <> "docx" ->
    ingestionFailure env supabaseAdmin filePath fileName fuel
                     ("Unsupported file type: " ++ last (split "." (toLowerCase f)) "")
| EmptyContent (fileBuffer textContent : string) :
    download supabaseAdmin filePath = succeed fileBuffer ->
    snd (ExtractEmbeddings.extractTextFromFile fileBuffer fileName) = Ret textContent ->
    trim textContent = "" ->
    ingestionFailure env supabaseAdmin filePath fileName fuel
                     "No text content extracted from file"
| ZeroChunks (fileBuffer textContent : string) :
    download supabaseAdmin filePath = succeed fileBuffer ->
    snd (ExtractEmbeddings.extractTextFromFile fileBuffer fileName) = Ret textContent ->
    trim textContent <> "" ->
    Chunker.splitTextIntoChunks textContent ExtractEmbeddings.CHUNK_SIZE
                                ExtractEmbeddings.CHUNK_OVERLAP = [] ->
    ingestionFailure env supabaseAdmin filePath fileName fuel
                     "No chunks created from text content"
| EmbeddingServiceError (fileBuffer textContent m : string) :
    download supabaseAdmin filePath = succeed fileBuffer ->
    snd (ExtractEmbeddings.extractTextFromFile fileBuffer fileName) = Ret textContent ->
    trim textContent <> "" ->
    Chunker.splitTextIntoChunks textContent ExtractEmbeddings.CHUNK_SIZE
                                ExtractEmbeddings.CHUNK_OVERLAP <> [] ->
    snd (ExtractEmbeddings.generateEmbeddingsForChunks
           env (Chunker.splitTextIntoChunks textContent ExtractEmbeddings.CHUNK_SIZE
                                            ExtractEmbeddings.CHUNK_OVERLAP) fuel)
    = Throw m ->
    ingestionFailure env supabaseAdmin filePath fileName fuel m
| ChunkInsertFailed (fileBuffer textContent m : string) (embeddings : list vector) :
    download supabaseAdmin filePath = succeed fileBuffer ->
    snd (ExtractEmbeddings.extractTextFromFile fileBuffer fileName) = Ret textContent ->
    trim textContent <> "" ->
    Chunker.splitTextIntoChunks textContent ExtractEmbeddings.CHUNK_SIZE
                                ExtractEmbeddings.CHUNK_OVERLAP <> [] ->
    snd (ExtractEmbeddings.generateEmbeddingsForChunks
           env (Chunker.splitTextIntoChunks textContent ExtractEmbeddings.CHUNK_SIZE
                                            ExtractEmbeddings.CHUNK_OVERLAP) fuel)
    = Ret embeddings ->
    insertError supabaseAdmin = Some m ->
    ingestionFailure env supabaseAdmin filePath fileName fuel
                     ("Failed to store chunks: " ++ m).

(** What the [catch] block of the ingestion handler does about the
    document's status, for the [documentId] of the request. *)
Definition statusRecovery (supabaseAdmin : Backend) (documentId : JS.value)
  : list event :=
  if truthy documentId
  then EvUpdateStatus documentId "error"
       :: match updateStatus supabaseAdmin documentId "error" with
          | WriteThrew _ => [EvLog "error" "Failed to update document status to error"]
          | WriteOk | WriteRefused _ => []
          end
  else [].

End Spec.

(* ================================================================== *)
(** ** A small project used in the examples *)
(* ================================================================== *)

Module Scenario.
Import JS Http Store.

(** A one-dimensional stand-in for the cosine distance: 0 between equal
    first coordinates, 1 otherwise. *)
Definition distance01 (a b : vector) : Float8.t :=
  if Qeq_bool (hd 0%Q a) (hd 0%Q b) then Float8.Finite 0 else Float8.Finite 1.

Definition documents : list document :=
  [ mkDocument "d-alice" "notes.txt" (Some "alice") "alice/notes.txt" Completed;
    mkDocument "d-draft" "draft.txt" (Some "alice") "alice/draft.txt" Processing;
    mkDocument "d-bob" "plan.txt" (Some "bob") "bob/plan.txt" Completed ].

Definition document_chunks : list document_chunk :=
  [ mkChunk "c-bob" (Some "d-bob") "Bob plans a trip to the lake" (Some [0%Q]) 0;
    mkChunk "c-draft" (Some "d-draft") "Alice drafts a letter to Bob" (Some [1%Q]) 0;
    mkChunk "c-alice" (Some "d-alice") "Alice keeps notes about cats" (Some [1%Q]) 0 ].

(** Alice's token is "t-alice", Carol's is "t-carol" (she has uploaded
    nothing); [searchError] is how the rpc fails, if it does. *)
Definition project (searchError : option string) : Backend :=
  {| configured := true;
     getUser := fun token =>
                  if String.eqb token "t-alice" then succeed (mkUser "alice")
                  else if String.eqb token "t-carol" then succeed (mkUser "carol")
                  else fail "invalid token";
     db := mkDatabase documents document_chunks;
     distance := distance01;
     docsError := None;
     searchError := searchError;
     chunksError := None;
     download := fun _ => fail "Object not found";
     updateStatus := fun _ _ => WriteOk;
     insertError := None |}.

Definition tooManyRequests : reply string :=
  mkReply 429 "Rate limit reached" (Malformed "Unexpected token R in JSON").

(** A query-chat deployment whose chat endpoint answers the calls listed
    in [script], then 429 for ever; the embeddings endpoint returns the
    query [1]. *)
Definition queryEnv (searchError : option string) (script : list (fetched string))
  : QueryChat.Env :=
  {| QueryChat.GROQ_API_KEY := Some "gsk-test";
     QueryChat.backend := project searchError;
     QueryChat.embeddings :=
       fun _ => Responded (mkReply 200 "" (Parsed [[1%Q]]));
     QueryChat.chatCompletions :=
       fun n => nth n script (Responded tooManyRequests) |}.

(** A toy embedding: the length of the text. *)
Definition embedLength (s : string) : vector := [inject_Z (len s)].

(** An extract-embeddings deployment whose embeddings endpoint answers
    429 to its first [limited] calls and embeds with [embedLength]
    afterwards. *)
Definition ingestEnv (limited : nat) : ExtractEmbeddings.Env :=
  {| ExtractEmbeddings.GROQ_API_KEY := Some "gsk-test";
     ExtractEmbeddings.backend := project None;
     ExtractEmbeddings.embeddings :=
       fun n batch =>
         if (n <? limited)%nat
         then Responded (mkReply 429 "Rate limit reached"
                                 (Malformed "Unexpected token R in JSON"))
         else Responded (mkReply 200 "" (Parsed (map embedLength batch))) |}.

(** The same project, whose write of the status "error" ends as
    [onError]. *)
Definition projectWriting (onError : written) : Backend :=
  {| configured := true;
     getUser := getUser (project None);
     db := db (project None);
     distance := distance01;
     docsError := None;
     searchError := None;
     chunksError := None;
     download := fun _ => fail "Object not found";
     updateStatus := fun _ status =>
                       if String.eqb status "error" then onError else WriteOk;
     insertError := None |}.

Definition ingestEnvWriting (onError : written) : ExtractEmbeddings.Env :=
  {| ExtractEmbeddings.GROQ_API_KEY := Some "gsk-test";
     ExtractEmbeddings.backend := projectWriting onError;
     ExtractEmbeddings.embeddings := ExtractEmbeddings.embeddings (ingestEnv 0) |}.

(** Alice asks for her draft to be processed. *)
Definition ingestRequest : Request :=
  {| method := "POST";
     body := Parsed (JObject [("filePath", Str "alice/draft.txt");
                              ("fileName", Str "draft.txt");
                              ("userId", Str "alice");
                              ("documentId", Str "d-draft")]);
     authorization := Some "Bearer t-alice" |}.

(** The same request without a [documentId]. *)
Definition ingestRequestNoId : Request :=
  {| method := "POST";
     body := Parsed (JObject [("filePath", Str "alice/draft.txt");
                              ("fileName", Str "draft.txt");
                              ("userId", Str "alice")]);
     authorization := Some "Bearer t-alice" |}.

End Scenario.


(* ================================================================== *)
(** ** Vocabulary of the further properties *)
(* ================================================================== *)

Module Props.
Import JS Http Store.

(** [t] occurs in [s] as a run of consecutive code units. *)
Definition occursIn (t s : string) : Prop :=
  exists before behind, s = before ++ t ++ behind.

(** No code unit of [s] is one of [.], [!], [?]. *)
Fixpoint noTerminator (s : string) : bool :=
  match s with
  | EmptyString => true
  | String c r => negb (isTerminator c) && noTerminator r
  end.

(** A sentence is covered by the loop state when its trimmed text occurs
    in a pushed chunk or in the buffer. *)
Definition covered (st : Chunker.state) (s : string) : Prop :=
  (exists c, In c (Chunker.chunks st) /\ occursIn (trim s) c)
  \/ occursIn (trim s) (Chunker.currentChunk st).

(** 1 for a non-empty buffer, 0 for the empty one. *)
Definition pending (buffer : string) : nat :=
  match buffer with
  | EmptyString => 0
  | String _ _ => 1
  end.

(** [ORDER BY]: ascending keys in the order of float8. *)
Definition ascending {A} (key : A -> Float8.t) (a b : A) : Prop :=
  Float8.leb (key a) (key b) = true.

(** Retrieval results from the most to the least similar, those whose
    similarity is NaN last. *)
Definition ranked (earlier later : row) : Prop :=
  match similarity earlier, similarity later with
  | _, Float8.NaN => True
  | Float8.NaN, _ => False
  | a, b => Float8.leb b a = true
  end.

(** The chunks [match_documents] scores: those with an embedding, each
    with its distance to the query. *)
Definition scored (distance : vector -> vector -> Float8.t) (database : database)
           (query_embedding : vector) : list (Float8.t * document_chunk) :=
  flat_map (fun c => match chunk_embedding c with
                     | Some e => [(distance e query_embedding, c)]
                     | None => []
                     end) (document_chunks database).

(** Those that pass the WHERE clause. *)
Definition kept (distance : vector -> vector -> Float8.t) (database : database)
           (query_embedding : vector) (match_threshold : Float8.t)
  : list (Float8.t * document_chunk) :=
  filter (fun dc => Float8.gtb (Float8.oneMinus (fst dc)) match_threshold)
         (scored distance database query_embedding).

(** The row [match_documents] returns for chunk [c] at distance [d]. *)
Definition rowOf (d : Float8.t) (c : document_chunk) : row :=
  {| id := chunk_id c;
     document_id := chunk_document_id c;
     chunk_text := chunk_chunk_text c;
     similarity := Float8.oneMinus d |}.

(** A chat-completion answer that is a success carrying [content]. *)
Definition chatSuccess (f : fetched string) (content : string) : Prop :=
  exists r, f = Responded r /\ ok r = true /\ json r = Parsed content.

(** Milliseconds spent waiting in a trace. *)
Definition totalWait (tr : list event) : Z := fold_right Z.add 0 (Spec.sleeps tr).

(** ceil(n / 10): the batches of 10 needed for [n] chunks. *)
Definition rounds (n : Z) : nat := Z.to_nat ((n + 9) / 10).

(** Events that read or write the project's data or call Groq: all
    but logging, waiting and the check of the caller's token. *)
Definition isAccess (e : event) : bool :=
  match e with
  | EvLog _ _ | EvSleep _ | EvGetUser _ => false
  | _ => true
  end.

(** The request carries a token that [auth.getUser] resolves to a user
    whose id passes [matches]. *)
Definition callerIs (supabaseAdmin : Backend) (req : Request)
           (matches : string -> bool) : Prop :=
  exists authHeader user,
    authorization req = Some authHeader
    /\ error (getUser supabaseAdmin (replace "Bearer " "" authHeader)) = None
    /\ data (getUser supabaseAdmin (replace "Bearer " "" authHeader)) = Some user
    /\ matches (user_id user) = true.

End Props.

(* ================================================================== *)
(** ** The front end's configuration module *)
(* ================================================================== *)

Module Config.
Import JS.

(** [a && b] on values. *)
Definition andv (a b : value) : value := if truthy a then b else a.

Definition urlPlaceholder : string := "your_supabase_project_url_here".
Definition keyPlaceholder : string := "your_supabase_anon_key_here".

Definition nullRead : string :=
  "Cannot read properties of null (reading 'SUPABASE_URL')".

(** The body of [isConfigured] once [getConfig()] has returned
    [config]. *)
Definition isConfigured (config : json) : Eff bool :=
  match prop "SUPABASE_URL" config, prop "SUPABASE_ANON_KEY" config with
  | Some url, Some key =>
      Eff.ret (truthy (andv (andv (andv url key)
                                  (Bool (negb (strictEqStr urlPlaceholder url))))
                            (Bool (negb (strictEqStr keyPlaceholder key)))))
  | _, _ => Eff.throw nullRead
  end.

Definition validateConfig (config : json) : Eff unit :=
  match prop "SUPABASE_URL" config, prop "SUPABASE_ANON_KEY" config with
  | Some url, Some key =>
      if negb (truthy url) || strictEqStr urlPlaceholder url
      then Eff.throw "SUPABASE_URL is not configured. Please configure your credentials."
      else if negb (truthy key) || strictEqStr keyPlaceholder key
      then Eff.throw "SUPABASE_ANON_KEY is not configured. Please configure your credentials."
      else Eff.ret tt
  | _, _ => Eff.throw nullRead
  end.

End Config.

(* ================================================================== *)
(** ** More cases of the example project *)
(* ================================================================== *)

Module Cases.
Import JS Http Store.

(** The example project with a database that refuses the select on
    documents. *)
Definition unreachable : Backend :=
  {| configured := true;
     getUser := getUser (Scenario.project None);
     db := db (Scenario.project None);
     distance := Scenario.distance01;
     docsError := Some "connection refused";
     searchError := None;
     chunksError := None;
     download := fun _ => fail "Object not found";
     updateStatus := fun _ _ => WriteOk;
     insertError := None |}.

(** The cosine distance in one dimension: NaN when a vector is zero (or
    empty), 0 between coordinates of the same sign, 2 otherwise. *)
Definition cosine1 (a b : vector) : Float8.t :=
  let x := hd 0%Q a in
  let y := hd 0%Q b in
  if Qeq_bool x 0 || Qeq_bool y 0 then Float8.NaN
  else if Qle_bool 0 (x * y) then Float8.Finite 0
  else Float8.Finite 2.

(** The example project, measured with [cosine1]: the embedding of Bob's
    chunk is the zero vector. *)
Definition cosineProject : Backend :=
  {| configured := true;
     getUser := getUser (Scenario.project None);
     db := db (Scenario.project None);
     distance := cosine1;
     docsError := None;
     searchError := None;
     chunksError := None;
     download := fun _ => fail "Object not found";
     updateStatus := fun _ _ => WriteOk;
     insertError := None |}.

Definition completion (content : string) : fetched string :=
  Responded (mkReply 200 "" (Parsed content)).

(** An embeddings endpoint that answers every request with a 429. *)
Definition throttled : ExtractEmbeddings.Env :=
  {| ExtractEmbeddings.GROQ_API_KEY := Some "gsk-test";
     ExtractEmbeddings.backend := Scenario.project None;
     ExtractEmbeddings.embeddings :=
       fun _ _ => Responded (mkReply 429 "Rate limit reached"
                                     (Malformed "Unexpected token R in JSON")) |}.

(** Alice asks a question about her documents. *)
Definition aliceAsks : Request :=
  {| method := "POST";
     body := Parsed (JObject [("query", Str "What about cats?");
                              ("userId", Str "alice")]);
     authorization := Some "Bearer t-alice" |}.

(** Carol, who has uploaded nothing, asks a question. *)
Definition carolAsks : Request :=
  {| method := "POST";
     body := Parsed (JObject [("query", Str "What is a cat?");
                              ("userId", Str "carol")]);
     authorization := Some "Bearer t-carol" |}.

(** The example deployment while the embeddings endpoint answers 503. *)
Definition embeddingsDown : QueryChat.Env :=
  {| QueryChat.GROQ_API_KEY := Some "gsk-test";
     QueryChat.backend := Scenario.project None;
     QueryChat.embeddings :=
       fun _ => Responded (mkReply 503 "Service Unavailable"
                                   (Malformed "Unexpected token S in JSON"));
     QueryChat.chatCompletions := fun _ => Responded Scenario.tooManyRequests |}.

(** A POST whose body is the JSON value [null]. *)
Definition nullBody : Request :=
  {| method := "POST";
     body := Parsed JNull;
     authorization := Some "Bearer t-alice" |}.

(** The example project with a bucket that holds Alice's draft. *)
Definition library : ExtractEmbeddings.Env :=
  {| ExtractEmbeddings.GROQ_API_KEY := Some "gsk-test";
     ExtractEmbeddings.backend :=
       {| configured := true;
          getUser := getUser (Scenario.project None);
          db := db (Scenario.project None);
          distance := Scenario.distance01;
          docsError := None;
          searchError := None;
          chunksError := None;
          download := fun _ => succeed "Cats purr. Dogs bark.";
          updateStatus := fun _ _ => WriteOk;
          insertError := None |};
     ExtractEmbeddings.embeddings :=
       ExtractEmbeddings.embeddings (Scenario.ingestEnv 0) |}.


End Cases.

(* ================================================================== *)
(** ** Facts about JavaScript strings *)
(* ================================================================== *)

Section StringFacts.
Import JS Spec.

Lemma length_append (a b : string) :
  String.length (a ++ b) = (String.length a + String.length b)%nat.
Proof. induction a as [|c a IH]; simpl; [reflexivity | now rewrite IH]. Qed.

Lemma len_append (a b : string) : len (a ++ b) = len a + len b.
Proof. unfold len. rewrite length_append. lia. Qed.

Lemma len_nonneg (s : string) : 0 <= len s.
Proof. unfold len. lia. Qed.

Lemma len_zero (s : string) : len s = 0 -> s = "".
Proof. destruct s; [reflexivity | unfold len; simpl; lia]. Qed.

Lemma trimStart_length (s : string) :
  (String.length (trimStart s) <= String.length s)%nat.
Proof.
  induction s as [|c s IH]; simpl; [lia|].
  destruct (isWhiteSpace c); simpl; lia.
Qed.

Lemma trimEnd_length (s : string) :
  (String.length (trimEnd s) <= String.length s)%nat.
Proof.
  induction s as [|c s IH]; simpl; [lia|].
  destruct (trimEnd s); [destruct (isWhiteSpace c)|]; simpl in *; lia.
Qed.

Lemma trim_len_le (s : string) : len (trim s) <= len s.
Proof.
  unfold len, trim.
  pose proof (trimEnd_length (trimStart s)). pose proof (trimStart_length s). lia.
Qed.

Lemma trimStart_headKept (s : string) : headKept (trimStart s).
Proof.
  induction s as [|c s IH]; simpl; [exact I|].
  destruct (isWhiteSpace c) eqn:E; [exact IH | exact E].
Qed.

Lemma trimStart_fixed (s : string) : headKept s -> trimStart s = s.
Proof. destruct s as [|c s]; simpl; [reflexivity|]. now intros ->. Qed.

Lemma trimEnd_headKept (s : string) : headKept s -> headKept (trimEnd s).
Proof.
  destruct s as [|c s]; simpl; [trivial|]. intros E.
  destruct (trimEnd s); [rewrite E|]; exact E.
Qed.

Lemma trimEnd_idempotent (s : string) : trimEnd (trimEnd s) = trimEnd s.
Proof.
  induction s as [|c s IH]; simpl; [reflexivity|].
  destruct (trimEnd s) as [|d t] eqn:E.
  - destruct (isWhiteSpace c) eqn:W; simpl; [reflexivity | now rewrite W].
  - change (trimEnd (String c (String d t))) with
      (match trimEnd (String d t) with
       | EmptyString => if isWhiteSpace c then EmptyString else String c EmptyString
       | r' => String c r'
       end).
    now rewrite IH.
Qed.

Lemma trim_idempotent (s : string) : trim (trim s) = trim s.
Proof.
  unfold trim.
  rewrite (trimStart_fixed (trimEnd (trimStart s))).
  - apply trimEnd_idempotent.
  - apply trimEnd_headKept, trimStart_headKept.
Qed.

Lemma trim_space (s : string) : trim (" " ++ s) = trim s.
Proof. reflexivity. Qed.

Lemma trimEnd_empty (s : string) : trimEnd s = "" -> blank s = true.
Proof.
  induction s as [|c s IH]; simpl; [reflexivity|].
  destruct (trimEnd s); [|discriminate].
  destruct (isWhiteSpace c); [intros _; now apply IH | discriminate].
Qed.

Lemma blank_trimStart (s : string) : blank (trimStart s) = true -> blank s = true.
Proof.
  induction s as [|c s IH]; simpl; [reflexivity|].
  destruct (isWhiteSpace c) eqn:E; simpl; [exact IH | now rewrite E].
Qed.

Lemma trim_empty_blank (s : string) : trim s = "" -> blank s = true.
Proof. intros H. apply blank_trimStart, trimEnd_empty, H. Qed.

Lemma terminator_not_space (c : ascii) : isTerminator c = true -> isWhiteSpace c = false.
Proof.
  unfold isTerminator. intros H.
  apply orb_true_iff in H as [H|H]; [apply orb_true_iff in H as [H|H]|];
    apply Ascii.eqb_eq in H; subst c; reflexivity.
Qed.

Lemma splitRuns_blank (s : string) : blank s = true -> splitRuns false s = [s].
Proof.
  induction s as [|c s IH]; simpl; [reflexivity|].
  intros H. apply andb_true_iff in H as [Hc Hs].
  destruct (isTerminator c) eqn:T.
  - apply terminator_not_space in T. congruence.
  - now rewrite (IH Hs).
Qed.

Lemma split_nonempty (sep : ascii) (s : string) : split sep s <> [].
Proof.
  destruct s as [|c s]; simpl; [discriminate|].
  destruct (Ascii.eqb c sep); [discriminate|].
  destruct (split sep s); discriminate.
Qed.

Lemma concat_cons (sep x : string) (xs : list string) :
  xs <> [] -> String.concat sep (x :: xs) = x ++ sep ++ String.concat sep xs.
Proof. destruct xs; [congruence | reflexivity]. Qed.

(** [s.split(' ').join(' ')] gives [s] back. *)
Lemma join_split (s : string) : join " " (split " " s) = s.
Proof.
  unfold join. induction s as [|c s IH]; [reflexivity|].
  simpl split. destruct (Ascii.eqb c " ") eqn:E.
  - apply Ascii.eqb_eq in E. subst c.
    rewrite concat_cons by apply split_nonempty. simpl. now rewrite IH.
  - pose proof (split_nonempty " " s) as NE.
    destruct (split " " s) as [|w ws]; [congruence|].
    simpl consHead. destruct ws as [|w' ws].
    + simpl in *. now rewrite IH.
    + change (String.concat " " (String c w :: w' :: ws))
        with (String c (String.concat " " (w :: w' :: ws))).
      now rewrite IH.
Qed.

Lemma concat_tail_length (sep x : string) (xs : list string) :
  (String.length (String.concat sep xs) <= String.length (String.concat sep (x :: xs)))%nat.
Proof.
  destruct xs as [|y ys]; [simpl; lia|].
  rewrite (concat_cons sep x (y :: ys)) by easy. rewrite !length_append. lia.
Qed.

Lemma concat_skipn_length (sep : string) (n : nat) (l : list string) :
  (String.length (String.concat sep (skipn n l)) <= String.length (String.concat sep l))%nat.
Proof.
  revert l. induction n as [|n IH]; intros l; [simpl; lia|].
  destruct l as [|x xs]; [simpl; lia|].
  simpl skipn. pose proof (IH xs). pose proof (concat_tail_length sep x xs). lia.
Qed.

End StringFacts.

(* ================================================================== *)
(** ** The chunker *)
(* ================================================================== *)

Section ChunkerFacts.
Import JS Chunker Spec.

Variables chunkSize overlap : Z.

Lemma overlapText_len (buffer : string) : len (overlapText overlap buffer) <= len buffer.
Proof.
  unfold overlapText, sliceFrom, join, len.
  pose proof (concat_skipn_length " "
                (relIndex (List.length (split " " buffer)) (- (overlap / 5)))
                (split " " buffer)) as H.
  pose proof (join_split buffer) as J. unfold join in J. rewrite J in H. lia.
Qed.

Lemma origin_mono sentences cs cs' buffer :
  incl cs cs' ->
  origin sentences cs chunkSize overlap buffer ->
  origin sentences cs' chunkSize overlap buffer.
Proof.
  intros I [b Hb | s Hs | closed s Hs Hc].
  - now apply Fits.
  - now apply Single.
  - apply Seeded; auto.
Qed.

(** The three ways one iteration can go. *)
Lemma step_skip st sentence :
  trim sentence = "" -> step chunkSize overlap st sentence = st.
Proof. intros E. unfold step. now rewrite E. Qed.

Lemma step_close st sentence :
  trim sentence <> "" ->
  len (currentChunk st) + len (trim sentence) > chunkSize ->
  len (currentChunk st) > 0 ->
  step chunkSize overlap st sentence
  = {| chunks := chunks st ++ [trim (currentChunk st)];
       currentChunk := overlapText overlap (currentChunk st) ++ " " ++ trim sentence |}.
Proof.
  intros NE H1 H2. unfold step.
  apply String.eqb_neq in NE. rewrite NE.
  replace (len (currentChunk st) + len (trim sentence) >? chunkSize) with true
    by (symmetry; apply Z.gtb_lt; lia).
  replace (len (currentChunk st) >? 0) with true by (symmetry; apply Z.gtb_lt; lia).
  reflexivity.
Qed.

Lemma step_append st sentence :
  trim sentence <> "" ->
  len (currentChunk st) + len (trim sentence) <= chunkSize \/ currentChunk st = "" ->
  step chunkSize overlap st sentence
  = {| chunks := chunks st;
       currentChunk := currentChunk st ++ " " ++ trim sentence |}.
Proof.
  intros NE H. unfold step.
  apply String.eqb_neq in NE. rewrite NE.
  destruct H as [H | H].
  - replace (len (currentChunk st) + len (trim sentence) >? chunkSize) with false; [reflexivity|].
    symmetry. apply not_true_is_false. rewrite Z.gtb_lt. lia.
  - rewrite H. rewrite andb_comm. reflexivity.
Qed.

Lemma step_inv sentences st sentence :
  In sentence sentences ->
  chunkerInv sentences chunkSize overlap st ->
  chunkerInv sentences chunkSize overlap (step chunkSize overlap st sentence).
Proof.
  intros Hin [Hcur Hcs].
  destruct (string_dec (trim sentence) "") as [E | NE].
  { rewrite step_skip by exact E. now split. }
  destruct (string_dec (currentChunk st) "") as [E0 | NE0].
  - (* first sentence of the buffer *)
    rewrite step_append by auto. split; simpl.
    + right. rewrite E0. now apply Single.
    + exact Hcs.
  - assert (0 < len (currentChunk st)) as Hpos.
    { pose proof (len_nonneg (currentChunk st)).
      destruct (Z.eq_dec (len (currentChunk st)) 0) as [Z0|]; [|lia].
      now apply len_zero in Z0. }
    destruct Hcur as [Hcur | Hcur]; [congruence|].
    destruct (Z_le_gt_dec (len (currentChunk st) + len (trim sentence)) chunkSize)
      as [Hle | Hgt].
    + rewrite step_append by auto. split; cbn [currentChunk chunks].
      * right. apply Fits. rewrite !len_append. change (len " ") with 1. lia.
      * exact Hcs.
    + rewrite step_close by (auto; lia). split; simpl.
      * right. apply Seeded; [exact Hin|]. apply in_or_app. right. now left.
      * intros c Hc. apply in_app_or in Hc as [Hc | [<- | []]].
        -- destruct (Hcs c Hc) as (b & -> & Hb). exists b. split; [reflexivity|].
           eapply origin_mono; [|exact Hb]. apply incl_appl, incl_refl.
        -- exists (currentChunk st). split; [reflexivity|].
           eapply origin_mono; [|exact Hcur]. apply incl_appl, incl_refl.
Qed.

Lemma fold_inv sentences l st :
  incl l sentences ->
  chunkerInv sentences chunkSize overlap st ->
  chunkerInv sentences chunkSize overlap (fold_left (step chunkSize overlap) l st).
Proof.
  revert st. induction l as [|s l IH]; intros st I H; [exact H|].
  simpl. apply IH.
  - intros x Hx. apply I. now right.
  - apply step_inv; [apply I; now left | exact H].
Qed.

Lemma loop_inv text :
  chunkerInv (sentencesOf text) chunkSize overlap (loop text chunkSize overlap).
Proof.
  apply fold_inv; [apply incl_refl|].
  split; simpl; [now left | intros c []].
Qed.

(** Every chunk before the final filter is a trimmed buffer whose origin
    is known. *)
Lemma rawChunks_origin text c :
  In c (rawChunks text chunkSize overlap) ->
  exists buffer,
    c = trim buffer
    /\ origin (sentencesOf text) (rawChunks text chunkSize overlap) chunkSize overlap buffer.
Proof.
  unfold rawChunks. destruct (loop_inv text) as [Hcur Hcs].
  destruct (len (trim (currentChunk (loop text chunkSize overlap))) >? 0) eqn:E.
  - intros Hc. apply in_app_or in Hc as [Hc | [<- | []]].
    + destruct (Hcs c Hc) as (b & -> & Hb). exists b. split; [reflexivity|].
      eapply origin_mono; [|exact Hb]. apply incl_appl, incl_refl.
    + exists (currentChunk (loop text chunkSize overlap)). split; [reflexivity|].
      destruct Hcur as [E0 | Hcur].
      * rewrite E0 in E. discriminate.
      * eapply origin_mono; [|exact Hcur]. apply incl_appl, incl_refl.
  - intros Hc. destruct (Hcs c Hc) as (b & -> & Hb). now exists b.
Qed.

Lemma rawChunks_trimmed text c :
  In c (rawChunks text chunkSize overlap) -> trim c = c.
Proof.
  intros H. destruct (rawChunks_origin text c H) as (b & -> & _).
  apply trim_idempotent.
Qed.

Lemma blank_no_chunks text :
  trim text = "" -> rawChunks text chunkSize overlap = [].
Proof.
  intros E. unfold rawChunks, loop, sentencesOf, splitSentences.
  rewrite (splitRuns_blank text (trim_empty_blank text E)).
  simpl. rewrite E. reflexivity.
Qed.

Lemma no_sentences_no_chunks text :
  sentencesOf text = [] -> rawChunks text chunkSize overlap = [].
Proof. intros E. unfold rawChunks, loop. now rewrite E. Qed.

Lemma sentence_nonempty text s : In s (sentencesOf text) -> 1 <= len (trim s).
Proof.
  unfold sentencesOf. intros H. apply filter_In in H as [_ H].
  apply Z.gtb_lt in H. lia.
Qed.

End ChunkerFacts.

(** C9. Every chunk returned by [splitTextIntoChunks] is a non-empty,
    already trimmed string whose (trimmed) length is greater than 10; the
    result is exactly the chunks built by the loop that are longer than 10,
    the others being dropped; and for an empty or white-space-only text the
    result is the empty sequence. *)
Theorem chunks_above_floor (text : string) (chunkSize overlap : Z) :
  (forall chunk,
      In chunk (Chunker.splitTextIntoChunks text chunkSize overlap) ->
      chunk <> "" /\ JS.trim chunk = chunk /\ 10 < JS.len (JS.trim chunk))
  /\ (forall chunk,
         In chunk (Chunker.rawChunks text chunkSize overlap) ->
         (JS.len (JS.trim chunk) <= 10 ->
          ~ In chunk (Chunker.splitTextIntoChunks text chunkSize overlap))
         /\ (10 < JS.len (JS.trim chunk) ->
             In chunk (Chunker.splitTextIntoChunks text chunkSize overlap)))
  /\ (JS.trim text = "" -> Chunker.splitTextIntoChunks text chunkSize overlap = []).
Proof.
  unfold Chunker.splitTextIntoChunks. repeat split.
  - apply filter_In in H as [_ H]. apply Z.gtb_lt in H.
    intros ->. discriminate.
  - apply filter_In in H as [H _]. now apply rawChunks_trimmed in H.
  - apply filter_In in H as [H L]. rewrite (rawChunks_trimmed _ _ _ _ H).
    apply Z.gtb_lt in L. lia.
  - intros L I. apply filter_In in I as [_ I]. apply Z.gtb_lt in I.
    rewrite (rawChunks_trimmed _ _ _ _ H) in L. lia.
  - intros L. apply filter_In. split; [exact H|].
    rewrite (rawChunks_trimmed _ _ _ _ H) in L. apply Z.gtb_lt. lia.
  - intros E. now rewrite blank_no_chunks.
Qed.

Lemma chunks_above_floor_witness :
  (In "Hi" (Chunker.rawChunks "Hi. Dogs are mammals too." 10 50)
   /\ ~ In "Hi" (Chunker.splitTextIntoChunks "Hi. Dogs are mammals too." 10 50))
  /\ (In "Hi Dogs are mammals too"
          (Chunker.splitTextIntoChunks "Hi. Dogs are mammals too." 10 50)
      /\ 10 < JS.len (JS.trim "Hi Dogs are mammals too"))
  /\ (JS.trim "  " = "" /\ Chunker.splitTextIntoChunks "  " 500 50 = []).
Proof.
  destruct (chunks_above_floor "Hi. Dogs are mammals too." 10 50) as (K1 & K2 & _).
  destruct (chunks_above_floor "  " 500 50) as (_ & _ & K3).
  assert (In "Hi" (Chunker.rawChunks "Hi. Dogs are mammals too." 10 50)) as H1
      by (vm_compute; tauto).
  assert (In "Hi Dogs are mammals too"
             (Chunker.splitTextIntoChunks "Hi. Dogs are mammals too." 10 50)) as H2
      by (vm_compute; tauto).
  destruct (K2 _ H1) as [D _].
  destruct (K1 _ H2) as (_ & _ & L).
  split; [split; [exact H1 | apply D; vm_compute; discriminate]|].
  split; [split; [exact H2 | exact L]|].
  split; [reflexivity | apply K3; reflexivity].
Defined.

(** C8 (as amended). For a chunk size of at least 1, no chunk returned by
    [splitTextIntoChunks] exceeds [chunkSize] by more than the length of one
    sentence plus the length of the overlap text carried into it from a
    closed buffer. More precisely, every chunk has at most [chunkSize + 1]
    code units, or is a single sentence, or is the overlap carried from a
    closed buffer followed by exactly one sentence, and then has at most the
    length of that closed buffer plus one plus the length of the sentence.
    And the buffer is closed out exactly when appending the next sentence
    would exceed [chunkSize] while the buffer is non-empty; otherwise the
    sentence is appended. *)
Theorem chunk_size_bound (text : string) (chunkSize overlap : Z) :
  (forall chunk,
      In chunk (Chunker.splitTextIntoChunks text chunkSize overlap) ->
      1 <= chunkSize ->
      exists s carried,
        In s (Chunker.sentencesOf text)
        /\ (carried = ""
            \/ exists closed,
                 In (JS.trim closed) (Chunker.rawChunks text chunkSize overlap)
                 /\ carried = Chunker.overlapText overlap closed)
        /\ JS.len chunk <= chunkSize + JS.len (JS.trim s) + JS.len carried)
  /\ (forall chunk,
         In chunk (Chunker.splitTextIntoChunks text chunkSize overlap) ->
         JS.len chunk <= chunkSize + 1
         \/ (exists s, In s (Chunker.sentencesOf text) /\ chunk = JS.trim s)
         \/ (exists closed s,
                In s (Chunker.sentencesOf text)
                /\ In (JS.trim closed) (Chunker.rawChunks text chunkSize overlap)
                /\ chunk = JS.trim (Chunker.overlapText overlap closed ++ " " ++ JS.trim s)
                /\ JS.len chunk <= JS.len closed + 1 + JS.len (JS.trim s)))
  /\ (forall st sentence,
         JS.trim sentence <> "" ->
         (JS.len (Chunker.currentChunk st) + JS.len (JS.trim sentence) > chunkSize ->
          JS.len (Chunker.currentChunk st) > 0 ->
          Chunker.step chunkSize overlap st sentence
          = {| Chunker.chunks :=
                 Chunker.chunks st ++ [JS.trim (Chunker.currentChunk st)];
               Chunker.currentChunk :=
                 Chunker.overlapText overlap (Chunker.currentChunk st)
                 ++ " " ++ JS.trim sentence |})
         /\ (JS.len (Chunker.currentChunk st) + JS.len (JS.trim sentence) <= chunkSize
             \/ Chunker.currentChunk st = "" ->
             Chunker.step chunkSize overlap st sentence
             = {| Chunker.chunks := Chunker.chunks st;
                  Chunker.currentChunk :=
                    Chunker.currentChunk st ++ " " ++ JS.trim sentence |})).
Proof.
  split; [|split].
  - intros chunk H Hsize. apply filter_In in H as [H _].
    destruct (rawChunks_origin _ _ _ _ H) as (buffer & -> & [b Hb | s Hs | closed s Hs Hc]).
    + destruct (Chunker.sentencesOf text) as [|s0 rest] eqn:E.
      { rewrite (no_sentences_no_chunks _ _ _ E) in H. destruct H. }
      exists s0, "". split; [now left|]. split; [now left|].
      assert (In s0 (Chunker.sentencesOf text)) as I by (rewrite E; now left).
      pose proof (sentence_nonempty _ _ I). pose proof (trim_len_le b).
      change (JS.len "") with 0. lia.
    + exists s, "". split; [exact Hs|]. split; [now left|].
      rewrite trim_space, trim_idempotent. change (JS.len "") with 0. lia.
    + exists s, (Chunker.overlapText overlap closed).
      split; [exact Hs|]. split; [right; now exists closed|].
      pose proof (trim_len_le (Chunker.overlapText overlap closed ++ " " ++ JS.trim s)) as L.
      rewrite !len_append in L. change (JS.len " ") with 1 in L. lia.
  - intros chunk H. apply filter_In in H as [H _].
    destruct (rawChunks_origin _ _ _ _ H) as (buffer & -> & [b Hb | s Hs | closed s Hs Hc]).
    + left. pose proof (trim_len_le b) as L. lia.
    + right; left. exists s. split; [exact Hs|].
      rewrite trim_space. apply trim_idempotent.
    + right; right. exists closed, s. repeat split; auto.
      pose proof (trim_len_le (Chunker.overlapText overlap closed ++ " " ++ JS.trim s)) as L.
      rewrite !len_append in L. change (JS.len " ") with 1 in L.
      pose proof (overlapText_len overlap closed). lia.
  - intros st sentence NE. split.
    + intros H1 H2. now apply step_close.
    + intros H. now apply step_append.
Qed.

Lemma chunk_size_bound_witness :
  In "mammals Dogs are mammals too"
     (Chunker.splitTextIntoChunks
        "Cats are mammals. Dogs are mammals too. Fish are not mammals." 20 5)
  /\ (exists s carried,
         In s (Chunker.sentencesOf
                 "Cats are mammals. Dogs are mammals too. Fish are not mammals.")
         /\ (carried = ""
             \/ exists closed,
                  In (JS.trim closed)
                     (Chunker.rawChunks
                        "Cats are mammals. Dogs are mammals too. Fish are not mammals." 20 5)
                  /\ carried = Chunker.overlapText 5 closed)
         /\ JS.len "mammals Dogs are mammals too"
            <= 20 + JS.len (JS.trim s) + JS.len carried)
  /\ Chunker.step 20 5 {| Chunker.chunks := []; Chunker.currentChunk := " Cats are mammals" |}
                  " Dogs are mammals too"
     = {| Chunker.chunks := ["Cats are mammals"];
          Chunker.currentChunk := "mammals Dogs are mammals too" |}.
Proof.
  destruct (chunk_size_bound
              "Cats are mammals. Dogs are mammals too. Fish are not mammals." 20 5)
    as (K1 & _ & K2).
  assert (In "mammals Dogs are mammals too"
             (Chunker.splitTextIntoChunks
                "Cats are mammals. Dogs are mammals too. Fish are not mammals." 20 5)) as H
      by (vm_compute; tauto).
  split; [exact H|]. split; [apply (K1 _ H); lia|].
  destruct (K2 {| Chunker.chunks := []; Chunker.currentChunk := " Cats are mammals" |}
               " Dogs are mammals too") as [K _]; [vm_compute; discriminate|].
  assert (JS.len " Cats are mammals" + JS.len (JS.trim " Dogs are mammals too") > 20) as G1
      by (vm_compute; reflexivity).
  assert (JS.len " Cats are mammals" > 0) as G2 by (vm_compute; reflexivity).
  rewrite (K G1 G2). vm_compute. reflexivity.
Defined.

(** C8 as first stated does not hold: with the default overlap of 50 and a
    chunk size of 20, the third chunk of the three-sentence text carries the
    whole of the two earlier sentences; no sentence is longer than 20, yet
    the chunk exceeds 20 by more than any sentence's length. *)
Lemma chunk_size_bound_counterexample :
  ~ (forall chunk,
        In chunk (Chunker.splitTextIntoChunks
                    "Cats are mammals. Dogs are mammals too. Fish are not mammals." 20 50) ->
        (exists s,
            In s (Chunker.sentencesOf
                    "Cats are mammals. Dogs are mammals too. Fish are not mammals.")
            /\ 20 < JS.len (JS.trim s))
        \/ (exists s,
               In s (Chunker.sentencesOf
                       "Cats are mammals. Dogs are mammals too. Fish are not mammals.")
               /\ JS.len chunk <= 20 + JS.len (JS.trim s))).
Proof.
  intros H.
  specialize (H "Cats are mammals Dogs are mammals too Fish are not mammals").
  destruct H as [(s & Hs & L) | (s & Hs & L)].
  - vm_compute. tauto.
  - vm_compute in Hs. destruct Hs as [<- | [<- | [<- | []]]]; vm_compute in L; discriminate.
  - vm_compute in Hs.
    destruct Hs as [<- | [<- | [<- | []]]]; vm_compute in L; apply L; reflexivity.
Qed.

(* ================================================================== *)
(** ** Traces and outcomes *)
(* ================================================================== *)

Section EffFacts.
Context {A B : Type}.

Lemma bind_ret (tr : list event) (a : A) (k : A -> Eff B) :
  Eff.bind (tr, Ret a) k = Eff.after tr (k a).
Proof. reflexivity. Qed.

Lemma bind_throw (tr : list event) (m : string) (k : A -> Eff B) :
  Eff.bind (tr, Throw m) k = (tr, Throw m).
Proof. reflexivity. Qed.

Lemma bind_unit (a : A) (k : A -> Eff B) : Eff.bind (Eff.ret a) k = k a.
Proof. unfold Eff.bind, Eff.ret, Eff.after. simpl. now destruct (k a). Qed.

Lemma snd_after (tr : list event) (c : Eff A) : snd (Eff.after tr c) = snd c.
Proof. reflexivity. Qed.

Lemma fst_after (tr : list event) (c : Eff A) :
  fst (Eff.after tr c) = (tr ++ fst c)%list.
Proof. reflexivity. Qed.

Lemma after_nil (c : Eff A) : Eff.after [] c = c.
Proof. now destruct c. Qed.

Lemma after_after (t1 t2 : list event) (c : Eff A) :
  Eff.after t1 (Eff.after t2 c) = Eff.after (t1 ++ t2) c.
Proof. unfold Eff.after. simpl. now rewrite app_assoc. Qed.

(** A computation that does not throw is left alone by [tryCatch]. *)
Lemma tryCatch_ret (tr : list event) (a : A) (h : string -> Eff A) :
  Eff.tryCatch (tr, Ret a) h = (tr, Ret a).
Proof. reflexivity. Qed.

Lemma tryCatch_throw (tr : list event) (m : string) (h : string -> Eff A) :
  Eff.tryCatch (tr, Throw m) h = Eff.after tr (h m).
Proof. reflexivity. Qed.

End EffFacts.

Lemma bind_emit {B : Type} (e : event) (k : unit -> Eff B) :
  Eff.bind (Eff.emit e) k = Eff.after [e] (k tt).
Proof. reflexivity. Qed.

Lemma bind_logger {B : Type} (level message : string) (k : unit -> Eff B) :
  Eff.bind (Eff.logger level message) k = Eff.after [EvLog level message] (k tt).
Proof. reflexivity. Qed.

Lemma bind_sleep {B : Type} (ms : Z) (k : unit -> Eff B) :
  Eff.bind (Eff.sleep ms) k = Eff.after [EvSleep ms] (k tt).
Proof. reflexivity. Qed.

(** Rewriting a sequence of effects into its trace and its continuation. *)
Create Rewrite HintDb eff.
#[global] Hint Rewrite @bind_emit @bind_logger @bind_sleep @bind_unit
  @snd_after @fst_after @after_after : eff.

Ltac eff := autorewrite with eff.

(** Settles the boolean test [a <? b] from the arithmetic context. *)
Ltac test_holds a b :=
  replace (a <? b) with true by (symmetry; apply Z.ltb_lt; (assumption || lia)).
Ltac test_fails a b :=
  replace (a <? b) with false by (symmetry; apply Z.ltb_ge; (assumption || lia)).

(* ================================================================== *)
(** ** Retrieval: [match_documents], [findRelevantChunks] *)
(* ================================================================== *)

Section RetrievalFacts.
Import JS Http Store QueryChat Spec.

Lemma firstn_In {A} (n : nat) (x : A) (l : list A) : In x (firstn n l) -> In x l.
Proof.
  revert l. induction n as [|n IH]; intros [|y l]; simpl; try tauto.
  intros [-> | H]; auto.
Qed.

Lemma insertBy_In {A} (key : A -> Float8.t) (x y : A) (l : list A) :
  In y (insertBy key x l) -> y = x \/ In y l.
Proof.
  induction l as [|z l IH]; simpl.
  - intros [<- | []]. now left.
  - destruct (Float8.gtb (key x) (key z)); simpl.
    + intros [<- | H]; [right; now left|]. destruct (IH H); auto.
    + intros [<- | [<- | H]]; auto.
Qed.

Lemma sortBy_In {A} (key : A -> Float8.t) (y : A) (l : list A) :
  In y (sortBy key l) -> In y l.
Proof.
  induction l as [|x l IH]; simpl; [trivial|].
  intros H. apply insertBy_In in H as [-> | H]; auto.
Qed.

(** Every row of [match_documents] is a stored chunk. *)
Lemma match_documents_stored distance db q threshold count r :
  In r (match_documents distance db q threshold count) ->
  exists c, In c (document_chunks db)
            /\ id r = chunk_id c /\ document_id r = chunk_document_id c
            /\ chunk_text r = chunk_chunk_text c.
Proof.
  unfold match_documents. intros H.
  apply in_map_iff in H as ([d c] & <- & H). simpl.
  apply firstn_In, sortBy_In, filter_In in H as [H _].
  apply in_flat_map in H as (c' & Hc' & H).
  destruct (chunk_embedding c'); [|destruct H].
  destruct H as [[= _ <-] | []]. now exists c'.
Qed.

(** The ids selected for [userId]: documents it owns that are completed. *)
Lemma selected_owned sb userId x :
  In x (map doc_id (filter (ownedCompleted userId) (documents (db sb)))) ->
  exists d, In d (documents (db sb)) /\ x = doc_id d
            /\ uploaded_by d = Some userId /\ processing_status d = Completed.
Proof.
  intros H. apply in_map_iff in H as (d & <- & H).
  apply filter_In in H as [H O]. exists d. repeat split; auto.
  - unfold ownedCompleted in O. destruct (uploaded_by d) as [u|]; [|discriminate].
    apply andb_true_iff in O as [O _]. apply String.eqb_eq in O. now subst.
  - unfold ownedCompleted in O. destruct (uploaded_by d) as [u|]; [|discriminate].
    apply andb_true_iff in O as [_ O]. now destruct (processing_status d).
Qed.

Lemma includes_In ids o :
  includes ids o = true -> exists x, o = Some x /\ In x ids.
Proof.
  destruct o as [x|]; simpl; [|discriminate].
  intros H. apply existsb_exists in H as (y & Hy & E).
  apply String.eqb_eq in E. subst. now exists y.
Qed.

(** With [id] a primary key, the document an id names is unique. *)
Lemma primary_key (docs : list document) d d' :
  NoDup (map doc_id docs) -> In d docs -> In d' docs -> doc_id d = doc_id d' -> d = d'.
Proof.
  induction docs as [|x docs IH]; simpl; [intros _ []|].
  intros ND. inversion ND as [|? ? Hx ND']; subst.
  intros [-> | Hd] [-> | Hd'] E; auto.
  - exfalso. apply Hx. rewrite E. now apply in_map.
  - exfalso. apply Hx. rewrite <- E. now apply in_map.
Qed.

Lemma fallback_result sb ids rows :
  snd (fallbackTextSearch sb ids) = Ret rows ->
  chunksError sb = None
  /\ rows = placeholderRows (firstn 5 (filter (inIds ids) (document_chunks (db sb)))).
Proof.
  unfold fallbackTextSearch, selectChunksIn.
  destruct (chunksError sb); simpl; [discriminate|].
  intros [= <-]. split; reflexivity.
Qed.

(** The paths through [findRelevantChunks] that return. *)
Lemma found_rows sb q userId rows :
  snd (findRelevantChunks sb q userId) = Ret rows ->
  let ids := map doc_id (filter (ownedCompleted userId) (documents (db sb))) in
  docsError sb = None
  /\ ((ids = [] /\ rows = [])
      \/ (ids <> []
          /\ (searchError sb <> None
              \/ match_documents (distance sb) (db sb) q (Float8.Finite (1 # 10)) 5 = [])
          /\ chunksError sb = None
          /\ rows = placeholderRows
                      (firstn 5 (filter (inIds ids) (document_chunks (db sb)))))
      \/ (ids <> []
          /\ searchError sb = None
          /\ match_documents (distance sb) (db sb) q (Float8.Finite (1 # 10)) 5 <> []
          /\ rows = filter (fun chunk => includes ids (document_id chunk))
                           (match_documents (distance sb) (db sb) q (Float8.Finite (1 # 10)) 5))).
Proof.
  unfold findRelevantChunks, selectCompletedDocuments, rpcMatchDocuments.
  destruct (docsError sb); simpl; [discriminate|].
  destruct (map doc_id (filter (ownedCompleted userId) (documents (db sb))))
    as [|i ids] eqn:E; simpl.
  { intros [= <-]. split; auto. }
  destruct (searchError sb) as [m|] eqn:S; simpl.
  - intros H. apply fallback_result in H as [C ->].
    split; [reflexivity|]. right; left.
    split; [discriminate|]. split; [left; discriminate|]. now split.
  - destruct (match_documents (distance sb) (db sb) q (Float8.Finite (1 # 10)) 5) as [|r rs] eqn:M; simpl.
    + intros H. apply fallback_result in H as [C ->].
      split; [reflexivity|]. right; left.
      split; [discriminate|]. split; [now right|]. now split.
    + intros [= <-]. split; [reflexivity|]. right; right.
      split; [discriminate|]. split; [reflexivity|]. split; [discriminate|reflexivity].
Qed.

(** Where a returned row comes from, whatever the path. *)
Lemma found_row_scoped sb q userId rows r :
  snd (findRelevantChunks sb q userId) = Ret rows ->
  In r rows ->
  (exists c, In c (document_chunks (db sb))
             /\ id r = chunk_id c /\ document_id r = chunk_document_id c)
  /\ exists d, In d (documents (db sb)) /\ document_id r = Some (doc_id d)
               /\ uploaded_by d = Some userId /\ processing_status d = Completed.
Proof.
  intros H Hr. apply found_rows in H as [_ H]. cbv zeta in H.
  destruct H as [[_ ->] | [(_ & _ & _ & ->) | (_ & _ & _ & ->)]].
  - destruct Hr.
  - unfold placeholderRows in Hr. apply in_map_iff in Hr as (c & <- & Hc). simpl.
    apply firstn_In, filter_In in Hc as [Hc I].
    split; [now exists c|].
    unfold inIds in I. destruct (chunk_document_id c) as [x|]; [|discriminate].
    apply existsb_exists in I as (y & Hy & E). apply String.eqb_eq in E. subst y.
    destruct (selected_owned _ _ _ Hy) as (d & Hd & -> & O & S). now exists d.
  - apply filter_In in Hr as [Hr I]. split.
    + destruct (match_documents_stored _ _ _ _ _ _ Hr) as (c & Hc & E1 & E2 & _).
      now exists c.
    + apply includes_In in I as (x & E & Hx).
      destruct (selected_owned _ _ _ Hx) as (d & Hd & -> & O & S). now exists d.
Qed.

End RetrievalFacts.

(** C1. Every retrieval result returned by [findRelevantChunks], on the
    similarity path or on the fallback path, references a stored chunk whose
    parent document exists, is owned by the querying user and has status
    completed. [id] being the primary key of [documents], every document
    the result's [document_id] names is that one: a chunk of a pending,
    processing or failed document, or of another user's document, is never
    returned. *)
Theorem retrieval_scoping (supabaseAdmin : Store.Backend) (queryEmbedding : Store.vector)
        (userId : string) (tr : list event) (rows : list Store.row) :
  NoDup (map Store.doc_id (Store.documents (Store.db supabaseAdmin))) ->
  QueryChat.findRelevantChunks supabaseAdmin queryEmbedding userId = (tr, Ret rows) ->
  forall r, In r rows ->
    (exists c, In c (Store.document_chunks (Store.db supabaseAdmin))
               /\ Store.id r = Store.chunk_id c
               /\ Store.document_id r = Store.chunk_document_id c)
    /\ (exists d, In d (Store.documents (Store.db supabaseAdmin))
                  /\ Store.document_id r = Some (Store.doc_id d))
    /\ (forall d, In d (Store.documents (Store.db supabaseAdmin)) ->
                  Store.document_id r = Some (Store.doc_id d) ->
                  Store.uploaded_by d = Some userId
                  /\ Store.processing_status d = Store.Completed).
Proof.
  intros PK H r Hr.
  assert (snd (QueryChat.findRelevantChunks supabaseAdmin queryEmbedding userId) = Ret rows)
    as H' by now rewrite H.
  destruct (found_row_scoped _ _ _ _ _ H' Hr) as (Hc & d & Hd & E & O & S).
  split; [exact Hc|]. split; [now exists d|].
  intros d' Hd' E'. rewrite E in E'. injection E' as E'.
  now rewrite <- (primary_key _ _ _ PK Hd Hd' E').
Qed.

Lemma retrieval_scoping_witness :
  let r := {| Store.id := "c-alice"; Store.document_id := Some "d-alice";
              Store.chunk_text := "Alice keeps notes about cats";
              Store.similarity := Float8.Finite (1 - 0) |} in
  (exists c, In c Scenario.document_chunks
             /\ Store.id r = Store.chunk_id c
             /\ Store.document_id r = Store.chunk_document_id c)
  /\ (exists d, In d Scenario.documents /\ Store.document_id r = Some (Store.doc_id d))
  /\ (forall d, In d Scenario.documents ->
                Store.document_id r = Some (Store.doc_id d) ->
                Store.uploaded_by d = Some "alice"
                /\ Store.processing_status d = Store.Completed).
Proof.
  intros r.
  apply (retrieval_scoping (Scenario.project None) [1%Q] "alice"
           [EvSelectDocuments "alice"; EvRpcMatchDocuments (1 # 10) 5] [r]).
  - simpl. repeat constructor; simpl; intuition discriminate.
  - vm_compute. reflexivity.
  - simpl. auto.
Defined.

Section FallbackFacts.
Import JS Http Store QueryChat Spec.

Lemma placeholder_similarity chunks r :
  In r (placeholderRows chunks) -> similarity r = Float8.Finite (1 # 2).
Proof.
  unfold placeholderRows. intros H. apply in_map_iff in H as (c & <- & _). reflexivity.
Qed.

End FallbackFacts.


(* ================================================================== *)
(** ** The answer synthesizer: [generateChatResponse] *)
(* ================================================================== *)

Section RetryFacts.
Import JS Http Store QueryChat Spec.

Variable env : Env.
Variable system : string.
Variable query : JS.value.

Lemma chatCalls_app (t1 t2 : list event) :
  chatCalls (t1 ++ t2) = (chatCalls t1 + chatCalls t2)%nat.
Proof. unfold chatCalls. now rewrite filter_app, length_app. Qed.

(** Every answer of the chat endpoint is a rate limit, a failure or a
    success. *)
Lemma chat_answer_cases (f : fetched string) :
  rateLimited f
  \/ (exists m, chatFailure f m)
  \/ (exists r content, f = Responded r /\ status r <> 429 /\ ok r = true
                        /\ json r = Parsed content).
Proof.
  destruct f as [m | r].
  - right; left. exists m. constructor.
  - destruct (Z.eq_dec (status r) 429) as [E | NE]; [left; now exists r|].
    right. destruct (ok r) eqn:O.
    + destruct (json r) as [content | m] eqn:J.
      * right. now exists r, content.
      * left. exists m. now apply ChatMalformed.
    + left. eexists. now apply ChatStatus.
Qed.

Lemma attemptOnce_limited calls attempt :
  rateLimited (chatCompletions env calls) ->
  attemptOnce env system query calls attempt
  = ([EvFetchChat system query; EvLog "warning" "Rate limited, retrying";
      EvSleep (Z.min (1000 * 2 ^ Z.of_nat attempt) 60000)], Ret Continued).
Proof.
  intros (r & E & S). unfold attemptOnce. rewrite E, S. reflexivity.
Qed.

Lemma attemptOnce_failure calls attempt m :
  chatFailure (chatCompletions env calls) m ->
  attemptOnce env system query calls attempt = ([EvFetchChat system query], Throw m).
Proof.
  unfold attemptOnce. intros H.
  inversion H as [m' E | r NS NO E | r m' O J E]; subst.
  - reflexivity.
  - apply Z.eqb_neq in NS. rewrite NS, NO. reflexivity.
  - assert ((status r =? 429) = false) as NS.
    { apply Z.eqb_neq. intros S. unfold ok in O. rewrite S in O. discriminate. }
    rewrite NS, O, J. reflexivity.
Qed.

Lemma attemptOnce_success calls attempt r content :
  chatCompletions env calls = Responded r ->
  status r <> 429 -> ok r = true -> json r = Parsed content ->
  attemptOnce env system query calls attempt
  = ([EvFetchChat system query], Ret (Returned content)).
Proof.
  intros E NS O J. unfold attemptOnce.
  apply Z.eqb_neq in NS. rewrite E, NS, O, J. reflexivity.
Qed.

(** The loop, one equation per way an iteration can go. *)
Lemma retry_exhausted calls attempt :
  (maxAttempts <= attempt)%nat ->
  retryLoop env system query calls attempt
  = ([], Throw "Failed to generate response after maximum attempts").
Proof.
  intros H. rewrite retryLoop_equation_1.
  destruct (lt_dec attempt maxAttempts); [lia | reflexivity].
Qed.

Lemma retry_limited calls attempt :
  (attempt < maxAttempts)%nat ->
  rateLimited (chatCompletions env calls) ->
  retryLoop env system query calls attempt
  = Eff.after [EvFetchChat system query; EvLog "warning" "Rate limited, retrying";
               EvSleep (Z.min (1000 * 2 ^ Z.of_nat attempt) 60000)]
              (retryLoop env system query (S calls) (S attempt)).
Proof.
  intros H R. rewrite retryLoop_equation_1.
  destruct (lt_dec attempt maxAttempts); [|lia].
  cbn [retryLoop_unfold_clause_1]. rewrite (attemptOnce_limited _ _ R). reflexivity.
Qed.

Lemma retry_failure calls attempt m :
  (attempt < maxAttempts)%nat ->
  chatFailure (chatCompletions env calls) m ->
  retryLoop env system query calls attempt
  = if (S attempt <? maxAttempts)%nat
    then Eff.after [EvFetchChat system query; EvSleep (1000 * Z.of_nat (S attempt))]
                   (retryLoop env system query (S calls) (S attempt))
    else ([EvFetchChat system query;
           EvLog "error" "Failed to generate chat response after retries"], Throw m).
Proof.
  intros H F. rewrite retryLoop_equation_1.
  destruct (lt_dec attempt maxAttempts); [|lia].
  cbn [retryLoop_unfold_clause_1]. rewrite (attemptOnce_failure _ _ _ F).
  cbn [retryLoop_unfold_clause_1_clause_2].
  destruct (ge_dec (S attempt) maxAttempts) as [G | G]; simpl.
  - replace (S attempt <? maxAttempts)%nat with false
      by (symmetry; apply Nat.ltb_ge; lia).
    reflexivity.
  - replace (S attempt <? maxAttempts)%nat with true
      by (symmetry; apply Nat.ltb_lt; lia).
    unfold Eff.after, Eff.bind. simpl. reflexivity.
Qed.

Lemma retry_success calls attempt r content :
  (attempt < maxAttempts)%nat ->
  chatCompletions env calls = Responded r ->
  status r <> 429 -> ok r = true -> json r = Parsed content ->
  retryLoop env system query calls attempt = ([EvFetchChat system query], Ret content).
Proof.
  intros H E NS O J. rewrite retryLoop_equation_1.
  destruct (lt_dec attempt maxAttempts); [|lia].
  cbn [retryLoop_unfold_clause_1]. rewrite (attemptOnce_success _ _ _ _ E NS O J).
  reflexivity.
Qed.

(** From attempt number [attempt] on, at most [maxAttempts - attempt]
    requests are sent. *)
Lemma retry_calls_bounded (budget : nat) :
  forall calls attempt,
    (maxAttempts - attempt <= budget)%nat ->
    (chatCalls (fst (retryLoop env system query calls attempt))
     <= maxAttempts - attempt)%nat.
Proof.
  induction budget as [|budget IH]; intros calls attempt B.
  - rewrite retry_exhausted by lia. apply Nat.le_0_l.
  - destruct (lt_dec attempt maxAttempts) as [L | L];
      [|rewrite retry_exhausted; [apply Nat.le_0_l | lia]].
    specialize (IH (S calls) (S attempt)).
    assert (chatCalls (fst (retryLoop env system query (S calls) (S attempt)))
            <= maxAttempts - S attempt)%nat as IH' by (apply IH; lia).
    destruct (chat_answer_cases (chatCompletions env calls))
      as [R | [(m & F) | (r & content & E & NS & O & J)]].
    + rewrite (retry_limited _ _ L R), fst_after, chatCalls_app.
      change (chatCalls [EvFetchChat system query; EvLog "warning" "Rate limited, retrying";
                         EvSleep (Z.min (1000 * 2 ^ Z.of_nat attempt) 60000)]) with 1%nat.
      lia.
    + rewrite (retry_failure _ _ _ L F).
      destruct (S attempt <? maxAttempts)%nat.
      * rewrite fst_after, chatCalls_app.
        change (chatCalls [EvFetchChat system query;
                           EvSleep (1000 * Z.of_nat (S attempt))]) with 1%nat.
        lia.
      * change (1 <= maxAttempts - attempt)%nat. lia.
    + rewrite (retry_success _ _ _ _ L E NS O J).
      change (1 <= maxAttempts - attempt)%nat. lia.
Qed.

End RetryFacts.

(** C3. [generateChatResponse] sends at most 3 chat requests, whatever the
    endpoint answers. In the loop, a 429 answer at attempt [attempt] is
    followed by a wait of min(1000 * 2^attempt, 60000) ms and the next
    attempt; any other failure is followed, when attempts remain, by a wait
    of 1000 ms times the incremented attempt count and the next attempt,
    and is rethrown otherwise; the counter is the same in both cases. When
    every answer is a 429, the call sends exactly 3 requests, waits 1, 2 and
    4 seconds, and fails with an error. *)
Theorem retry_bound (env : QueryChat.Env) (query : JS.value)
        (relevantChunks : list Store.row) :
  (Spec.chatCalls (fst (QueryChat.generateChatResponse env query relevantChunks)) <= 3)%nat
  /\ (forall system calls attempt,
         (attempt < 3)%nat ->
         Spec.rateLimited (QueryChat.chatCompletions env calls) ->
         QueryChat.retryLoop env system query calls attempt
         = Eff.after [EvFetchChat system query; EvLog "warning" "Rate limited, retrying";
                      EvSleep (Z.min (1000 * 2 ^ Z.of_nat attempt) 60000)]
                     (QueryChat.retryLoop env system query (S calls) (S attempt)))
  /\ (forall system calls attempt m,
         (attempt < 3)%nat ->
         Spec.chatFailure (QueryChat.chatCompletions env calls) m ->
         QueryChat.retryLoop env system query calls attempt
         = if (S attempt <? 3)%nat
           then Eff.after [EvFetchChat system query;
                           EvSleep (1000 * Z.of_nat (S attempt))]
                          (QueryChat.retryLoop env system query (S calls) (S attempt))
           else ([EvFetchChat system query;
                  EvLog "error" "Failed to generate chat response after retries"],
                 Throw m))
  /\ (QueryChat.unset (QueryChat.GROQ_API_KEY env) = false ->
      (forall n, Spec.rateLimited (QueryChat.chatCompletions env n)) ->
      let system := QueryChat.systemMessage relevantChunks in
      QueryChat.generateChatResponse env query relevantChunks
      = ([EvFetchChat system query; EvLog "warning" "Rate limited, retrying"; EvSleep 1000;
          EvFetchChat system query; EvLog "warning" "Rate limited, retrying"; EvSleep 2000;
          EvFetchChat system query; EvLog "warning" "Rate limited, retrying"; EvSleep 4000],
         Throw "Failed to generate response after maximum attempts")
      /\ Spec.chatCalls (fst (QueryChat.generateChatResponse env query relevantChunks))
         = 3%nat).
Proof.
  split; [|split; [|split]].
  - unfold QueryChat.generateChatResponse.
    destruct (QueryChat.unset (QueryChat.GROQ_API_KEY env)); [apply Nat.le_0_l|].
    apply (retry_calls_bounded env _ query 3 0 0). reflexivity.
  - intros system calls attempt L R. now apply retry_limited.
  - intros system calls attempt m L F. now apply retry_failure.
  - intros K R system.
    assert (QueryChat.generateChatResponse env query relevantChunks
            = ([EvFetchChat system query; EvLog "warning" "Rate limited, retrying";
                EvSleep 1000;
                EvFetchChat system query; EvLog "warning" "Rate limited, retrying";
                EvSleep 2000;
                EvFetchChat system query; EvLog "warning" "Rate limited, retrying";
                EvSleep 4000],
               Throw "Failed to generate response after maximum attempts")) as E.
    { unfold QueryChat.generateChatResponse. rewrite K. fold system.
      rewrite (retry_limited env system query 0 0
                 ltac:(unfold QueryChat.maxAttempts; lia) (R 0%nat)).
      rewrite (retry_limited env system query 1 1
                 ltac:(unfold QueryChat.maxAttempts; lia) (R 1%nat)).
      rewrite (retry_limited env system query 2 2
                 ltac:(unfold QueryChat.maxAttempts; lia) (R 2%nat)).
      rewrite (retry_exhausted env system query 3 3) by (unfold QueryChat.maxAttempts; lia).
      reflexivity. }
    split; [exact E|]. rewrite E. reflexivity.
Qed.

Lemma retry_bound_witness :
  (QueryChat.retryLoop (Scenario.queryEnv None []) "ctx" (JS.Str "why?") 0 1
   = Eff.after [EvFetchChat "ctx" (JS.Str "why?"); EvLog "warning" "Rate limited, retrying";
                EvSleep (Z.min (1000 * 2 ^ Z.of_nat 1) 60000)]
               (QueryChat.retryLoop (Scenario.queryEnv None []) "ctx" (JS.Str "why?") 1 2))
  /\ (QueryChat.retryLoop (Scenario.queryEnv None [Http.NetworkError "connection reset"])
                          "ctx" (JS.Str "why?") 0 0
      = Eff.after [EvFetchChat "ctx" (JS.Str "why?"); EvSleep (1000 * Z.of_nat 1)]
                  (QueryChat.retryLoop
                     (Scenario.queryEnv None [Http.NetworkError "connection reset"])
                     "ctx" (JS.Str "why?") 1 1))
  /\ (snd (QueryChat.generateChatResponse (Scenario.queryEnv None []) (JS.Str "why?") [])
      = Throw "Failed to generate response after maximum attempts"
      /\ Spec.chatCalls
           (fst (QueryChat.generateChatResponse (Scenario.queryEnv None []) (JS.Str "why?") []))
         = 3%nat).
Proof.
  assert (forall n, Spec.rateLimited (QueryChat.chatCompletions (Scenario.queryEnv None []) n))
    as R.
  { intros n. exists Scenario.tooManyRequests. split; [|reflexivity].
    simpl. now destruct n. }
  split; [|split].
  - destruct (retry_bound (Scenario.queryEnv None []) (JS.Str "why?") []) as (_ & K & _).
    apply K; [lia | apply R].
  - destruct (retry_bound (Scenario.queryEnv None [Http.NetworkError "connection reset"])
                          (JS.Str "why?") []) as (_ & _ & K & _).
    apply (K "ctx" 0%nat 0%nat "connection reset"); [lia | constructor].
  - destruct (retry_bound (Scenario.queryEnv None []) (JS.Str "why?") []) as (_ & _ & _ & K).
    destruct (K eq_refl R) as [E C]. split; [now rewrite E | exact C].
Defined.

(* ================================================================== *)
(** ** The query handler *)
(* ================================================================== *)

Section QueryHandlerFacts.
Import JS Http Store QueryChat Spec.

Lemma chatCalls_cons (e : event) (tr : list event) :
  chatCalls (e :: tr) = ((if isChatFetch e then 1 else 0) + chatCalls tr)%nat.
Proof. unfold chatCalls. simpl. now destruct (isChatFetch e). Qed.

Lemma chatCalls_bind {A B} (c : Eff A) (k : A -> Eff B) :
  chatCalls (fst (Eff.bind c k))
  = (chatCalls (fst c)
     + match snd c with
       | Ret a => chatCalls (fst (k a))
       | _ => 0
       end)%nat.
Proof.
  destruct c as [tr [a | m |]]; unfold Eff.bind; simpl.
  - apply chatCalls_app.
  - lia.
  - lia.
Qed.

Lemma chatCalls_tryCatch {A} (c : Eff A) (h : string -> Eff A) :
  chatCalls (fst (Eff.tryCatch c h))
  = (chatCalls (fst c)
     + match snd c with
       | Throw m => chatCalls (fst (h m))
       | _ => 0
       end)%nat.
Proof.
  destruct c as [tr [a | m |]]; unfold Eff.tryCatch; simpl.
  - lia.
  - apply chatCalls_app.
  - lia.
Qed.

Lemma embedding_no_chat env query :
  chatCalls (fst (generateQueryEmbedding env query)) = 0%nat.
Proof.
  unfold generateQueryEmbedding.
  destruct (unset (GROQ_API_KEY env)); [reflexivity|].
  destruct (embeddings env query) as [m | r]; [reflexivity|].
  unfold Eff.bind. simpl.
  destruct (ok r); simpl; [|reflexivity].
  destruct (json r) as [[|e es] | m]; reflexivity.
Qed.

(** Without completed documents retrieval stops after the first select. *)
Lemma no_documents_found sb q userId :
  filter (ownedCompleted userId) (documents (db sb)) = [] ->
  findRelevantChunks sb q userId
  = match docsError sb with
    | Some m => ([EvSelectDocuments userId],
                 Throw ("Failed to fetch user documents: " ++ m))
    | None => ([EvSelectDocuments userId], Ret [])
    end.
Proof.
  intros E. unfold findRelevantChunks, selectCompletedDocuments. rewrite E.
  destruct (docsError sb); reflexivity.
Qed.

(** The handler once the request is authenticated for [uid], for a user
    without completed documents. *)
Lemma pipeline_no_documents env (query : JS.value) uid :
  filter (ownedCompleted uid) (documents (db (backend env))) = [] ->
  chatCalls
    (fst (queryEmbedding <- generateQueryEmbedding env query;;
          relevantChunks <- findRelevantChunks (backend env) queryEmbedding uid;;
          match relevantChunks with
          | [] => respond (Answer noInformation []) 200
          | _ =>
              answer <- generateChatResponse env query relevantChunks;;
              Eff.logger "info" "Chat query completed";;
              respond (Answer answer
                         (map (fun chunk => (id chunk, similarity chunk))
                              relevantChunks)) 200
          end)) = 0%nat.
Proof.
  intros E. rewrite chatCalls_bind, embedding_no_chat.
  destruct (snd (generateQueryEmbedding env query)) as [queryEmbedding | m |];
    [|reflexivity|reflexivity].
  rewrite chatCalls_bind, (no_documents_found _ _ _ E).
  destruct (docsError (backend env)); reflexivity.
Qed.

Lemma answerQuery_no_chat env req requestData uid :
  body req = Parsed requestData ->
  prop "userId" requestData = Some (Str uid) ->
  filter (ownedCompleted uid) (documents (db (backend env))) = [] ->
  chatCalls (fst (answerQuery env req)) = 0%nat.
Proof.
  intros B U E. unfold answerQuery. rewrite B, U.
  destruct (prop "query" requestData) as [query|]; [|reflexivity].
  destruct (negb (truthy query) || negb (truthy (Str uid))); [reflexivity|].
  rewrite chatCalls_bind. simpl fst. simpl snd. cbv iota.
  change (chatCalls [EvLog "info" "Processing chat query"]) with 0%nat.
  destruct (authorization req) as [authHeader|]; [|reflexivity].
  destruct (String.eqb authHeader ""); [reflexivity|].
  rewrite chatCalls_bind. unfold createSupabaseAdmin.
  destruct (configured (backend env)); [|reflexivity].
  simpl fst. simpl snd. cbv iota.
  destruct (error (getUser (backend env) (replace "Bearer " "" authHeader)));
    [reflexivity|].
  destruct (data (getUser (backend env) (replace "Bearer " "" authHeader))) as [user|];
    [|reflexivity].
  destruct (negb (String.eqb (user_id user) uid)); [reflexivity|].
  rewrite chatCalls_cons, (pipeline_no_documents env query uid E). reflexivity.
Qed.

Lemma query_embedding_ends env query :
  snd (generateQueryEmbedding env query) <> Running.
Proof.
  unfold generateQueryEmbedding. destruct (unset _); [discriminate|].
  rewrite bind_emit, snd_after.
  destruct (embeddings env query) as [m | r]; [discriminate|].
  destruct (ok r); cbn [negb]; [|discriminate].
  destruct (json r) as [[|e l] | m]; discriminate.
Qed.

Lemma bind_throws {A B} (c : Eff A) (k : A -> Eff B) (m : string) :
  snd c = Throw m -> Eff.bind c k = (fst c, Throw m).
Proof. destruct c as [tr o]. simpl. intros ->. reflexivity. Qed.

End QueryHandlerFacts.

(** C4 (as amended). A query on behalf of a user without completed
    documents never sends a request to the chat-completion endpoint. When
    the request is an authenticated POST for that user with a non-empty
    query, the handler first embeds the query and then selects the user's
    documents: when both succeed it stops after the select and answers 200
    with the fixed text and an empty [sourceChunks] list; when the
    embedding call or the select fails it answers 500. *)
Theorem no_documents_short_circuit (env : QueryChat.Env) (req : Http.Request)
        (requestData : JS.json) (uid : string) :
  Http.body req = Http.Parsed requestData ->
  JS.prop "userId" requestData = Some (JS.Str uid) ->
  filter (Store.ownedCompleted uid)
         (Store.documents (Store.db (QueryChat.backend env))) = [] ->
  Spec.chatCalls (fst (QueryChat.handler env req)) = 0%nat
  /\ forall query authHeader user,
      Http.method req = "POST" ->
      JS.prop "query" requestData = Some query ->
      JS.truthy query = true ->
      uid <> "" ->
      Http.authorization req = Some authHeader ->
      authHeader <> "" ->
      Store.configured (QueryChat.backend env) = true ->
      Store.getUser (QueryChat.backend env) (JS.replace "Bearer " "" authHeader)
      = Store.succeed user ->
      Store.user_id user = uid ->
      (forall trE queryEmbedding,
          QueryChat.generateQueryEmbedding env query = (trE, Ret queryEmbedding) ->
          Store.docsError (QueryChat.backend env) = None ->
          QueryChat.handler env req
          = ((EvLog "info" "Processing chat query"
              :: EvGetUser (JS.replace "Bearer " "" authHeader)
              :: trE ++ [EvSelectDocuments uid])%list,
             Ret {| Http.responseBody :=
                      Http.Answer "I couldn't find any relevant information in your documents to answer this question. Please make sure you have uploaded documents and they have been processed." [];
                    Http.responseStatus := 200 |}))
      /\ ((exists m, snd (QueryChat.generateQueryEmbedding env query) = Throw m)
          \/ (exists m, Store.docsError (QueryChat.backend env) = Some m) ->
          snd (QueryChat.handler env req)
          = Ret {| Http.responseBody :=
                     Http.ErrorBody "Failed to process query. Please try again.";
                   Http.responseStatus := 500 |}).
Proof.
  intros B U E. split.
  - unfold QueryChat.handler.
    destruct (negb (String.eqb (Http.method req) "POST")); [reflexivity|].
    rewrite chatCalls_tryCatch, (answerQuery_no_chat env req requestData uid B U E).
    destruct (snd (QueryChat.answerQuery env req)); reflexivity.
  - intros query authHeader user M Q T NE A NA C G I.
    unfold QueryChat.handler, QueryChat.answerQuery.
    assert (JS.truthy (JS.Str uid) = true) as TU.
    { simpl. apply String.eqb_neq in NE. now rewrite NE. }
    apply String.eqb_neq in NA.
    rewrite M, B, U, Q, T, TU, A, NA.
    unfold Store.createSupabaseAdmin. rewrite C.
    change (negb ("POST" =? "POST")%string) with false.
    change (negb true || negb true) with false. cbv iota.
    rewrite bind_logger, bind_unit, bind_emit, G.
    cbn [Store.error Store.data Store.succeed].
    rewrite I, String.eqb_refl. cbn [negb]. split.
    + intros trE queryEmbedding GE DE.
      rewrite GE, bind_ret, (no_documents_found _ queryEmbedding uid E), DE, bind_ret.
      unfold QueryChat.respond, Eff.ret, Eff.after, Eff.tryCatch.
      cbn [fst snd app]. reflexivity.
    + intros F.
      pose proof (query_embedding_ends env query) as Ends.
      destruct (snd (QueryChat.generateQueryEmbedding env query))
        as [queryEmbedding | m |] eqn:GE; [| |contradiction].
      * destruct F as [(m & F) | (m & DE)]; [discriminate F|].
        destruct (QueryChat.generateQueryEmbedding env query) as [trE o].
        simpl in GE. subst o.
        rewrite bind_ret, (no_documents_found _ queryEmbedding uid E), DE.
        reflexivity.
      * rewrite (bind_throws _ _ m GE). reflexivity.
Qed.

Lemma no_documents_short_circuit_witness :
  Spec.chatCalls (fst (QueryChat.handler (Scenario.queryEnv None []) Cases.carolAsks)) = 0%nat
  /\ QueryChat.handler (Scenario.queryEnv None []) Cases.carolAsks
     = ([EvLog "info" "Processing chat query"; EvGetUser "t-carol";
         EvFetchQueryEmbedding (JS.Str "What is a cat?"); EvSelectDocuments "carol"],
        Ret {| Http.responseBody :=
                 Http.Answer "I couldn't find any relevant information in your documents to answer this question. Please make sure you have uploaded documents and they have been processed." [];
               Http.responseStatus := 200 |})
  /\ snd (QueryChat.handler Cases.embeddingsDown Cases.carolAsks)
     = Ret {| Http.responseBody :=
                Http.ErrorBody "Failed to process query. Please try again.";
              Http.responseStatus := 500 |}.
Proof.
  destruct (no_documents_short_circuit (Scenario.queryEnv None []) Cases.carolAsks
              (JS.JObject [("query", JS.Str "What is a cat?"); ("userId", JS.Str "carol")])
              "carol" eq_refl eq_refl eq_refl) as [K1 K2].
  destruct (K2 (JS.Str "What is a cat?") "Bearer t-carol" (Store.mkUser "carol")
               eq_refl eq_refl eq_refl ltac:(discriminate) eq_refl ltac:(discriminate)
               eq_refl eq_refl eq_refl) as [K3 _].
  destruct (no_documents_short_circuit Cases.embeddingsDown Cases.carolAsks
              (JS.JObject [("query", JS.Str "What is a cat?"); ("userId", JS.Str "carol")])
              "carol" eq_refl eq_refl eq_refl) as [_ D2].
  destruct (D2 (JS.Str "What is a cat?") "Bearer t-carol" (Store.mkUser "carol")
               eq_refl eq_refl eq_refl ltac:(discriminate) eq_refl ltac:(discriminate)
               eq_refl eq_refl eq_refl) as [_ D3].
  split; [exact K1|]. split.
  - exact (K3 [EvFetchQueryEmbedding (JS.Str "What is a cat?")] [1%Q] eq_refl eq_refl).
  - apply D3. left. eexists. reflexivity.
Defined.

(** C4 as first stated does not hold: Carol has no completed document, but
    the handler embeds her query before it looks at her documents; while
    the embeddings endpoint answers 503 she gets the 500 of the handler and
    not the fixed answer. *)
Lemma no_documents_short_circuit_counterexample :
  filter (Store.ownedCompleted "carol")
         (Store.documents (Store.db (QueryChat.backend Cases.embeddingsDown))) = []
  /\ QueryChat.handler Cases.embeddingsDown Cases.carolAsks
     = ([EvLog "info" "Processing chat query"; EvGetUser "t-carol";
         EvFetchQueryEmbedding (JS.Str "What is a cat?");
         EvLog "error" "Failed to generate query embedding";
         EvLog "error" "Chat query failed"],
        Ret {| Http.responseBody :=
                 Http.ErrorBody "Failed to process query. Please try again.";
               Http.responseStatus := 500 |})
  /\ snd (QueryChat.handler Cases.embeddingsDown Cases.carolAsks)
     <> Ret {| Http.responseBody :=
                 Http.Answer "I couldn't find any relevant information in your documents to answer this question. Please make sure you have uploaded documents and they have been processed." [];
               Http.responseStatus := 200 |}.
Proof.
  split; [reflexivity|].
  assert (QueryChat.handler Cases.embeddingsDown Cases.carolAsks
          = ([EvLog "info" "Processing chat query"; EvGetUser "t-carol";
              EvFetchQueryEmbedding (JS.Str "What is a cat?");
              EvLog "error" "Failed to generate query embedding";
              EvLog "error" "Chat query failed"],
             Ret {| Http.responseBody :=
                      Http.ErrorBody "Failed to process query. Please try again.";
                    Http.responseStatus := 500 |})) as R
      by (vm_compute; reflexivity).
  split; [exact R|]. rewrite R. discriminate.
Qed.

(** C10 (as amended). A POST whose body parses to a JSON value other than
    [null] and lacks a truthy [query] or a truthy [userId] is answered with
    status 400 and the error 'Missing query or userId', and nothing else
    happens: no authorization check, no embedding call, no retrieval, no
    synthesis, not even a log line. A POST whose body cannot be parsed, or
    is [null], is answered 500 by the handler's [catch], after the one log
    line of that [catch] and likewise before any authorization check or
    call. *)
Theorem missing_fields_rejected (env : QueryChat.Env) (req : Http.Request) :
  Http.method req = "POST" ->
  (forall requestData query userId,
      Http.body req = Http.Parsed requestData ->
      JS.prop "query" requestData = Some query ->
      JS.prop "userId" requestData = Some userId ->
      JS.truthy query = false \/ JS.truthy userId = false ->
      QueryChat.handler env req
      = ([], Ret {| Http.responseBody := Http.ErrorBody "Missing query or userId";
                    Http.responseStatus := 400 |}))
  /\ (forall requestData,
        Http.body req = Http.Parsed requestData ->
        requestData <> JS.JNull ->
        exists query userId,
          JS.prop "query" requestData = Some query
          /\ JS.prop "userId" requestData = Some userId)
  /\ (Http.body req = Http.Parsed JS.JNull \/ (exists m, Http.body req = Http.Malformed m) ->
      QueryChat.handler env req
      = ([EvLog "error" "Chat query failed"],
         Ret {| Http.responseBody :=
                  Http.ErrorBody "Failed to process query. Please try again.";
                Http.responseStatus := 500 |})).
Proof.
  intros M. split; [|split].
  - intros requestData query userId B Q U F.
    unfold QueryChat.handler, QueryChat.answerQuery. rewrite M, B, Q, U.
    assert (negb (JS.truthy query) || negb (JS.truthy userId) = true) as T.
    { destruct F as [-> | ->]; [reflexivity | apply orb_true_r]. }
    rewrite T. reflexivity.
  - intros requestData _ NN. destruct requestData as [|fields|]; [congruence| |];
      simpl; eauto.
  - intros [B | (m & B)]; unfold QueryChat.handler, QueryChat.answerQuery;
      rewrite M, B; reflexivity.
Qed.

Lemma missing_fields_rejected_witness :
  QueryChat.handler (Scenario.queryEnv None [])
    {| Http.method := "POST";
       Http.body := Http.Parsed (JS.JObject [("query", JS.Str "");
                                             ("userId", JS.Str "alice")]);
       Http.authorization := Some "Bearer t-alice" |}
  = ([], Ret {| Http.responseBody := Http.ErrorBody "Missing query or userId";
                Http.responseStatus := 400 |})
  /\ QueryChat.handler (Scenario.queryEnv None [])
       {| Http.method := "POST";
          Http.body := Http.Parsed (JS.JObject [("query", JS.Str "What is a cat?")]);
          Http.authorization := None |}
     = ([], Ret {| Http.responseBody := Http.ErrorBody "Missing query or userId";
                   Http.responseStatus := 400 |})
  /\ QueryChat.handler (Scenario.queryEnv None [])
       {| Http.method := "POST";
          Http.body := Http.Malformed "Unexpected end of JSON input";
          Http.authorization := Some "Bearer t-alice" |}
     = ([EvLog "error" "Chat query failed"],
        Ret {| Http.responseBody :=
                 Http.ErrorBody "Failed to process query. Please try again.";
               Http.responseStatus := 500 |}).
Proof.
  split; [|split].
  - destruct (missing_fields_rejected (Scenario.queryEnv None [])
                {| Http.method := "POST";
                   Http.body := Http.Parsed (JS.JObject [("query", JS.Str "");
                                                         ("userId", JS.Str "alice")]);
                   Http.authorization := Some "Bearer t-alice" |} eq_refl) as (K & _ & _).
    apply (K (JS.JObject [("query", JS.Str ""); ("userId", JS.Str "alice")])
             (JS.Str "") (JS.Str "alice")); try reflexivity.
    left. reflexivity.
  - destruct (missing_fields_rejected (Scenario.queryEnv None [])
                {| Http.method := "POST";
                   Http.body := Http.Parsed (JS.JObject [("query", JS.Str "What is a cat?")]);
                   Http.authorization := None |} eq_refl) as (K & _ & _).
    apply (K (JS.JObject [("query", JS.Str "What is a cat?")])
             (JS.Str "What is a cat?") JS.Undefined); try reflexivity.
    right. reflexivity.
  - destruct (missing_fields_rejected (Scenario.queryEnv None [])
                {| Http.method := "POST";
                   Http.body := Http.Malformed "Unexpected end of JSON input";
                   Http.authorization := Some "Bearer t-alice" |} eq_refl) as (_ & _ & K).
    apply K. right. eexists. reflexivity.
Defined.

(** C10 as first stated does not hold: in a POST whose body is the JSON
    value [null] both fields are missing, yet the answer is the 500 of the
    handler's [catch], not the 400. *)
Lemma missing_fields_rejected_counterexample :
  QueryChat.handler (Scenario.queryEnv None []) Cases.nullBody
  = ([EvLog "error" "Chat query failed"],
     Ret {| Http.responseBody :=
              Http.ErrorBody "Failed to process query. Please try again.";
            Http.responseStatus := 500 |})
  /\ snd (QueryChat.handler (Scenario.queryEnv None []) Cases.nullBody)
     <> Ret {| Http.responseBody := Http.ErrorBody "Missing query or userId";
               Http.responseStatus := 400 |}.
Proof.
  assert (QueryChat.handler (Scenario.queryEnv None []) Cases.nullBody
          = ([EvLog "error" "Chat query failed"],
             Ret {| Http.responseBody :=
                      Http.ErrorBody "Failed to process query. Please try again.";
                    Http.responseStatus := 500 |})) as R
      by (vm_compute; reflexivity).
  split; [exact R|]. rewrite R. discriminate.
Qed.

(* ================================================================== *)
(** ** The embedding client: [generateEmbeddingsForChunks] *)
(* ================================================================== *)

Section BatchFacts.
Import JS Http Store ExtractEmbeddings Spec.

Variable env : Env.
Variable chunks : list string.

(** Inside the loop the batch is the next 10 chunks at most. *)
Lemma slice_batch (i : Z) :
  0 <= i ->
  slice i (i + batchSize) chunks = firstn 10 (skipn (Z.to_nat i) chunks).
Proof.
  intros H. unfold slice, relIndex, batchSize.
  test_fails i 0. test_fails (i + 10) 0.
  destruct (Z_le_gt_dec (i + 10) (Z.of_nat (List.length chunks))) as [L | G].
  - rewrite !Z.min_l by lia. f_equal. lia.
  - rewrite (Z.min_r (i + 10)) by lia.
    destruct (Z_le_gt_dec i (Z.of_nat (List.length chunks))) as [L' | G'].
    + rewrite Z.min_l by lia.
      rewrite !firstn_all2; [reflexivity | |]; rewrite length_skipn; lia.
    + rewrite Z.min_r by lia. rewrite Nat2Z.id.
      rewrite !skipn_all2 by lia. now rewrite !firstn_nil.
Qed.


Lemma limited_not_ok {J} (r : reply J) : status r = 429 -> ok r = false.
Proof. unfold ok. now intros ->. Qed.

(** The loop, one equation per way an iteration can go. *)
Lemma batchLoop_done fuel calls i embeddings :
  Z.of_nat (List.length chunks) <= i ->
  batchLoop env chunks fuel calls i embeddings = ([], Ret embeddings).
Proof.
  intros H. destruct fuel; simpl;
    test_fails i (Z.of_nat (List.length chunks)); reflexivity.
Qed.

Lemma batchLoop_starved calls i embeddings :
  i < Z.of_nat (List.length chunks) ->
  batchLoop env chunks 0 calls i embeddings = ([], Running).
Proof.
  intros H. simpl. test_holds i (Z.of_nat (List.length chunks)). reflexivity.
Qed.

Lemma batchLoop_limited fuel calls i embeddings :
  i < Z.of_nat (List.length chunks) ->
  rateLimited (ExtractEmbeddings.embeddings env calls (slice i (i + batchSize) chunks)) ->
  batchLoop env chunks (S fuel) calls i embeddings
  = Eff.after [EvFetchEmbeddings (slice i (i + batchSize) chunks);
               EvLog "error" "Groq API error"; EvSleep 2000]
              (batchLoop env chunks fuel (S calls) i embeddings).
Proof.
  intros H (r & E & S). cbn [batchLoop].
  test_holds i (Z.of_nat (List.length chunks)).
  cbn [negb]. rewrite bind_emit, E, (limited_not_ok r S), S. cbn [negb].
  change (429 =? 429) with true. cbv iota. eff.
  now rewrite Z.sub_add.
Qed.



(** Every batch sent is one of the slices of 10 the loop steps through. *)
Lemma batches_app (t1 t2 : list event) :
  batches (t1 ++ t2) = (batches t1 ++ batches t2)%list.
Proof. unfold batches. apply flat_map_app. Qed.

Lemma batches_after {A} (tr : list event) (c : Eff A) :
  batches (fst (Eff.after tr c)) = (batches tr ++ batches (fst c))%list.
Proof. rewrite fst_after. apply batches_app. Qed.


End BatchFacts.



(** C6. A 429 answer to a batch neither drops the batch nor raises an error:
    after [k] such answers in a row, for any [k], the loop has sent the same
    batch [k] times, waited 2000 ms after each, and stands at the same index
    with the same embeddings gathered, about to send that batch again. *)
Theorem rate_limited_batch_retried (env : ExtractEmbeddings.Env) (chunks : list string)
        (k fuel calls : nat) (i : Z) (embeddings : list Store.vector) :
  0 <= i < Z.of_nat (List.length chunks) ->
  (forall j, (j < k)%nat ->
             Spec.rateLimited
               (ExtractEmbeddings.embeddings
                  env (calls + j)
                  (JS.slice i (i + ExtractEmbeddings.batchSize) chunks))) ->
  ExtractEmbeddings.batchLoop env chunks (k + fuel) calls i embeddings
  = Eff.after
      (List.concat
         (repeat [EvFetchEmbeddings (JS.slice i (i + ExtractEmbeddings.batchSize) chunks);
                  EvLog "error" "Groq API error"; EvSleep 2000] k))
      (ExtractEmbeddings.batchLoop env chunks fuel (calls + k) i embeddings).
Proof.
  intros Hi. revert calls. induction k as [|k IH]; intros calls R.
  - simpl. now rewrite after_nil, Nat.add_0_r.
  - change (S k + fuel)%nat with (S (k + fuel)).
    rewrite batchLoop_limited.
    + rewrite IH.
      * rewrite after_after. replace (S calls + k)%nat with (calls + S k)%nat by lia.
        reflexivity.
      * intros j Hj. replace (S calls + j)%nat with (calls + S j)%nat by lia.
        apply R. lia.
    + lia.
    + specialize (R 0%nat). rewrite Nat.add_0_r in R. apply R. lia.
Qed.

Lemma rate_limited_batch_retried_witness :
  ExtractEmbeddings.batchLoop (Scenario.ingestEnv 3)
                              ["Cats are mammals"; "Dogs are mammals too"] (3 + 1) 0 0 []
  = Eff.after
      (List.concat
         (repeat [EvFetchEmbeddings
                    (JS.slice 0 (0 + ExtractEmbeddings.batchSize)
                              ["Cats are mammals"; "Dogs are mammals too"]);
                  EvLog "error" "Groq API error"; EvSleep 2000] 3))
      (ExtractEmbeddings.batchLoop (Scenario.ingestEnv 3)
                                   ["Cats are mammals"; "Dogs are mammals too"] 1 (0 + 3) 0 []).
Proof.
  apply (rate_limited_batch_retried (Scenario.ingestEnv 3)
           ["Cats are mammals"; "Dogs are mammals too"] 3 1 0 0 []).
  - simpl. lia.
  - intros j Hj. unfold Scenario.ingestEnv. simpl.
    replace (j <? 3)%nat with true by (symmetry; apply Nat.ltb_lt; lia).
    eexists. split; reflexivity.
Defined.

(* ================================================================== *)
(** ** The ingestion orchestrator *)
(* ================================================================== *)

Section IngestionFacts.
Import JS Http Store ExtractEmbeddings Spec.

Variable env : Env.
Variable fuel : nat.

Lemma snd_bind_ret {A B} (c : Eff A) (a : A) (k : A -> Eff B) :
  snd c = Ret a -> snd (Eff.bind c k) = snd (k a).
Proof. intros H. unfold Eff.bind. now rewrite H. Qed.

Lemma snd_bind_throw {A B} (c : Eff A) (m : string) (k : A -> Eff B) :
  snd c = Throw m -> snd (Eff.bind c k) = Throw m.
Proof. intros H. unfold Eff.bind. now rewrite H. Qed.

Lemma writeStatus_outcome sb documentId status :
  snd (writeStatus sb documentId status)
  = match updateStatus sb documentId status with
    | WriteThrew m => Throw m
    | WriteOk | WriteRefused _ => Ret tt
    end.
Proof. unfold writeStatus. rewrite bind_emit. now destruct (updateStatus _ _ _). Qed.

Lemma writeStatus_trace sb documentId status :
  fst (writeStatus sb documentId status) = [EvUpdateStatus documentId status].
Proof. unfold writeStatus. rewrite bind_emit. now destruct (updateStatus _ _ _). Qed.

Lemma trim_empty_length s :
  (len (trim s) =? 0) = true <-> trim s = "".
Proof.
  rewrite Z.eqb_eq. split.
  - intros H. apply len_zero. exact H.
  - now intros ->.
Qed.

Lemma extension_unsupported fileBuffer f :
  last (split "." (toLowerCase f)) "" <> "txt" ->
  last (split "." (toLowerCase f)) "" <> "pdf" ->
  last (split "." (toLowerCase f)) "" <> "docx" ->
  extractTextFromFile fileBuffer (Str f)
  = ([], Throw ("Unsupported file type: " ++ last (split "." (toLowerCase f)) "")).
Proof.
  intros T P D. unfold extractTextFromFile.
  apply String.eqb_neq in T, P, D. now rewrite T, P, D.
Qed.

(** Each failure makes [processDocument] throw its message, provided the
    first status write did not itself throw. *)
Lemma failure_thrown sb filePath fileName documentId message :
  (forall m, updateStatus sb documentId "processing" <> WriteThrew m) ->
  ingestionFailure env sb filePath fileName fuel message ->
  snd (processDocument env sb filePath fileName documentId fuel) = Throw message.
Proof.
  intros W F. unfold processDocument.
  rewrite (snd_bind_ret _ tt).
  2:{ rewrite writeStatus_outcome.
      destruct (updateStatus sb documentId "processing") as [| |m]; try reflexivity.
      now destruct (W m). }
  rewrite bind_emit, snd_after.
  destruct F as [m E NE | E D | fileBuffer f Dl -> T P D
                 | fileBuffer textContent Dl X B
                 | fileBuffer textContent Dl X NB Z
                 | fileBuffer textContent m Dl X NB NZ G
                 | fileBuffer textContent m embeddings Dl X NB NZ G I].
  - rewrite E. apply String.eqb_neq in NE. now rewrite NE.
  - now rewrite E, D.
  - rewrite Dl. cbn [error data succeed].
    now rewrite (extension_unsupported fileBuffer f T P D).
  - rewrite Dl. cbn [error data succeed].
    rewrite (snd_bind_ret _ textContent) by exact X.
    apply trim_empty_length in B. now rewrite B.
  - rewrite Dl. cbn [error data succeed].
    rewrite (snd_bind_ret _ textContent) by exact X.
    assert ((len (trim textContent) =? 0) = false) as B.
    { apply not_true_is_false. now rewrite trim_empty_length. }
    now rewrite B, Z.
  - rewrite Dl. cbn [error data succeed].
    rewrite (snd_bind_ret _ textContent) by exact X.
    assert ((len (trim textContent) =? 0) = false) as B.
    { apply not_true_is_false. now rewrite trim_empty_length. }
    rewrite B.
    destruct (Chunker.splitTextIntoChunks textContent CHUNK_SIZE CHUNK_OVERLAP)
      as [|c cs] eqn:C; [congruence|].
    rewrite bind_logger, snd_after. now apply snd_bind_throw.
  - rewrite Dl. cbn [error data succeed].
    rewrite (snd_bind_ret _ textContent) by exact X.
    assert ((len (trim textContent) =? 0) = false) as B.
    { apply not_true_is_false. now rewrite trim_empty_length. }
    rewrite B.
    destruct (Chunker.splitTextIntoChunks textContent CHUNK_SIZE CHUNK_OVERLAP)
      as [|c cs] eqn:C; [congruence|].
    rewrite bind_logger, snd_after, (snd_bind_ret _ embeddings) by exact G.
    rewrite bind_emit, snd_after, I. reflexivity.
Qed.

(** The [try] block of an authenticated request is [processDocument]. *)
Lemma tryBlock_authenticated req requestData filePath fileName userId documentId
      authHeader user :
  body req = Parsed requestData ->
  prop "filePath" requestData = Some filePath ->
  prop "fileName" requestData = Some fileName ->
  prop "userId" requestData = Some userId ->
  prop "documentId" requestData = Some documentId ->
  authorization req = Some authHeader ->
  authHeader <> "" ->
  configured (backend env) = true ->
  getUser (backend env) (replace "Bearer " "" authHeader) = succeed user ->
  strictEqStr (user_id user) userId = true ->
  tryBlock env req fuel
  = Eff.after [EvLog "info" "Starting document processing";
               EvGetUser (replace "Bearer " "" authHeader)]
              (processDocument env (backend env) filePath fileName documentId fuel).
Proof.
  intros B P1 P2 P3 P4 A NA C G S. unfold tryBlock.
  apply String.eqb_neq in NA.
  rewrite B, P1, P2, P3, P4, A, NA. unfold createSupabaseAdmin. rewrite C.
  rewrite bind_logger, bind_unit, bind_emit, G. cbn [error data succeed].
  rewrite S. cbn [negb]. now rewrite after_after.
Qed.

(** The [catch] block: the status recovery, then the original message. *)
Lemma catchBlock_reports requestData documentId message :
  prop "documentId" requestData = Some documentId ->
  configured (backend env) = true ->
  catchBlock env requestData message
  = (EvLog "error" "Document processing failed"
     :: statusRecovery (backend env) documentId,
     Ret {| responseBody := Failed message; responseStatus := 500 |}).
Proof.
  intros P C. unfold catchBlock, statusRecovery. rewrite P, bind_logger.
  destruct (truthy documentId).
  - unfold createSupabaseAdmin. rewrite C, bind_unit.
    unfold writeStatus. rewrite bind_emit.
    destruct (updateStatus (backend env) documentId "error"); reflexivity.
  - reflexivity.
Qed.

End IngestionFacts.

(** C7 (as amended). For every failure of ingestion after processing has
    started (download failure, unsupported file type, empty extracted
    content, zero chunks, embedding-service error, chunk-insert failure),
    the handler logs the failure and, when the request carries a
    [documentId], attempts to set the document's status to 'error' (no
    status write is attempted otherwise); it then answers 500 with the
    original error message. A status write that throws is logged, and does
    not replace the original error. *)
Theorem ingestion_failure_reported (env : ExtractEmbeddings.Env) (req : Http.Request)
        (fuel : nat) (requestData : JS.json)
        (filePath fileName userId documentId : JS.value)
        (authHeader : string) (user : Store.User) (message : string) :
  Http.method req = "POST" ->
  Http.body req = Http.Parsed requestData ->
  JS.prop "filePath" requestData = Some filePath ->
  JS.prop "fileName" requestData = Some fileName ->
  JS.prop "userId" requestData = Some userId ->
  JS.prop "documentId" requestData = Some documentId ->
  Http.authorization req = Some authHeader ->
  authHeader <> "" ->
  Store.configured (ExtractEmbeddings.backend env) = true ->
  Store.getUser (ExtractEmbeddings.backend env) (JS.replace "Bearer " "" authHeader)
  = Store.succeed user ->
  JS.strictEqStr (Store.user_id user) userId = true ->
  (forall m, Store.updateStatus (ExtractEmbeddings.backend env) documentId "processing"
             <> Store.WriteThrew m) ->
  Spec.ingestionFailure env (ExtractEmbeddings.backend env) filePath fileName fuel message ->
  exists recovery,
    ExtractEmbeddings.handler env req fuel
    = ((fst (ExtractEmbeddings.tryBlock env req fuel)
        ++ EvLog "error" "Document processing failed" :: recovery)%list,
       Ret {| Http.responseBody := Http.Failed message; Http.responseStatus := 500 |})
    /\ In (EvUpdateStatus documentId "processing")
          (fst (ExtractEmbeddings.tryBlock env req fuel))
    /\ (JS.truthy documentId = true ->
        exists logged,
          recovery = EvUpdateStatus documentId "error" :: logged
          /\ (Store.updateStatus (ExtractEmbeddings.backend env) documentId "error"
              = Store.WriteOk -> logged = [])
          /\ (forall m,
                 Store.updateStatus (ExtractEmbeddings.backend env) documentId "error"
                 = Store.WriteThrew m ->
                 logged = [EvLog "error" "Failed to update document status to error"]))
    /\ (JS.truthy documentId = false -> recovery = []).
Proof.
  intros M B P1 P2 P3 P4 A NA C G S W F.
  pose proof (tryBlock_authenticated env fuel req requestData filePath fileName userId
                documentId authHeader user B P1 P2 P3 P4 A NA C G S) as T.
  pose proof (failure_thrown env fuel _ _ _ documentId _ W F) as X.
  exists (Spec.statusRecovery (ExtractEmbeddings.backend env) documentId).
  split; [|split; [|split]].
  - unfold ExtractEmbeddings.handler. rewrite M.
    change (negb ("POST" =? "POST")%string) with false. cbv iota.
    unfold ExtractEmbeddings.requestDataOf. rewrite B.
    assert (snd (ExtractEmbeddings.tryBlock env req fuel) = Throw message) as X'.
    { now rewrite T, snd_after. }
    rewrite (surjective_pairing (ExtractEmbeddings.tryBlock env req fuel)) at 1.
    rewrite X', tryCatch_throw.
    rewrite (catchBlock_reports env requestData documentId message P4 C).
    reflexivity.
  - rewrite T, fst_after. apply in_or_app. right.
    unfold ExtractEmbeddings.processDocument.
    unfold Eff.bind at 1. rewrite writeStatus_outcome, writeStatus_trace.
    destruct (Store.updateStatus (ExtractEmbeddings.backend env) documentId "processing");
      simpl; auto.
  - intros Y. unfold Spec.statusRecovery. rewrite Y.
    eexists. split; [reflexivity|]. split.
    + now intros ->.
    + intros m E. now rewrite E.
  - intros N. unfold Spec.statusRecovery. now rewrite N.
Qed.

Lemma ingestion_failure_reported_witness :
  exists recovery,
    ExtractEmbeddings.handler (Scenario.ingestEnvWriting (Store.WriteThrew "fetch failed"))
                              Scenario.ingestRequest 5
    = ((fst (ExtractEmbeddings.tryBlock
               (Scenario.ingestEnvWriting (Store.WriteThrew "fetch failed"))
               Scenario.ingestRequest 5)
        ++ EvLog "error" "Document processing failed" :: recovery)%list,
       Ret {| Http.responseBody :=
                Http.Failed ("Failed to download file: " ++ "Object not found");
              Http.responseStatus := 500 |})
    /\ In (EvUpdateStatus (JS.Str "d-draft") "processing")
          (fst (ExtractEmbeddings.tryBlock
                  (Scenario.ingestEnvWriting (Store.WriteThrew "fetch failed"))
                  Scenario.ingestRequest 5))
    /\ (JS.truthy (JS.Str "d-draft") = true ->
        exists logged,
          recovery = EvUpdateStatus (JS.Str "d-draft") "error" :: logged
          /\ (Store.updateStatus
                (ExtractEmbeddings.backend
                   (Scenario.ingestEnvWriting (Store.WriteThrew "fetch failed")))
                (JS.Str "d-draft") "error"
              = Store.WriteOk -> logged = [])
          /\ (forall m,
                 Store.updateStatus
                   (ExtractEmbeddings.backend
                      (Scenario.ingestEnvWriting (Store.WriteThrew "fetch failed")))
                   (JS.Str "d-draft") "error"
                 = Store.WriteThrew m ->
                 logged = [EvLog "error" "Failed to update document status to error"]))
    /\ (JS.truthy (JS.Str "d-draft") = false -> recovery = []).
Proof.
  apply (ingestion_failure_reported
           (Scenario.ingestEnvWriting (Store.WriteThrew "fetch failed"))
           Scenario.ingestRequest 5
           (JS.JObject [("filePath", JS.Str "alice/draft.txt");
                        ("fileName", JS.Str "draft.txt");
                        ("userId", JS.Str "alice");
                        ("documentId", JS.Str "d-draft")])
           (JS.Str "alice/draft.txt") (JS.Str "draft.txt") (JS.Str "alice") (JS.Str "d-draft")
           "Bearer t-alice" (Store.mkUser "alice"));
    try reflexivity; try discriminate.
  apply Spec.DownloadFailed; [reflexivity | discriminate].
Defined.

(** C7 as first stated does not hold. In the first run the request carries
    no [documentId]: processing starts, the download fails, and no write of
    the status 'error' is attempted. In the second run the download fails
    and the write of the status 'error' fails too, resolving with an error
    as supabase-js calls do: the handler discards that answer and no log
    line mentions the failed status write. *)
Lemma ingestion_failure_reported_counterexample :
  (In (EvUpdateStatus JS.Undefined "processing")
      (fst (ExtractEmbeddings.handler (Scenario.ingestEnvWriting Store.WriteOk)
                                      Scenario.ingestRequestNoId 5))
   /\ snd (ExtractEmbeddings.handler (Scenario.ingestEnvWriting Store.WriteOk)
                                     Scenario.ingestRequestNoId 5)
      = Ret {| Http.responseBody := Http.Failed "Failed to download file: Object not found";
               Http.responseStatus := 500 |}
   /\ forall documentId,
        ~ In (EvUpdateStatus documentId "error")
             (fst (ExtractEmbeddings.handler (Scenario.ingestEnvWriting Store.WriteOk)
                                             Scenario.ingestRequestNoId 5)))
  /\ (Store.updateStatus
        (ExtractEmbeddings.backend
           (Scenario.ingestEnvWriting (Store.WriteRefused "statement timeout")))
        (JS.Str "d-draft") "error"
      = Store.WriteRefused "statement timeout"
      /\ ExtractEmbeddings.handler
           (Scenario.ingestEnvWriting (Store.WriteRefused "statement timeout"))
           Scenario.ingestRequest 5
         = ([EvLog "info" "Starting document processing"; EvGetUser "t-alice";
             EvUpdateStatus (JS.Str "d-draft") "processing";
             EvDownload (JS.Str "alice/draft.txt");
             EvLog "error" "Document processing failed";
             EvUpdateStatus (JS.Str "d-draft") "error"],
            Ret {| Http.responseBody :=
                     Http.Failed "Failed to download file: Object not found";
                   Http.responseStatus := 500 |})).
Proof.
  split.
  - split; [vm_compute; tauto|]. split; [vm_compute; reflexivity|].
    intros documentId. vm_compute. intros H.
    repeat (destruct H as [H | H]; [discriminate H|]). exact H.
  - split; [reflexivity | vm_compute; reflexivity].
Qed.

(* ================================================================== *)
(** ** Further properties of the chunker *)
(* ================================================================== *)

Section ChunkerCoverage.
Import JS Chunker Spec Props.

Variables chunkSize overlap : Z.

Lemma append_assoc (a b c : string) : (a ++ b) ++ c = a ++ b ++ c.
Proof. induction a as [|x a IH]; simpl; [reflexivity | now rewrite IH]. Qed.

Lemma append_empty_r (a : string) : a ++ "" = a.
Proof. induction a as [|x a IH]; simpl; [reflexivity | now rewrite IH]. Qed.

Lemma blank_trimEnd (q : string) : blank q = true -> trimEnd q = "".
Proof.
  induction q as [|c q IH]; simpl; [reflexivity|].
  intros H. apply andb_true_iff in H as [Hc Hq]. now rewrite (IH Hq), Hc.
Qed.

Lemma trimEnd_app_blank (a q : string) :
  blank q = true -> trimEnd (a ++ q) = trimEnd a.
Proof.
  intros H. induction a as [|c a IH]; simpl.
  - now apply blank_trimEnd.
  - now rewrite IH.
Qed.

Lemma trimEnd_app (a b : string) :
  trimEnd b <> "" -> trimEnd (a ++ b) = a ++ trimEnd b.
Proof.
  intros H. induction a as [|c a IH]; simpl; [reflexivity|].
  rewrite IH. destruct a; simpl; [|reflexivity].
  destruct (trimEnd b); [congruence | reflexivity].
Qed.

Lemma occursIn_empty (s : string) : occursIn "" s.
Proof. now exists "", s. Qed.

Lemma occursIn_len (t s : string) : occursIn t s -> len t <= len s.
Proof.
  intros (p & q & ->). rewrite !len_append.
  pose proof (len_nonneg p). pose proof (len_nonneg q). lia.
Qed.

(** Text in front of a run that begins with a kept code unit: trimming
    at the start removes none of the run. *)
Lemma trimStart_keeps (p t rest : string) :
  t <> "" -> headKept t ->
  exists p', trimStart (p ++ t ++ rest) = p' ++ t ++ rest.
Proof.
  intros NE H. induction p as [|c p IH].
  - exists "". destruct t as [|x t]; [congruence|].
    simpl in *. now rewrite H.
  - simpl. destruct (isWhiteSpace c).
    + exact IH.
    + now exists (String c p).
Qed.

Lemma trimEnd_keeps (t q : string) :
  t <> "" -> trimEnd t = t -> exists q', trimEnd (t ++ q) = t ++ q'.
Proof.
  intros NE H. destruct (trimEnd q) as [|c r] eqn:E.
  - exists "". rewrite trimEnd_app_blank by now apply trimEnd_empty.
    now rewrite H, append_empty_r.
  - exists (String c r). rewrite trimEnd_app by (rewrite E; discriminate).
    now rewrite E.
Qed.

(** Trimming a string keeps every trimmed text that occurs in it. *)
Lemma occursIn_trim (s b : string) :
  occursIn (trim s) b -> occursIn (trim s) (trim b).
Proof.
  destruct (string_dec (trim s) "") as [E | NE].
  { rewrite E. intros _. apply occursIn_empty. }
  intros (p & q & ->).
  assert (headKept (trim s)) as HK
      by (apply trimEnd_headKept, trimStart_headKept).
  assert (trimEnd (trim s) = trim s) as TE by apply trimEnd_idempotent.
  change (trim (p ++ trim s ++ q)) with (trimEnd (trimStart (p ++ trim s ++ q))).
  destruct (trimStart_keeps p (trim s) q NE HK) as (p' & ->).
  destruct (trimEnd_keeps (trim s) q NE TE) as (q' & Hq).
  exists p', q'. rewrite trimEnd_app.
  - now rewrite Hq.
  - rewrite Hq. destruct (trim s); [congruence | discriminate].
Qed.

Lemma occursIn_extend (t buffer more : string) :
  occursIn t buffer -> occursIn t (buffer ++ more).
Proof.
  intros (p & q & ->). exists p, (q ++ more). now rewrite !append_assoc.
Qed.

Lemma occursIn_last (t front : string) : occursIn t (front ++ " " ++ t).
Proof.
  exists (front ++ " "), "". now rewrite append_empty_r, append_assoc.
Qed.

Lemma step_covers (done : list string) st sentence :
  (forall s, In s done -> covered st s) ->
  forall s, In s (done ++ [sentence]) ->
            covered (step chunkSize overlap st sentence) s.
Proof.
  intros Hd s Hs.
  destruct (string_dec (trim sentence) "") as [E | NE].
  { rewrite step_skip by exact E.
    apply in_app_or in Hs as [Hs | [<- | []]]; [now apply Hd|].
    right. rewrite E. apply occursIn_empty. }
  destruct (string_dec (currentChunk st) "") as [E0 | NE0];
    [|destruct (Z_le_gt_dec (len (currentChunk st) + len (trim sentence)) chunkSize)
       as [Hle | Hgt]].
  - rewrite step_append by auto.
    apply in_app_or in Hs as [Hs | [<- | []]].
    + destruct (Hd s Hs) as [C | C]; [now left|].
      right. simpl. now apply occursIn_extend.
    + right. apply occursIn_last.
  - rewrite step_append by auto.
    apply in_app_or in Hs as [Hs | [<- | []]].
    + destruct (Hd s Hs) as [C | C]; [now left|].
      right. simpl. now apply occursIn_extend.
    + right. apply occursIn_last.
  - assert (0 < len (currentChunk st)) as Hpos.
    { pose proof (len_nonneg (currentChunk st)).
      destruct (Z.eq_dec (len (currentChunk st)) 0) as [Z0|]; [|lia].
      now apply len_zero in Z0. }
    rewrite step_close by (auto; lia).
    apply in_app_or in Hs as [Hs | [<- | []]].
    + left. simpl. destruct (Hd s Hs) as [(c & Hc & O) | O].
      * exists c. split; [apply in_or_app; now left | exact O].
      * exists (trim (currentChunk st)).
        split; [apply in_or_app; right; now left | now apply occursIn_trim].
    + right. apply occursIn_last.
Qed.

Lemma fold_covers l :
  forall (done : list string) st,
    (forall s, In s done -> covered st s) ->
    forall s, In s (done ++ l) ->
              covered (fold_left (step chunkSize overlap) l st) s.
Proof.
  induction l as [|x l IH]; intros done st Hd s Hs.
  - rewrite app_nil_r in Hs. now apply Hd.
  - simpl. apply (IH (done ++ [x])%list).
    + now apply step_covers.
    + now rewrite <- app_assoc.
Qed.

Lemma rawChunks_cover text s :
  In s (sentencesOf text) ->
  exists c, In c (rawChunks text chunkSize overlap) /\ occursIn (trim s) c.
Proof.
  intros Hs.
  assert (trim s <> "") as NE.
  { pose proof (sentence_nonempty text s Hs) as L. intros E. rewrite E in L.
    unfold len in L. simpl in L. lia. }
  pose proof (fold_covers (sentencesOf text) [] {| chunks := []; currentChunk := "" |}
                (fun s H => match H with end) s Hs) as C.
  fold (loop text chunkSize overlap) in C. unfold rawChunks.
  destruct C as [(c & Hc & O) | O].
  - exists c. split; [|exact O].
    destruct (len (trim (currentChunk (loop text chunkSize overlap))) >? 0);
      [apply in_or_app; now left | exact Hc].
  - apply occursIn_trim in O.
    destruct (len (trim (currentChunk (loop text chunkSize overlap))) >? 0) eqn:E.
    + exists (trim (currentChunk (loop text chunkSize overlap))).
      split; [apply in_or_app; right; now left | exact O].
    + exfalso. apply occursIn_len in O.
      assert (len (trim (currentChunk (loop text chunkSize overlap))) <= 0) as L0.
      { destruct (Z_le_gt_dec (len (trim (currentChunk (loop text chunkSize overlap)))) 0)
          as [L | G]; [exact L|].
        apply Z.gt_lt, Z.gtb_lt in G. congruence. }
      pose proof (sentence_nonempty text s Hs). lia.
Qed.

End ChunkerCoverage.

(** X1. No sentence is lost by the loop: the trimmed text of every sentence
    occurs in a chunk pushed by the loop, and a sentence of more than 10
    code units occurs in a chunk that survives the final filter. *)
Theorem sentence_coverage (text : string) (chunkSize overlap : Z) (s : string) :
  In s (Chunker.sentencesOf text) ->
  (exists c, In c (Chunker.rawChunks text chunkSize overlap)
             /\ Props.occursIn (JS.trim s) c)
  /\ (10 < JS.len (JS.trim s) ->
      exists c, In c (Chunker.splitTextIntoChunks text chunkSize overlap)
                /\ Props.occursIn (JS.trim s) c).
Proof.
  intros Hs. destruct (rawChunks_cover chunkSize overlap text s Hs) as (c & Hc & O).
  split; [now exists c|].
  intros L. exists c. split; [|exact O].
  unfold Chunker.splitTextIntoChunks. apply filter_In. split; [exact Hc|].
  apply Z.gtb_lt. pose proof (occursIn_len _ _ O). lia.
Qed.

Lemma sentence_coverage_witness :
  (exists c, In c (Chunker.rawChunks "Hi. Dogs are mammals too." 10 50)
             /\ Props.occursIn (JS.trim " Dogs are mammals too") c)
  /\ (10 < JS.len (JS.trim " Dogs are mammals too") ->
      exists c, In c (Chunker.splitTextIntoChunks "Hi. Dogs are mammals too." 10 50)
                /\ Props.occursIn (JS.trim " Dogs are mammals too") c).
Proof.
  apply (sentence_coverage "Hi. Dogs are mammals too." 10 50 " Dogs are mammals too").
  vm_compute. tauto.
Defined.

Section ChunkerShape.
Import JS Chunker Spec Props.

Variables chunkSize overlap : Z.

Lemma noTerminator_app (a b : string) :
  noTerminator (a ++ b) = noTerminator a && noTerminator b.
Proof.
  induction a as [|c a IH]; simpl; [reflexivity|].
  now rewrite IH, andb_assoc.
Qed.

Lemma noTerminator_trimStart (s : string) :
  noTerminator s = true -> noTerminator (trimStart s) = true.
Proof.
  induction s as [|c s IH]; simpl; [trivial|].
  intros H. destruct (isWhiteSpace c); [|exact H].
  apply andb_true_iff in H as [_ H]. now apply IH.
Qed.

Lemma noTerminator_trimEnd (s : string) :
  noTerminator s = true -> noTerminator (trimEnd s) = true.
Proof.
  induction s as [|c s IH]; simpl; [trivial|].
  intros H. apply andb_true_iff in H as [Hc Hs]. specialize (IH Hs).
  destruct (trimEnd s); [destruct (isWhiteSpace c)|]; simpl in *;
    rewrite ?Hc, ?IH; reflexivity.
Qed.

Lemma noTerminator_trim (s : string) :
  noTerminator s = true -> noTerminator (trim s) = true.
Proof. intros H. now apply noTerminator_trimEnd, noTerminator_trimStart. Qed.

Lemma noTerminator_consHead (c : ascii) (pieces : list string) :
  isTerminator c = false ->
  Forall (fun w => noTerminator w = true) pieces ->
  Forall (fun w => noTerminator w = true) (consHead c pieces).
Proof.
  intros Hc H. destruct H as [|w ws Hw Hws]; simpl.
  - constructor; [simpl; now rewrite Hc | constructor].
  - constructor; [simpl; now rewrite Hc, Hw | exact Hws].
Qed.

(** The pieces between runs of terminators hold none. *)
Lemma splitRuns_noTerminator (s : string) :
  forall inRun, Forall (fun w => noTerminator w = true) (splitRuns inRun s).
Proof.
  induction s as [|c s IH]; intros inRun; simpl.
  - constructor; [reflexivity | constructor].
  - destruct (isTerminator c) eqn:T.
    + destruct inRun; [apply IH | constructor; [reflexivity | apply IH]].
    + apply noTerminator_consHead; [exact T | apply IH].
Qed.

Lemma split_noTerminator (sep : ascii) (s : string) :
  noTerminator s = true ->
  Forall (fun w => noTerminator w = true) (split sep s).
Proof.
  induction s as [|c s IH]; simpl.
  - intros _. constructor; [reflexivity | constructor].
  - intros H. apply andb_true_iff in H as [Hc Hs].
    apply negb_true_iff in Hc. specialize (IH Hs).
    destruct (Ascii.eqb c sep).
    + constructor; [reflexivity | exact IH].
    + now apply noTerminator_consHead.
Qed.

Lemma concat_noTerminator (sep : string) (l : list string) :
  noTerminator sep = true ->
  Forall (fun w => noTerminator w = true) l ->
  noTerminator (String.concat sep l) = true.
Proof.
  intros Hsep H. induction H as [|w ws Hw Hws IH]; [reflexivity|].
  destruct ws as [|w' ws]; [exact Hw|].
  rewrite (concat_cons sep w (w' :: ws)) by easy.
  now rewrite !noTerminator_app, Hw, Hsep, IH.
Qed.

Lemma Forall_skipn {A} (P : A -> Prop) (n : nat) (l : list A) :
  Forall P l -> Forall P (skipn n l).
Proof.
  revert l. induction n as [|n IH]; intros l H; [exact H|].
  destruct H; simpl; [constructor | now apply IH].
Qed.

Lemma overlapText_noTerminator (buffer : string) :
  noTerminator buffer = true -> noTerminator (overlapText overlap buffer) = true.
Proof.
  intros H. unfold overlapText, join, sliceFrom.
  apply concat_noTerminator; [reflexivity|].
  now apply Forall_skipn, split_noTerminator.
Qed.

Lemma step_noTerminator st sentence :
  noTerminator sentence = true ->
  noTerminator (currentChunk st) = true
  /\ Forall (fun c => noTerminator c = true) (chunks st) ->
  noTerminator (currentChunk (step chunkSize overlap st sentence)) = true
  /\ Forall (fun c => noTerminator c = true) (chunks (step chunkSize overlap st sentence)).
Proof.
  intros Hs [Hcur Hcs]. pose proof (noTerminator_trim _ Hs) as Ht.
  unfold step. destruct (String.eqb (trim sentence) ""); [now split|].
  destruct (_ && _); cbn [currentChunk chunks]; split.
  - rewrite !noTerminator_app, Ht, overlapText_noTerminator by exact Hcur.
    reflexivity.
  - apply Forall_app. split; [exact Hcs|].
    constructor; [now apply noTerminator_trim | constructor].
  - rewrite !noTerminator_app, Hcur, Ht. reflexivity.
  - exact Hcs.
Qed.

Lemma fold_noTerminator l :
  forall st,
    Forall (fun s => noTerminator s = true) l ->
    noTerminator (currentChunk st) = true
    /\ Forall (fun c => noTerminator c = true) (chunks st) ->
    noTerminator (currentChunk (fold_left (step chunkSize overlap) l st)) = true
    /\ Forall (fun c => noTerminator c = true)
              (chunks (fold_left (step chunkSize overlap) l st)).
Proof.
  induction l as [|x l IH]; intros st Hl H; [exact H|].
  inversion Hl as [|? ? Hx Hl']; subst. simpl.
  apply IH; [exact Hl'|]. now apply step_noTerminator.
Qed.

Lemma Forall_filter {A} (P : A -> Prop) (f : A -> bool) (l : list A) :
  Forall P l -> Forall P (filter f l).
Proof.
  intros H. apply Forall_forall. intros x Hx. apply filter_In in Hx as [Hx _].
  revert x Hx. now apply Forall_forall.
Qed.

Lemma rawChunks_noTerminator text :
  Forall (fun c => noTerminator c = true) (rawChunks text chunkSize overlap).
Proof.
  assert (Forall (fun s => noTerminator s = true) (sentencesOf text)) as Hs.
  { unfold sentencesOf, splitSentences. apply Forall_filter, splitRuns_noTerminator. }
  destruct (fold_noTerminator (sentencesOf text) {| chunks := []; currentChunk := "" |} Hs)
    as [Hcur Hcs]; [split; [reflexivity | constructor]|].
  fold (loop text chunkSize overlap) in Hcur, Hcs. unfold rawChunks.
  destruct (_ >? _); [|exact Hcs].
  apply Forall_app. split; [exact Hcs|].
  constructor; [now apply noTerminator_trim | constructor].
Qed.

(** Pushed chunks against processed sentences. *)
Lemma step_count st sentence (n : nat) :
  (List.length (chunks st) + pending (currentChunk st) <= n)%nat ->
  (List.length (chunks (step chunkSize overlap st sentence))
   + pending (currentChunk (step chunkSize overlap st sentence)) <= S n)%nat.
Proof.
  intros H. unfold step. destruct (String.eqb (trim sentence) ""); [lia|].
  destruct (len (currentChunk st) + len (trim sentence) >? chunkSize); simpl.
  - destruct (currentChunk st) as [|c r] eqn:E.
    + change (len "" >? 0) with false. simpl. lia.
    + replace (len (String c r) >? 0) with true
        by (symmetry; apply Z.gtb_lt; unfold len; simpl; lia).
      simpl. rewrite length_app. simpl in *.
      destruct (overlapText overlap (String c r) ++ String " " (trim sentence));
        simpl; lia.
  - destruct (currentChunk st ++ String " " (trim sentence)); simpl; lia.
Qed.

Lemma fold_count l :
  forall st (n : nat),
    (List.length (chunks st) + pending (currentChunk st) <= n)%nat ->
    (List.length (chunks (fold_left (step chunkSize overlap) l st))
     + pending (currentChunk (fold_left (step chunkSize overlap) l st))
     <= n + List.length l)%nat.
Proof.
  induction l as [|x l IH]; intros st n H; simpl; [lia|].
  specialize (IH (step chunkSize overlap st x) (S n) (step_count st x n H)). lia.
Qed.

Lemma rawChunks_count text :
  (List.length (rawChunks text chunkSize overlap)
   <= List.length (sentencesOf text))%nat.
Proof.
  pose proof (fold_count (sentencesOf text) {| chunks := []; currentChunk := "" |} 0%nat)
    as H.
  fold (loop text chunkSize overlap) in H. simpl in H.
  specialize (H (Nat.le_refl 0)). unfold rawChunks.
  destruct (currentChunk (loop text chunkSize overlap)) as [|c r] eqn:E.
  - change (len (trim "") >? 0) with false. cbv iota. simpl in H. lia.
  - destruct (_ >? _); [rewrite length_app|]; simpl in *; lia.
Qed.

End ChunkerShape.

(** X2. No chunk returned by [splitTextIntoChunks] holds a [.], [!] or [?]:
    the sentence terminators of the text are not kept. *)
Theorem chunks_without_terminators (text : string) (chunkSize overlap : Z) (chunk : string) :
  In chunk (Chunker.splitTextIntoChunks text chunkSize overlap) ->
  Props.noTerminator chunk = true.
Proof.
  intros H. unfold Chunker.splitTextIntoChunks in H. apply filter_In in H as [H _].
  pose proof (rawChunks_noTerminator chunkSize overlap text) as F.
  rewrite Forall_forall in F. now apply F.
Qed.

Lemma chunks_without_terminators_witness :
  Props.noTerminator "Hi Dogs are mammals too" = true.
Proof.
  apply (chunks_without_terminators "Hi! Dogs are mammals too?!" 10 50).
  vm_compute. tauto.
Defined.

(** X3. There are never more chunks than sentences, and a text with at least
    one sentence has at least one chunk before the final filter. *)
Theorem chunk_count_bounded (text : string) (chunkSize overlap : Z) :
  (List.length (Chunker.splitTextIntoChunks text chunkSize overlap)
   <= List.length (Chunker.rawChunks text chunkSize overlap)
   <= List.length (Chunker.sentencesOf text))%nat
  /\ (Chunker.sentencesOf text <> [] -> Chunker.rawChunks text chunkSize overlap <> []).
Proof.
  split; [split|].
  - unfold Chunker.splitTextIntoChunks. apply filter_length_le.
  - apply rawChunks_count.
  - intros NE. destruct (Chunker.sentencesOf text) as [|s l] eqn:E; [congruence|].
    assert (In s (Chunker.sentencesOf text)) as Hs by (rewrite E; now left).
    destruct (rawChunks_cover chunkSize overlap text s Hs) as (c & Hc & _).
    intros R. rewrite R in Hc. destruct Hc.
Qed.

Lemma chunk_count_bounded_witness :
  Chunker.rawChunks "Hi. Dogs are mammals too." 10 50 <> [].
Proof.
  destruct (chunk_count_bounded "Hi. Dogs are mammals too." 10 50) as [_ K].
  apply K. vm_compute. discriminate.
Defined.

(** X4. What is carried into the next buffer. With [overlap] at least 5 it
    is the last floor(overlap/5) space-separated words of the closed buffer
    (all of them when there are fewer). With [overlap] from 0 to 4 the
    count is 0, [slice(-0)] is [slice(0)], and the whole closed buffer is
    carried. *)
Theorem overlap_carry (overlap : Z) (buffer : string) :
  (5 <= overlap ->
   exists dropped kept,
     JS.split " " buffer = (dropped ++ kept)%list
     /\ Chunker.overlapText overlap buffer = JS.join " " kept
     /\ List.length kept
        = Nat.min (Z.to_nat (overlap / 5)) (List.length (JS.split " " buffer)))
  /\ (0 <= overlap < 5 -> Chunker.overlapText overlap buffer = buffer).
Proof.
  split.
  - intros H. unfold Chunker.overlapText, JS.sliceFrom.
    set (words := JS.split " " buffer).
    exists (firstn (JS.relIndex (List.length words) (- (overlap / 5))) words),
           (skipn (JS.relIndex (List.length words) (- (overlap / 5))) words).
    split; [now rewrite firstn_skipn|]. split; [reflexivity|].
    rewrite length_skipn. unfold JS.relIndex.
    assert (1 <= overlap / 5) as K by (apply Z.div_le_lower_bound; lia).
    replace (- (overlap / 5) <? 0) with true by (symmetry; apply Z.ltb_lt; lia).
    lia.
  - intros H. unfold Chunker.overlapText, JS.sliceFrom, JS.relIndex.
    rewrite (Z.div_small overlap 5) by lia. simpl Z.opp.
    change (0 <? 0) with false. cbv iota.
    rewrite Z.min_l by lia. simpl skipn. apply join_split.
Qed.

Lemma overlap_carry_witness :
  (exists dropped kept,
      JS.split " " " Cats are mammals" = (dropped ++ kept)%list
      /\ Chunker.overlapText 5 " Cats are mammals" = JS.join " " kept
      /\ List.length kept
         = Nat.min (Z.to_nat (5 / 5)) (List.length (JS.split " " " Cats are mammals")))
  /\ Chunker.overlapText 0 " Cats are mammals" = " Cats are mammals".
Proof.
  split.
  - destruct (overlap_carry 5 " Cats are mammals") as [K _]. apply K. lia.
  - destruct (overlap_carry 0 " Cats are mammals") as [_ K]. apply K. lia.
Defined.

(* ================================================================== *)
(** ** Further properties of retrieval *)
(* ================================================================== *)

Section Float8Facts.

Lemma leb_refl (a : Float8.t) : Float8.leb a a = true.
Proof. destruct a; simpl; try reflexivity. apply Qle_bool_iff, Qle_refl. Qed.

Lemma leb_total (a b : Float8.t) : Float8.leb a b = true \/ Float8.leb b a = true.
Proof.
  destruct a as [|x| |], b as [|y| |]; simpl; auto.
  destruct (Qlt_le_dec y x) as [L | L].
  - right. apply Qle_bool_iff, Qlt_le_weak, L.
  - left. now apply Qle_bool_iff.
Qed.

Lemma leb_trans (a b c : Float8.t) :
  Float8.leb a b = true -> Float8.leb b c = true -> Float8.leb a c = true.
Proof.
  destruct a as [|x| |], b as [|y| |], c as [|z| |]; simpl; try congruence.
  rewrite !Qle_bool_iff. apply Qle_trans.
Qed.

Lemma gtb_leb (a b : Float8.t) : Float8.gtb a b = true -> Float8.leb b a = true.
Proof.
  unfold Float8.gtb. intros H. apply negb_true_iff in H.
  destruct (leb_total a b) as [L | L]; [congruence | exact L].
Qed.

Lemma not_gtb_leb (a b : Float8.t) : Float8.gtb a b = false -> Float8.leb a b = true.
Proof. unfold Float8.gtb. intros H. now apply negb_false_iff in H. Qed.

(** Between finite values [gtb] is the strict order of the rationals. *)
Lemma gtb_finite (x y : Q) :
  Float8.gtb (Float8.Finite x) (Float8.Finite y) = true <-> (y < x)%Q.
Proof.
  unfold Float8.gtb. simpl. rewrite negb_true_iff. split.
  - intros H. apply Qnot_le_lt. intros L. apply Qle_bool_iff in L. congruence.
  - intros H. apply not_true_is_false. intros L. apply Qle_bool_iff in L. lra.
Qed.

(** Ascending distances are descending similarities, NaN last. *)
Lemma ascending_ranked (d1 d2 : Float8.t) (c1 c2 : Store.document_chunk) :
  Float8.leb d1 d2 = true -> Props.ranked (Props.rowOf d1 c1) (Props.rowOf d2 c2).
Proof.
  unfold Props.ranked. destruct d1 as [|x| |], d2 as [|y| |]; simpl;
    try congruence; try tauto.
  rewrite !Qle_bool_iff. intros H. lra.
Qed.

End Float8Facts.

Section RankingFacts.
Import JS Http Store QueryChat Spec Props.

Context {A : Type}.
Variable key : A -> Float8.t.

Lemma In_insertBy (x y : A) (l : list A) :
  y = x \/ In y l -> In y (insertBy key x l).
Proof.
  induction l as [|z l IH]; simpl.
  - intros [-> | []]. now left.
  - destruct (Float8.gtb (key x) (key z)); simpl.
    + intros [-> | [-> | H]]; auto.
    + intros [-> | [-> | H]]; auto.
Qed.

Lemma In_sortBy (y : A) (l : list A) : In y l -> In y (sortBy key l).
Proof.
  induction l as [|x l IH]; simpl; [trivial|].
  intros [-> | H]; apply In_insertBy; auto.
Qed.

Lemma insertBy_sorted (x : A) (l : list A) :
  StronglySorted (ascending key) l ->
  StronglySorted (ascending key) (insertBy key x l).
Proof.
  induction 1 as [|y l Hl IH Hy]; simpl.
  - repeat constructor.
  - destruct (Float8.gtb (key x) (key y)) eqn:E.
    + constructor; [exact IH|].
      apply Forall_forall. intros z Hz.
      apply insertBy_In in Hz as [-> | Hz].
      * now apply gtb_leb.
      * rewrite Forall_forall in Hy. now apply Hy.
    + apply not_gtb_leb in E.
      constructor; [now constructor|].
      constructor; [exact E|].
      apply Forall_forall. intros z Hz. rewrite Forall_forall in Hy.
      specialize (Hy z Hz). unfold ascending in *.
      now apply leb_trans with (key y).
Qed.

Lemma sortBy_sorted (l : list A) : StronglySorted (ascending key) (sortBy key l).
Proof.
  induction l as [|x l IH]; simpl; [constructor | now apply insertBy_sorted].
Qed.

Lemma sortBy_length (l : list A) : List.length (sortBy key l) = List.length l.
Proof.
  assert (forall x m, List.length (insertBy key x m) = S (List.length m)) as H.
  { intros x m. induction m as [|y m IH]; simpl; [reflexivity|].
    destruct (Float8.gtb (key x) (key y)); simpl; now rewrite ?IH. }
  induction l as [|x l IH]; simpl; [reflexivity|]. now rewrite H, IH.
Qed.

End RankingFacts.

Section SortedFacts.
Context {A : Type}.
Variable R : A -> A -> Prop.

Lemma sorted_firstn (n : nat) (l : list A) :
  StronglySorted R l -> StronglySorted R (firstn n l).
Proof.
  revert l. induction n as [|n IH]; intros l H; [constructor|].
  destruct H as [|x l Hl Hx]; simpl; [constructor|].
  constructor; [now apply IH|].
  apply Forall_forall. intros y Hy. apply firstn_In in Hy.
  rewrite Forall_forall in Hx. now apply Hx.
Qed.

Lemma sorted_across (l1 l2 : list A) :
  StronglySorted R (l1 ++ l2) ->
  forall x y, In x l1 -> In y l2 -> R x y.
Proof.
  induction l1 as [|z l1 IH]; simpl; intros H x y Hx Hy; [destruct Hx|].
  inversion H as [|? ? Hl Hz]; subst.
  destruct Hx as [-> | Hx].
  - rewrite Forall_forall in Hz. apply Hz, in_or_app. now right.
  - now apply IH.
Qed.

Lemma sorted_map {B} (S : B -> B -> Prop) (f : A -> B) (l : list A) :
  (forall a b, R a b -> S (f a) (f b)) ->
  StronglySorted R l -> StronglySorted S (map f l).
Proof.
  intros H. induction 1 as [|x l Hl IH Hx]; simpl; constructor; [exact IH|].
  apply Forall_forall. intros y Hy. apply in_map_iff in Hy as (z & <- & Hz).
  rewrite Forall_forall in Hx. now apply H, Hx.
Qed.

End SortedFacts.

Section MatchFacts.
Import JS Http Store QueryChat Spec Props.

Variable distance : vector -> vector -> Float8.t.
Variable database : Store.database.
Variable query_embedding : vector.
Variable match_threshold : Float8.t.
Variable match_count : Z.

Lemma match_documents_unfold :
  match_documents distance database query_embedding match_threshold match_count
  = map (fun dc => rowOf (fst dc) (snd dc))
        (firstn (Z.to_nat match_count)
                (sortBy fst (kept distance database query_embedding match_threshold))).
Proof. reflexivity. Qed.

Lemma kept_spec d c :
  In (d, c) (kept distance database query_embedding match_threshold) <->
  In c (document_chunks database)
  /\ (exists e, chunk_embedding c = Some e /\ d = distance e query_embedding)
  /\ Float8.gtb (Float8.oneMinus d) match_threshold = true.
Proof.
  unfold kept, scored. rewrite filter_In, in_flat_map. simpl. split.
  - intros [(c' & Hc' & H) T].
    destruct (chunk_embedding c') as [e|] eqn:E; [|destruct H].
    destruct H as [[= <- <-] | []].
    split; [exact Hc'|]. split; [now exists e | exact T].
  - intros (Hc & (e & E & ->) & T). split; [|exact T].
    exists c. split; [exact Hc|]. rewrite E. now left.
Qed.

Lemma match_row r :
  In r (match_documents distance database query_embedding match_threshold match_count) ->
  exists d c,
    In (d, c) (kept distance database query_embedding match_threshold)
    /\ r = rowOf d c.
Proof.
  rewrite match_documents_unfold. intros H.
  apply in_map_iff in H as ([d c] & <- & H). apply firstn_In, sortBy_In in H.
  now exists d, c.
Qed.

Lemma match_limit :
  (List.length (match_documents distance database query_embedding
                                match_threshold match_count)
   <= Z.to_nat match_count)%nat.
Proof. rewrite match_documents_unfold, length_map. apply firstn_le_length. Qed.

Lemma match_above_threshold r :
  In r (match_documents distance database query_embedding match_threshold match_count) ->
  Float8.gtb (similarity r) match_threshold = true.
Proof.
  intros H. apply match_row in H as (d & c & K & ->).
  apply kept_spec in K as (_ & _ & T). exact T.
Qed.

Lemma match_nearest d c :
  In (d, c) (kept distance database query_embedding match_threshold) ->
  In (rowOf d c)
     (match_documents distance database query_embedding match_threshold match_count)
  \/ (List.length (match_documents distance database query_embedding
                                   match_threshold match_count)
      = Z.to_nat match_count
      /\ forall r,
           In r (match_documents distance database query_embedding
                                 match_threshold match_count) ->
           ranked r (rowOf d c)).
Proof.
  intros Hk. rewrite match_documents_unfold.
  set (sorted := sortBy fst (kept distance database query_embedding match_threshold)).
  apply (In_sortBy fst) in Hk. fold sorted in Hk.
  rewrite <- (firstn_skipn (Z.to_nat match_count) sorted) in Hk.
  apply in_app_or in Hk as [Hk | Hk].
  - left. apply in_map_iff. now exists (d, c).
  - right. split.
    + rewrite length_map. apply firstn_length_le.
      destruct (le_lt_dec (Z.to_nat match_count) (List.length sorted)) as [L | G];
        [exact L|].
      rewrite skipn_all2 in Hk by lia. destruct Hk.
    + intros r Hr. apply in_map_iff in Hr as ([d' c'] & <- & Hr). simpl.
      pose proof (sortBy_sorted fst (kept distance database query_embedding
                                          match_threshold)) as S.
      fold sorted in S.
      rewrite <- (firstn_skipn (Z.to_nat match_count) sorted) in S.
      pose proof (sorted_across _ _ _ S _ _ Hr Hk) as L.
      now apply ascending_ranked.
Qed.

End MatchFacts.

(** X5. Every row returned by [match_documents] comes from a stored chunk
    that has an embedding, carries that chunk's id, document id and text,
    and has as similarity 1 minus the distance between the chunk's
    embedding and the query; that similarity passed the test
    [> match_threshold] of float8, for which NaN is above every other
    value: between finite values it is strictly above the threshold, and a
    chunk at distance NaN (a zero vector) is returned with similarity
    NaN. *)
Theorem match_documents_sound (distance : Store.vector -> Store.vector -> Float8.t)
        (database : Store.database) (query_embedding : Store.vector)
        (match_threshold : Float8.t) (match_count : Z) (r : Store.row) :
  In r (Store.match_documents distance database query_embedding
                              match_threshold match_count) ->
  Float8.gtb (Store.similarity r) match_threshold = true
  /\ (forall s t, Store.similarity r = Float8.Finite s ->
                  match_threshold = Float8.Finite t -> (t < s)%Q)
  /\ exists c e,
      In c (Store.document_chunks database)
      /\ Store.chunk_embedding c = Some e
      /\ Store.id r = Store.chunk_id c
      /\ Store.document_id r = Store.chunk_document_id c
      /\ Store.chunk_text r = Store.chunk_chunk_text c
      /\ Store.similarity r = Float8.oneMinus (distance e query_embedding).
Proof.
  intros H. pose proof (match_above_threshold _ _ _ _ _ _ H) as G.
  split; [exact G|]. split.
  - intros s t Es Et. rewrite Es, Et in G. now apply gtb_finite.
  - apply match_row in H as (d & c & K & ->).
    apply kept_spec in K as (Hc & (e & E & ->) & _).
    exists c, e. repeat split; auto.
Qed.

Lemma match_documents_sound_witness :
  let r := Props.rowOf Float8.NaN (Store.mkChunk "c-bob" (Some "d-bob")
                                                 "Bob plans a trip to the lake"
                                                 (Some [0%Q]) 0) in
  Store.similarity r = Float8.NaN
  /\ Float8.gtb (Store.similarity r) (Float8.Finite (1 # 10)) = true
  /\ (forall s t, Store.similarity r = Float8.Finite s ->
                  Float8.Finite (1 # 10) = Float8.Finite t -> (t < s)%Q)
  /\ exists c e,
      In c Scenario.document_chunks
      /\ Store.chunk_embedding c = Some e
      /\ Store.id r = Store.chunk_id c
      /\ Store.document_id r = Store.chunk_document_id c
      /\ Store.chunk_text r = Store.chunk_chunk_text c
      /\ Store.similarity r = Float8.oneMinus (Cases.cosine1 e [1%Q]).
Proof.
  intros r. split; [reflexivity|].
  apply (match_documents_sound Cases.cosine1
           (Store.mkDatabase Scenario.documents Scenario.document_chunks)
           [1%Q] (Float8.Finite (1 # 10)) 5).
  vm_compute. tauto.
Defined.

(** X6. [match_documents] returns at most [match_count] rows, ordered from
    the most to the least similar, the rows whose similarity is NaN
    last. *)
Theorem match_documents_ranked (distance : Store.vector -> Store.vector -> Float8.t)
        (database : Store.database) (query_embedding : Store.vector)
        (match_threshold : Float8.t) (match_count : Z) :
  (List.length (Store.match_documents distance database query_embedding
                                      match_threshold match_count)
   <= Z.to_nat match_count)%nat
  /\ StronglySorted Props.ranked
       (Store.match_documents distance database query_embedding
                              match_threshold match_count).
Proof.
  split; [apply match_limit|].
  rewrite match_documents_unfold.
  apply (sorted_map (Props.ascending fst)).
  - intros [d1 c1] [d2 c2] H. now apply ascending_ranked.
  - apply sorted_firstn, sortBy_sorted.
Qed.

(** X7. [match_documents] returns the nearest chunks: a stored chunk whose
    similarity passes the test [> match_threshold] of float8 either has its
    row in the result, or the result is full ([match_count] rows) and every
    row in it ranks at least as high: it is at least as similar, or the
    chunk's own similarity is NaN. *)
Theorem match_documents_nearest (distance : Store.vector -> Store.vector -> Float8.t)
        (database : Store.database) (query_embedding : Store.vector)
        (match_threshold : Float8.t) (match_count : Z)
        (c : Store.document_chunk) (e : Store.vector) :
  In c (Store.document_chunks database) ->
  Store.chunk_embedding c = Some e ->
  Float8.gtb (Float8.oneMinus (distance e query_embedding)) match_threshold = true ->
  In (Props.rowOf (distance e query_embedding) c)
     (Store.match_documents distance database query_embedding match_threshold match_count)
  \/ (List.length (Store.match_documents distance database query_embedding
                                         match_threshold match_count)
      = Z.to_nat match_count
      /\ forall r,
           In r (Store.match_documents distance database query_embedding
                                       match_threshold match_count) ->
           Props.ranked r (Props.rowOf (distance e query_embedding) c)).
Proof.
  intros Hc E T. apply match_nearest. apply kept_spec.
  split; [exact Hc|]. split; [now exists e | exact T].
Qed.

Lemma match_documents_nearest_witness :
  let bob := Store.mkChunk "c-bob" (Some "d-bob") "Bob plans a trip to the lake"
                           (Some [0%Q]) 0 in
  let result := Store.match_documents Cases.cosine1
                  (Store.mkDatabase Scenario.documents Scenario.document_chunks)
                  [1%Q] (Float8.Finite (1 # 10)) 2 in
  Cases.cosine1 [0%Q] [1%Q] = Float8.NaN
  /\ (In (Props.rowOf (Cases.cosine1 [0%Q] [1%Q]) bob) result
      \/ (List.length result = Z.to_nat 2
          /\ forall r, In r result ->
                       Props.ranked r (Props.rowOf (Cases.cosine1 [0%Q] [1%Q]) bob))).
Proof.
  intros bob result. split; [reflexivity|].
  apply (match_documents_nearest Cases.cosine1
           (Store.mkDatabase Scenario.documents Scenario.document_chunks)
           [1%Q] (Float8.Finite (1 # 10)) 2 bob [0%Q]).
  - simpl. auto.
  - reflexivity.
  - reflexivity.
Defined.

(** X8. [findRelevantChunks] returns at most 5 results, and the similarity
    of each passes the test [> 0.1] of float8, for which NaN is above every
    other value: a finite score is strictly above 0.1 (the placeholder 0.5
    on the fallback), and a chunk at distance NaN, which the similarity
    query returns, is passed on with similarity NaN. *)
Theorem retrieval_bounded (supabaseAdmin : Store.Backend) (queryEmbedding : Store.vector)
        (userId : string) (tr : list event) (rows : list Store.row) :
  QueryChat.findRelevantChunks supabaseAdmin queryEmbedding userId = (tr, Ret rows) ->
  (List.length rows <= 5)%nat
  /\ forall r, In r rows ->
       Float8.gtb (Store.similarity r) (Float8.Finite (1 # 10)) = true
       /\ forall s, Store.similarity r = Float8.Finite s -> ((1 # 10) < s)%Q.
Proof.
  intros H.
  assert (snd (QueryChat.findRelevantChunks supabaseAdmin queryEmbedding userId) = Ret rows)
    as H' by now rewrite H.
  assert (forall r : Store.row,
             Float8.gtb (Store.similarity r) (Float8.Finite (1 # 10)) = true ->
             Float8.gtb (Store.similarity r) (Float8.Finite (1 # 10)) = true
             /\ forall s, Store.similarity r = Float8.Finite s -> ((1 # 10) < s)%Q) as Both.
  { intros r G. split; [exact G|]. intros s E. rewrite E in G. now apply gtb_finite. }
  apply found_rows in H' as [_ K]. cbv zeta in K.
  destruct K as [[_ ->] | [(_ & _ & _ & ->) | (_ & _ & _ & ->)]].
  - split; [simpl; lia | intros r []].
  - split.
    + unfold Spec.placeholderRows. rewrite length_map. apply firstn_le_length.
    + intros r Hr. apply Both. rewrite (placeholder_similarity _ _ Hr). reflexivity.
  - split.
    + etransitivity; [apply filter_length_le|].
      apply (match_limit (Store.distance supabaseAdmin) (Store.db supabaseAdmin)
                         queryEmbedding (Float8.Finite (1 # 10)) 5).
    + intros r Hr. apply filter_In in Hr as [Hr _].
      apply Both. now apply match_above_threshold in Hr.
Qed.

Lemma retrieval_bounded_witness :
  let rows := [ {| Store.id := "c-alice"; Store.document_id := Some "d-alice";
                   Store.chunk_text := "Alice keeps notes about cats";
                   Store.similarity := Float8.NaN |} ] in
  QueryChat.findRelevantChunks Cases.cosineProject [0%Q] "alice"
  = ([EvSelectDocuments "alice"; EvRpcMatchDocuments (1 # 10) 5], Ret rows)
  /\ (List.length rows <= 5)%nat
  /\ forall r, In r rows ->
       Float8.gtb (Store.similarity r) (Float8.Finite (1 # 10)) = true
       /\ forall s, Store.similarity r = Float8.Finite s -> ((1 # 10) < s)%Q.
Proof.
  intros rows.
  assert (QueryChat.findRelevantChunks Cases.cosineProject [0%Q] "alice"
          = ([EvSelectDocuments "alice"; EvRpcMatchDocuments (1 # 10) 5], Ret rows)) as R
      by (vm_compute; reflexivity).
  split; [exact R|].
  exact (retrieval_bounded Cases.cosineProject [0%Q] "alice" _ rows R).
Defined.

(** X9. A failing similarity query alone never fails retrieval:
    [findRelevantChunks] always ends, and it throws only when the select on
    documents fails or when the fallback select on chunks fails, with the
    message of that failure. *)
Theorem retrieval_failures (supabaseAdmin : Store.Backend) (queryEmbedding : Store.vector)
        (userId : string) :
  snd (QueryChat.findRelevantChunks supabaseAdmin queryEmbedding userId) <> Running
  /\ forall m,
      snd (QueryChat.findRelevantChunks supabaseAdmin queryEmbedding userId) = Throw m ->
      (exists e, Store.docsError supabaseAdmin = Some e
                 /\ m = "Failed to fetch user documents: " ++ e)
      \/ (exists e, Store.chunksError supabaseAdmin = Some e
                    /\ m = "Fallback search failed: " ++ e).
Proof.
  unfold QueryChat.findRelevantChunks, Store.selectCompletedDocuments,
    Store.rpcMatchDocuments, QueryChat.fallbackTextSearch, Store.selectChunksIn.
  destruct (Store.docsError supabaseAdmin) as [e|]; simpl.
  { split; [discriminate|]. intros m [= <-]. left. now exists e. }
  destruct (map Store.doc_id _) as [|i ids]; simpl.
  { split; discriminate. }
  destruct (Store.searchError supabaseAdmin) as [s|]; simpl.
  - destruct (Store.chunksError supabaseAdmin) as [e|]; simpl.
    + split; [discriminate|]. intros m [= <-]. right. now exists e.
    + split; discriminate.
  - destruct (Store.match_documents _ _ _ _ _) as [|r rs]; simpl.
    + destruct (Store.chunksError supabaseAdmin) as [e|]; simpl.
      * split; [discriminate|]. intros m [= <-]. right. now exists e.
      * split; discriminate.
    + split; discriminate.
Qed.

Lemma retrieval_failures_witness :
  (exists e, Store.docsError Cases.unreachable = Some e
             /\ "Failed to fetch user documents: connection refused"
                = "Failed to fetch user documents: " ++ e)
  \/ (exists e, Store.chunksError Cases.unreachable = Some e
                /\ "Failed to fetch user documents: connection refused"
                   = "Fallback search failed: " ++ e).
Proof.
  destruct (retrieval_failures Cases.unreachable [0%Q] "alice") as [_ K].
  apply K. reflexivity.
Defined.

(* ================================================================== *)
(** ** Further properties of the answer synthesizer *)
(* ================================================================== *)

Section SynthesisFacts.
Import JS Http Store QueryChat Spec Props.

Variable env : Env.
Variable system : string.
Variable query : JS.value.

Lemma limited_not_success (f : fetched string) (c : string) :
  rateLimited f -> ~ chatSuccess f c.
Proof.
  intros (r & -> & S) (r' & [= <-] & O & _).
  unfold ok in O. rewrite S in O. discriminate.
Qed.

Lemma failure_not_success (f : fetched string) (m c : string) :
  chatFailure f m -> ~ chatSuccess f c.
Proof.
  intros F (r' & E & O & J). destruct F as [m | r NS NO | r m O' J'].
  - discriminate.
  - injection E as <-. congruence.
  - injection E as <-. congruence.
Qed.

(** The loop entered at attempt [a] (after [a] calls) returns [content]
    exactly when the first success among the remaining attempts carries
    it. *)
Lemma retry_result (budget : nat) :
  forall (a : nat) (content : string),
    (maxAttempts - a <= budget)%nat ->
    snd (retryLoop env system query a a) = Ret content
    <-> exists n, (a <= n < maxAttempts)%nat
                  /\ chatSuccess (chatCompletions env n) content
                  /\ forall j, (a <= j < n)%nat ->
                               forall c, ~ chatSuccess (chatCompletions env j) c.
Proof.
  induction budget as [|budget IH]; intros a content B.
  - rewrite retry_exhausted by lia. simpl. split; [discriminate|].
    intros (n & Hn & _). lia.
  - destruct (lt_dec a maxAttempts) as [L | L].
    2:{ rewrite retry_exhausted by lia. simpl. split; [discriminate|].
        intros (n & Hn & _). lia. }
    assert ((forall c, ~ chatSuccess (chatCompletions env a) c) ->
              (snd (retryLoop env system query (S a) (S a)) = Ret content
               <-> exists n, (a <= n < maxAttempts)%nat
                             /\ chatSuccess (chatCompletions env n) content
                             /\ forall j, (a <= j < n)%nat ->
                                 forall c, ~ chatSuccess (chatCompletions env j) c))
      as Skip.
    { intros NS. rewrite (IH (S a) content) by lia. split.
      - intros (n & Hn & S & F). exists n. split; [lia|]. split; [exact S|].
        intros j Hj c. destruct (Nat.eq_dec j a) as [-> | NE]; [apply NS|].
        apply F. lia.
      - intros (n & Hn & S & F). exists n.
        assert (n <> a) as NE by (intros ->; exact (NS content S)).
        split; [lia|]. split; [exact S|]. intros j Hj. apply F. lia. }
    destruct (chat_answer_cases (chatCompletions env a))
      as [R | [(m & F) | (r & c0 & E & NS & O & J)]].
    + rewrite (retry_limited _ _ _ _ _ L R), snd_after.
      apply Skip. intros c. now apply limited_not_success.
    + rewrite (retry_failure _ _ _ _ _ _ L F).
      destruct (S a <? maxAttempts)%nat eqn:T.
      * rewrite snd_after. apply Skip. intros c. now apply failure_not_success with m.
      * apply Nat.ltb_ge in T. simpl. split; [discriminate|].
        intros (n & Hn & S & _). assert (n = a) as -> by lia.
        now apply (failure_not_success _ m content) in S.
    + rewrite (retry_success _ _ _ _ _ _ _ L E NS O J). simpl. split.
      * intros [= <-]. exists a. split; [lia|]. split.
        -- exists r. now split.
        -- intros j Hj. lia.
      * intros (n & Hn & S & F).
        destruct (Nat.eq_dec n a) as [-> | NE].
        -- destruct S as (r' & E' & _ & J'). rewrite E in E'. injection E' as <-.
           congruence.
        -- exfalso. apply (F a ltac:(lia) c0). exists r. now split.
Qed.

Lemma sleeps_app (t1 t2 : list event) : sleeps (t1 ++ t2) = (sleeps t1 ++ sleeps t2)%list.
Proof. unfold sleeps. apply flat_map_app. Qed.

(** The waits of the loop entered at attempt [a]. *)
Lemma retry_sleeps calls a :
  (a < maxAttempts)%nat ->
  sleeps (fst (retryLoop env system query calls a)) = []
  \/ sleeps (fst (retryLoop env system query calls a))
     = Z.min (1000 * 2 ^ Z.of_nat a) 60000
       :: sleeps (fst (retryLoop env system query (S calls) (S a)))
  \/ ((S a < maxAttempts)%nat
      /\ sleeps (fst (retryLoop env system query calls a))
         = 1000 * Z.of_nat (S a)
           :: sleeps (fst (retryLoop env system query (S calls) (S a)))).
Proof.
  intros L.
  destruct (chat_answer_cases (chatCompletions env calls))
    as [R | [(m & F) | (r & c0 & E & NS & O & J)]].
  - right; left. rewrite (retry_limited _ _ _ _ _ L R), fst_after, sleeps_app.
    reflexivity.
  - rewrite (retry_failure _ _ _ _ _ _ L F).
    destruct (S a <? maxAttempts)%nat eqn:T.
    + right; right. apply Nat.ltb_lt in T. split; [exact T|].
      rewrite fst_after, sleeps_app. reflexivity.
    + left. reflexivity.
  - left. rewrite (retry_success _ _ _ _ _ _ _ L E NS O J). reflexivity.
Qed.

Lemma retry_waits calls a :
  totalWait (fst (retryLoop env system query calls a))
  <= match a with
     | 0%nat => 7000
     | 1%nat => 6000
     | 2%nat => 4000
     | _ => 0
     end
  /\ Forall (fun ms => 1000 <= ms <= 4000)
            (sleeps (fst (retryLoop env system query calls a))).
Proof.
  assert (forall calls a, (maxAttempts <= a)%nat ->
            sleeps (fst (retryLoop env system query calls a)) = []) as W3.
  { intros c b H. now rewrite retry_exhausted. }
  assert (forall calls,
            totalWait (fst (retryLoop env system query calls 2)) <= 4000
            /\ Forall (fun ms => 1000 <= ms <= 4000)
                      (sleeps (fst (retryLoop env system query calls 2)))) as W2.
  { intros c. unfold totalWait.
    destruct (retry_sleeps c 2 ltac:(unfold maxAttempts; lia)) as [E | [E | [T E]]].
    - rewrite E. simpl. split; [lia | constructor].
    - rewrite E, (W3 (S c) 3%nat) by (unfold maxAttempts; lia).
      change (Z.min (1000 * 2 ^ Z.of_nat 2) 60000) with 4000.
      simpl. split; [lia | constructor; [lia | constructor]].
    - unfold maxAttempts in T. lia. }
  assert (forall calls,
            totalWait (fst (retryLoop env system query calls 1)) <= 6000
            /\ Forall (fun ms => 1000 <= ms <= 4000)
                      (sleeps (fst (retryLoop env system query calls 1)))) as W1.
  { intros c. destruct (W2 (S c)) as [T2 F2]. unfold totalWait in *.
    destruct (retry_sleeps c 1 ltac:(unfold maxAttempts; lia)) as [E | [E | [T E]]];
      rewrite E.
    - simpl. split; [lia | constructor].
    - change (Z.min (1000 * 2 ^ Z.of_nat 1) 60000) with 2000. cbn [fold_right].
      split; [lia | constructor; [lia | exact F2]].
    - change (1000 * Z.of_nat 2) with 2000. cbn [fold_right].
      split; [lia | constructor; [lia | exact F2]]. }
  destruct a as [|[|[|a]]].
  - destruct (W1 (S calls)) as [T1 F1]. unfold totalWait in *.
    destruct (retry_sleeps calls 0 ltac:(unfold maxAttempts; lia)) as [E | [E | [T E]]];
      rewrite E.
    + simpl. split; [lia | constructor].
    + change (Z.min (1000 * 2 ^ Z.of_nat 0) 60000) with 1000. cbn [fold_right].
      split; [lia | constructor; [lia | exact F1]].
    + change (1000 * Z.of_nat 1) with 1000. cbn [fold_right].
      split; [lia | constructor; [lia | exact F1]].
  - apply W1.
  - apply W2.
  - unfold totalWait. rewrite W3 by (unfold maxAttempts; lia).
    simpl. split; [lia | constructor].
Qed.

End SynthesisFacts.

(** X10. [generateChatResponse] returns a text exactly when the API key is
    set and one of the first 3 answers of the chat endpoint is a success:
    the text is the content of the first such answer. *)
Theorem chat_answer_origin (env : QueryChat.Env) (query : JS.value)
        (relevantChunks : list Store.row) (content : string) :
  snd (QueryChat.generateChatResponse env query relevantChunks) = Ret content
  <-> QueryChat.unset (QueryChat.GROQ_API_KEY env) = false
      /\ exists n, (n < 3)%nat
                   /\ Props.chatSuccess (QueryChat.chatCompletions env n) content
                   /\ forall j, (j < n)%nat ->
                                forall c, ~ Props.chatSuccess (QueryChat.chatCompletions env j) c.
Proof.
  unfold QueryChat.generateChatResponse.
  destruct (QueryChat.unset (QueryChat.GROQ_API_KEY env)).
  - simpl. split; [discriminate | intros [? _]; discriminate].
  - rewrite (retry_result env _ query 3 0 content) by reflexivity.
    unfold QueryChat.maxAttempts. split.
    + intros (n & Hn & S & F). split; [reflexivity|]. exists n.
      split; [lia|]. split; [exact S|]. intros j Hj. apply F. lia.
    + intros (_ & n & Hn & S & F). exists n.
      split; [lia|]. split; [exact S|]. intros j Hj. apply F. lia.
Qed.

Lemma chat_answer_origin_witness :
  snd (QueryChat.generateChatResponse
         (Scenario.queryEnv None [Http.Responded Scenario.tooManyRequests;
                                  Cases.completion "Cats are mammals."])
         (JS.Str "What is a cat?") [])
  = Ret "Cats are mammals.".
Proof.
  apply (chat_answer_origin
           (Scenario.queryEnv None [Http.Responded Scenario.tooManyRequests;
                                    Cases.completion "Cats are mammals."])).
  split; [reflexivity|]. exists 1%nat. split; [lia|]. split.
  - eexists. split; [reflexivity|]. split; reflexivity.
  - intros j Hj c (r & E & O & _). assert (j = 0%nat) as -> by lia.
    simpl in E. injection E as <-. discriminate.
Defined.

(** X11. Whatever the chat endpoint answers, [generateChatResponse] waits
    at most 7 seconds in total, and each single wait lasts between 1 and 4
    seconds: the 60 second cap of the backoff is never reached. *)
Theorem chat_wait_bounded (env : QueryChat.Env) (query : JS.value)
        (relevantChunks : list Store.row) :
  Props.totalWait (fst (QueryChat.generateChatResponse env query relevantChunks)) <= 7000
  /\ Forall (fun ms => 1000 <= ms <= 4000)
            (Spec.sleeps (fst (QueryChat.generateChatResponse env query relevantChunks))).
Proof.
  unfold QueryChat.generateChatResponse.
  destruct (QueryChat.unset (QueryChat.GROQ_API_KEY env)).
  - simpl. split; [unfold Props.totalWait; simpl; lia | constructor].
  - apply (retry_waits env _ query 0 0).
Qed.

(* ================================================================== *)
(** ** Further properties of the embedding client *)
(* ================================================================== *)

Section BatchCounting.
Import JS Http Store ExtractEmbeddings Spec Props.

Variable env : Env.
Variable chunks : list string.

Lemma sleeps_after {A} (tr : list event) (c : Eff A) :
  sleeps (fst (Eff.after tr c)) = (sleeps tr ++ sleeps (fst c))%list.
Proof. rewrite fst_after. apply sleeps_app. Qed.

(** Passes through the loop body left from index [i] when no batch is
    sent twice. *)
Lemma rounds_done i :
  Z.of_nat (List.length chunks) <= i -> rounds (Z.of_nat (List.length chunks) - i) = 0%nat.
Proof.
  intros H. unfold rounds.
  destruct (Z_le_gt_dec (Z.of_nat (List.length chunks) - i + 9) 0) as [L | G].
  - pose proof (Z.div_le_upper_bound (Z.of_nat (List.length chunks) - i + 9) 10 0).
    lia.
  - rewrite Z.div_small by lia. reflexivity.
Qed.

Lemma rounds_more i :
  i < Z.of_nat (List.length chunks) ->
  rounds (Z.of_nat (List.length chunks) - i)
  = S (rounds (Z.of_nat (List.length chunks) - (i + batchSize))).
Proof.
  intros H. unfold rounds, batchSize.
  replace (Z.of_nat (List.length chunks) - i + 9)
    with ((Z.of_nat (List.length chunks) - (i + 10) + 9) + 1 * 10) by lia.
  rewrite Z.div_add by lia.
  assert (0 <= (Z.of_nat (List.length chunks) - (i + 10) + 9) / 10)
    by (apply Z.div_pos; lia).
  lia.
Qed.

Lemma rounds_last i :
  i < Z.of_nat (List.length chunks) ->
  Z.of_nat (List.length chunks) <= i + batchSize ->
  rounds (Z.of_nat (List.length chunks) - i) = 1%nat.
Proof.
  intros H L. rewrite rounds_more by exact H. now rewrite rounds_done.
Qed.

Hypothesis unlimited :
  forall n batch, ~ rateLimited (ExtractEmbeddings.embeddings env n batch).

Lemma batchLoop_counted fuel :
  forall calls i embeddings,
    let run := batchLoop env chunks fuel calls i embeddings in
    let k := rounds (Z.of_nat (List.length chunks) - i) in
    (List.length (batches (fst run)) <= k)%nat
    /\ (forall result, snd run = Ret result ->
          List.length (batches (fst run)) = k
          /\ sleeps (fst run) = repeat 500 (pred k))
    /\ ((k <= fuel)%nat -> snd run <> Running).
Proof.
  induction fuel as [|fuel IH]; intros calls i embeddings run k; subst run k.
  - destruct (Z_le_gt_dec (Z.of_nat (List.length chunks)) i) as [D | M].
    + rewrite batchLoop_done, rounds_done by exact D. simpl.
      repeat split; [lia | discriminate].
    + rewrite batchLoop_starved, rounds_more by lia. simpl.
      repeat split; [lia | discriminate | discriminate | lia].
  - destruct (Z_le_gt_dec (Z.of_nat (List.length chunks)) i) as [D | M].
    { rewrite batchLoop_done, rounds_done by exact D. simpl.
      repeat split; [lia | discriminate]. }
    rewrite rounds_more by lia. cbn [batchLoop].
    test_holds i (Z.of_nat (List.length chunks)). cbn [negb].
    rewrite bind_emit.
    assert (forall m : string,
              let run := Eff.after [EvFetchEmbeddings (slice i (i + batchSize) chunks)]
                                   (@rethrow (list vector) m) in
              forall k,
                (List.length (batches (fst run)) <= S k)%nat
                /\ (forall result, snd run = Ret result ->
                      List.length (batches (fst run)) = S k
                      /\ sleeps (fst run) = repeat 500 (pred (S k)))
                /\ ((S k <= S fuel)%nat -> snd run <> Running)) as Failing.
    { intros m run k. subst run. simpl. repeat split; try discriminate. lia. }
    destruct (ExtractEmbeddings.embeddings env calls _) as [m | r] eqn:E;
      [apply Failing|].
    destruct (ok r) eqn:O; cbn [negb].
    + destruct (json r) as [batchEmbeddings | m]; [|apply Failing].
      specialize (IH (S calls) (i + batchSize) (embeddings ++ batchEmbeddings)%list).
      cbv zeta in IH. destruct IH as (B & R & T).
      destruct (Z.ltb_spec (i + batchSize) (Z.of_nat (List.length chunks))) as [More | Last].
      * unfold Eff.sleep. rewrite bind_emit, after_after, batches_after, sleeps_after,
          snd_after. simpl app. cbn [batches flat_map List.length app sleeps].
        fold (batches (fst (batchLoop env chunks fuel (S calls) (i + batchSize)
                                      (embeddings ++ batchEmbeddings)))).
        fold (sleeps (fst (batchLoop env chunks fuel (S calls) (i + batchSize)
                                     (embeddings ++ batchEmbeddings)))).
        repeat split.
        -- lia.
        -- destruct (R result H) as [R1 _]. lia.
        -- destruct (R result H) as [_ R2]. rewrite R2.
           rewrite (rounds_more (i + batchSize)) by exact More. reflexivity.
        -- intros F. apply T. lia.
      * rewrite bind_unit, batches_after, sleeps_after, snd_after.
        cbn [batches flat_map List.length app sleeps].
        fold (batches (fst (batchLoop env chunks fuel (S calls) (i + batchSize)
                                      (embeddings ++ batchEmbeddings)))).
        fold (sleeps (fst (batchLoop env chunks fuel (S calls) (i + batchSize)
                                     (embeddings ++ batchEmbeddings)))).
        rewrite batchLoop_done by exact Last.
        rewrite rounds_done by exact Last. simpl.
        repeat split; [lia | discriminate].
    + rewrite bind_logger.
      destruct (Z.eqb_spec (status r) 429) as [S429 | N429].
      * exfalso. apply (unlimited calls (slice i (i + batchSize) chunks)).
        exists r. split; [exact E | exact S429].
      * rewrite after_after. simpl. repeat split; try discriminate. lia.
Qed.

End BatchCounting.

Section BatchStuck.
Import JS Http Store ExtractEmbeddings Spec Props.

Variable env : Env.
Variable chunks : list string.

Hypothesis limited :
  forall n batch, rateLimited (ExtractEmbeddings.embeddings env n batch).

Lemma batchLoop_stuck fuel :
  forall calls i embeddings,
    i < Z.of_nat (List.length chunks) ->
    snd (batchLoop env chunks fuel calls i embeddings) = Running
    /\ batches (fst (batchLoop env chunks fuel calls i embeddings))
       = repeat (slice i (i + batchSize) chunks) fuel
    /\ sleeps (fst (batchLoop env chunks fuel calls i embeddings))
       = repeat 2000 fuel.
Proof.
  induction fuel as [|fuel IH]; intros calls i embeddings H.
  - rewrite batchLoop_starved by exact H. now simpl.
  - rewrite batchLoop_limited by (auto; lia).
    rewrite snd_after, batches_after, sleeps_after.
    destruct (IH (S calls) i embeddings H) as (R & B & W).
    rewrite R, B, W. now simpl.
Qed.

End BatchStuck.

(** X12. When no answer of the embeddings endpoint is a 429,
    [generateEmbeddingsForChunks] sends at most ceil(N / 10) requests for N
    chunks and is done within that many passes of its loop; when it returns,
    it has sent exactly ceil(N / 10) requests and paused 500 ms between
    consecutive ones, and not after the last. *)
Theorem embedding_requests_counted (env : ExtractEmbeddings.Env) (chunks : list string)
        (fuel : nat) :
  (forall n batch, ~ Spec.rateLimited (ExtractEmbeddings.embeddings env n batch)) ->
  let run := ExtractEmbeddings.generateEmbeddingsForChunks env chunks fuel in
  let k := Props.rounds (Z.of_nat (List.length chunks)) in
  (List.length (Spec.batches (fst run)) <= k)%nat
  /\ (forall embeddings, snd run = Ret embeddings ->
        List.length (Spec.batches (fst run)) = k
        /\ Spec.sleeps (fst run) = repeat 500 (pred k))
  /\ ((k <= fuel)%nat -> snd run <> Running).
Proof.
  intros U run k. subst run k. unfold ExtractEmbeddings.generateEmbeddingsForChunks.
  destruct (ExtractEmbeddings.unset _).
  - simpl. repeat split; try discriminate. lia.
  - pose proof (batchLoop_counted env chunks U fuel 0%nat 0 []) as K.
    cbv zeta in K. now rewrite Z.sub_0_r in K.
Qed.

Lemma embedding_requests_counted_witness :
  let run := ExtractEmbeddings.generateEmbeddingsForChunks
               (Scenario.ingestEnv 0) (repeat "Cats purr." 25) 3 in
  List.length (Spec.batches (fst run)) = 3%nat
  /\ Spec.sleeps (fst run) = [500; 500].
Proof.
  assert (forall n batch,
             ~ Spec.rateLimited
                 (ExtractEmbeddings.embeddings (Scenario.ingestEnv 0) n batch)) as U.
  { intros n batch (r & E & S). simpl in E. injection E as <-. discriminate. }
  destruct (embedding_requests_counted (Scenario.ingestEnv 0) (repeat "Cats purr." 25) 3 U)
    as (_ & R & _).
  exact (R _ eq_refl).
Defined.

(** X13. The embedding loop has no retry limit: while the embeddings
    endpoint answers 429, [generateEmbeddingsForChunks] with at least one
    chunk keeps sending the first batch and waiting 2 seconds, as many times
    as it is given passes, and never ends. *)
Theorem embedding_never_gives_up (env : ExtractEmbeddings.Env) (chunks : list string)
        (fuel : nat) :
  ExtractEmbeddings.unset (ExtractEmbeddings.GROQ_API_KEY env) = false ->
  chunks <> [] ->
  (forall n batch, Spec.rateLimited (ExtractEmbeddings.embeddings env n batch)) ->
  snd (ExtractEmbeddings.generateEmbeddingsForChunks env chunks fuel) = Running
  /\ Spec.batches (fst (ExtractEmbeddings.generateEmbeddingsForChunks env chunks fuel))
     = repeat (firstn 10 chunks) fuel
  /\ Spec.sleeps (fst (ExtractEmbeddings.generateEmbeddingsForChunks env chunks fuel))
     = repeat 2000 fuel.
Proof.
  intros K N L. unfold ExtractEmbeddings.generateEmbeddingsForChunks. rewrite K.
  assert (0 < Z.of_nat (List.length chunks)) as P
      by (destruct chunks; [congruence | simpl; lia]).
  destruct (batchLoop_stuck env chunks L fuel 0%nat 0 [] P) as (R & B & W).
  rewrite (slice_batch chunks 0) in B by lia.
  now repeat split.
Qed.

Lemma embedding_never_gives_up_witness :
  snd (ExtractEmbeddings.generateEmbeddingsForChunks
         Cases.throttled ["Cats purr."; "Dogs bark."] 4) = Running
  /\ Spec.batches (fst (ExtractEmbeddings.generateEmbeddingsForChunks
                          Cases.throttled ["Cats purr."; "Dogs bark."] 4))
     = repeat ["Cats purr."; "Dogs bark."] 4
  /\ Spec.sleeps (fst (ExtractEmbeddings.generateEmbeddingsForChunks
                         Cases.throttled ["Cats purr."; "Dogs bark."] 4))
     = repeat 2000 4.
Proof.
  apply (embedding_never_gives_up Cases.throttled ["Cats purr."; "Dogs bark."] 4).
  - reflexivity.
  - discriminate.
  - intros n batch. eexists. split; reflexivity.
Defined.

(* ================================================================== *)
(** ** Outcomes and traces of composed effects *)
(* ================================================================== *)

Section EffInversion.
Context {A B : Type}.

Lemma snd_bind (c : Eff A) (k : A -> Eff B) :
  snd (Eff.bind c k)
  = match snd c with
    | Ret a => snd (k a)
    | Throw m => Throw m
    | Running => Running
    end.
Proof. destruct c as [tr []]; reflexivity. Qed.

Lemma fst_bind (c : Eff A) (k : A -> Eff B) :
  fst (Eff.bind c k)
  = (fst c ++ match snd c with
              | Ret a => fst (k a)
              | _ => []
              end)%list.
Proof. destruct c as [tr []]; simpl; now rewrite ?app_nil_r. Qed.

Lemma snd_tryCatch (c : Eff A) (h : string -> Eff A) :
  snd (Eff.tryCatch c h)
  = match snd c with
    | Throw m => snd (h m)
    | o => o
    end.
Proof. destruct c as [tr []]; reflexivity. Qed.

Lemma fst_tryCatch (c : Eff A) (h : string -> Eff A) :
  fst (Eff.tryCatch c h)
  = (fst c ++ match snd c with
              | Throw m => fst (h m)
              | _ => []
              end)%list.
Proof. destruct c as [tr []]; simpl; now rewrite ?app_nil_r. Qed.

End EffInversion.

(* ================================================================== *)
(** ** The query-chat handler as a whole *)
(* ================================================================== *)

Section QueryHandlerFacts.
Import JS Http Store QueryChat Spec Props.

Variable env : Env.

Lemma retry_ends system query (budget : nat) :
  forall calls attempt,
    (maxAttempts - attempt <= budget)%nat ->
    snd (retryLoop env system query calls attempt) <> Running.
Proof.
  induction budget as [|budget IH]; intros calls a B.
  - now rewrite retry_exhausted by lia.
  - destruct (lt_dec a maxAttempts) as [L | L].
    2:{ now rewrite retry_exhausted by lia. }
    destruct (chat_answer_cases (chatCompletions env calls))
      as [R | [(m & F) | (r & c0 & E & NS & O & J)]].
    + rewrite (retry_limited _ _ _ _ _ L R), snd_after. apply IH. lia.
    + rewrite (retry_failure _ _ _ _ _ _ L F).
      destruct (S a <? maxAttempts)%nat.
      * rewrite snd_after. apply IH. lia.
      * discriminate.
    + now rewrite (retry_success _ _ _ _ _ _ _ L E NS O J).
Qed.

Lemma chat_ends query relevantChunks :
  snd (generateChatResponse env query relevantChunks) <> Running.
Proof.
  unfold generateChatResponse. destruct (unset _); [discriminate|].
  now apply (retry_ends _ _ maxAttempts).
Qed.

Lemma retrieval_ends supabaseAdmin queryEmbedding userId :
  snd (findRelevantChunks supabaseAdmin queryEmbedding userId) <> Running.
Proof.
  unfold findRelevantChunks, selectCompletedDocuments, rpcMatchDocuments,
    fallbackTextSearch, selectChunksIn.
  destruct (docsError supabaseAdmin); simpl; [discriminate|].
  destruct (map doc_id _); simpl; [discriminate|].
  destruct (searchError supabaseAdmin); simpl.
  - destruct (chunksError supabaseAdmin); simpl; discriminate.
  - destruct (match_documents _ _ _ _ _); simpl; [|discriminate].
    destruct (chunksError supabaseAdmin); simpl; discriminate.
Qed.

Lemma answerQuery_outcome req :
  match snd (answerQuery env req) with
  | Ret r => In (responseStatus r) [200; 400; 401]
  | Throw _ => True
  | Running => False
  end.
Proof.
  unfold answerQuery.
  destruct (body req) as [requestData | m]; [|exact I].
  destruct (prop "query" requestData) as [query|]; [|exact I].
  destruct (prop "userId" requestData) as [userId|]; [|exact I].
  destruct (negb (truthy query) || negb (truthy userId)); [cbn; tauto|].
  rewrite bind_logger, snd_after.
  destruct (authorization req) as [authHeader|]; [|cbn; tauto].
  destruct (String.eqb authHeader ""); [cbn; tauto|].
  unfold createSupabaseAdmin. destruct (configured (backend env)); [|exact I].
  rewrite bind_unit, bind_emit, snd_after.
  destruct (error (getUser _ _)); [cbn; tauto|].
  destruct (data (getUser _ _)) as [user|]; [|cbn; tauto].
  destruct userId as [| | b | z | uid |]; try (cbn; tauto).
  destruct (String.eqb (user_id user) uid); cbn [negb]; [|cbn; tauto].
  rewrite snd_bind. pose proof (query_embedding_ends env query) as E1.
  destruct (snd (generateQueryEmbedding env query)) as [queryEmbedding | m |];
    [|exact I|contradiction].
  rewrite snd_bind.
  pose proof (retrieval_ends (backend env) queryEmbedding uid) as E2.
  destruct (snd (findRelevantChunks _ _ _)) as [relevantChunks | m |];
    [|exact I|contradiction].
  destruct relevantChunks as [|chunk rest]; [cbn; tauto|].
  rewrite snd_bind. pose proof (chat_ends query (chunk :: rest)) as E3.
  destruct (snd (generateChatResponse _ _ _)) as [answer | m |];
    [|exact I|contradiction].
  rewrite bind_logger, snd_after. cbn. tauto.
Qed.

(** Which events the parts of the pipeline can give rise to. *)
Lemma query_embedding_selects query u :
  ~ In (EvSelectDocuments u) (fst (generateQueryEmbedding env query)).
Proof.
  unfold generateQueryEmbedding. destruct (unset _); [now simpl|].
  rewrite bind_emit, fst_after.
  destruct (embeddings env query) as [m | r]; [simpl; intuition discriminate|].
  destruct (ok r); cbn [negb].
  - destruct (json r) as [[|e l] | m]; simpl; intuition discriminate.
  - simpl. intuition discriminate.
Qed.

Lemma retry_selects system query u (budget : nat) :
  forall calls attempt,
    (maxAttempts - attempt <= budget)%nat ->
    ~ In (EvSelectDocuments u) (fst (retryLoop env system query calls attempt)).
Proof.
  induction budget as [|budget IH]; intros calls a B.
  - now rewrite retry_exhausted by lia.
  - destruct (lt_dec a maxAttempts) as [L | L].
    2:{ now rewrite retry_exhausted by lia. }
    specialize (IH (S calls) (S a) ltac:(lia)).
    destruct (chat_answer_cases (chatCompletions env calls))
      as [R | [(m & F) | (r & c0 & E & NS & O & J)]].
    + rewrite (retry_limited _ _ _ _ _ L R), fst_after. simpl.
      intuition discriminate.
    + rewrite (retry_failure _ _ _ _ _ _ L F).
      destruct (S a <? maxAttempts)%nat.
      * rewrite fst_after. simpl. intuition discriminate.
      * simpl. intuition discriminate.
    + rewrite (retry_success _ _ _ _ _ _ _ L E NS O J). simpl.
      intuition discriminate.
Qed.

Lemma chat_selects query relevantChunks u :
  ~ In (EvSelectDocuments u) (fst (generateChatResponse env query relevantChunks)).
Proof.
  unfold generateChatResponse. destruct (unset _); [now simpl|].
  now apply (retry_selects _ _ _ maxAttempts).
Qed.

Lemma retrieval_selects supabaseAdmin queryEmbedding userId u :
  In (EvSelectDocuments u) (fst (findRelevantChunks supabaseAdmin queryEmbedding userId)) ->
  u = userId.
Proof.
  unfold findRelevantChunks, selectCompletedDocuments, rpcMatchDocuments,
    fallbackTextSearch, selectChunksIn.
  destruct (docsError supabaseAdmin); simpl; [intuition congruence|].
  destruct (map doc_id _); simpl; [intuition congruence|].
  destruct (searchError supabaseAdmin); simpl.
  - destruct (chunksError supabaseAdmin); simpl; intuition congruence.
  - destruct (match_documents _ _ _ _ _); simpl; [|intuition congruence].
    destruct (chunksError supabaseAdmin); simpl; intuition congruence.
Qed.

Lemma answerQuery_gate req e :
  In e (fst (answerQuery env req)) ->
  isAccess e = true ->
  exists requestData uid,
    body req = Parsed requestData
    /\ prop "userId" requestData = Some (Str uid)
    /\ configured (backend env) = true
    /\ callerIs (backend env) req (fun id => String.eqb id uid)
    /\ forall u, e = EvSelectDocuments u -> u = uid.
Proof.
  unfold answerQuery.
  destruct (body req) as [requestData | m] eqn:B; [|now simpl].
  destruct (prop "query" requestData) as [query|]; [|now simpl].
  destruct (prop "userId" requestData) as [userId|] eqn:U; [|now simpl].
  destruct (negb (truthy query) || negb (truthy userId)); [now simpl|].
  rewrite bind_logger, fst_after.
  destruct (authorization req) as [authHeader|] eqn:H;
    [|simpl; intros [<- | []]; discriminate].
  destruct (String.eqb authHeader "");
    [simpl; intros [<- | []]; discriminate|].
  unfold createSupabaseAdmin. destruct (configured (backend env)) eqn:C;
    [|simpl; intros [<- | []]; discriminate].
  rewrite bind_unit, bind_emit, fst_after.
  destruct (error (getUser _ _)) eqn:GE;
    [simpl; intros [<- | [<- | []]]; discriminate|].
  destruct (data (getUser _ _)) as [user|] eqn:GD;
    [|simpl; intros [<- | [<- | []]]; discriminate].
  destruct userId as [| | b | z | uid |];
    try (simpl; intros [<- | [<- | []]]; discriminate).
  destruct (String.eqb (user_id user) uid) eqn:I; cbn [negb];
    [|simpl; intros [<- | [<- | []]]; discriminate].
  intros Hin Hacc. exists requestData, uid.
  split; [reflexivity || exact B|]. split; [exact U|].
  split; [reflexivity || exact C|]. split.
  { exists authHeader, user. repeat split; assumption || reflexivity. }
  intros u ->. simpl in Hin. destruct Hin as [D | [D | Hin]]; try discriminate.
  rewrite fst_bind in Hin. apply in_app_or in Hin. destruct Hin as [Hin | Hin].
  { now apply query_embedding_selects in Hin. }
  destruct (snd (generateQueryEmbedding env query)) as [queryEmbedding | m |];
    try contradiction.
  rewrite fst_bind in Hin. apply in_app_or in Hin. destruct Hin as [Hin | Hin].
  { now apply retrieval_selects in Hin. }
  destruct (snd (findRelevantChunks _ _ _)) as [[|chunk rest] | m |];
    try contradiction.
  rewrite fst_bind in Hin. apply in_app_or in Hin. destruct Hin as [Hin | Hin].
  { now apply chat_selects in Hin. }
  destruct (snd (generateChatResponse _ _ _)); try contradiction.
  simpl in Hin. destruct Hin as [D | []]. discriminate.
Qed.

End QueryHandlerFacts.

(** X14. The query-chat handler always answers: it never throws and never
    hangs. The status of its response is 200, 400, 401 or 405, or else the
    response is the 500 with the fixed message, which never carries the
    text of the error caught. *)
Theorem query_always_answered (env : QueryChat.Env) (req : Http.Request) :
  exists response,
    snd (QueryChat.handler env req) = Ret response
    /\ (In (Http.responseStatus response) [200; 400; 401; 405]
        \/ response
           = {| Http.responseBody :=
                  Http.ErrorBody "Failed to process query. Please try again.";
                Http.responseStatus := 500 |}).
Proof.
  unfold QueryChat.handler.
  destruct (negb (String.eqb (Http.method req) "POST")).
  - eexists. split; [reflexivity|]. left. simpl. tauto.
  - rewrite snd_tryCatch. pose proof (answerQuery_outcome env req) as O.
    destruct (snd (QueryChat.answerQuery env req)) as [r | m |].
    + exists r. split; [reflexivity|]. left. simpl in *. tauto.
    + eexists. split; [reflexivity|]. now right.
    + contradiction.
Qed.

(** X15. The query-chat handler touches the project's data or calls Groq
    only for a POST whose bearer token [auth.getUser] resolves, without
    error, to the user named by the [userId] of the body; and the only
    user whose documents it selects is that user. *)
Theorem query_access_gated (env : QueryChat.Env) (req : Http.Request) (e : event) :
  In e (fst (QueryChat.handler env req)) ->
  Props.isAccess e = true ->
  exists requestData uid,
    Http.method req = "POST"
    /\ Http.body req = Http.Parsed requestData
    /\ JS.prop "userId" requestData = Some (JS.Str uid)
    /\ Store.configured (QueryChat.backend env) = true
    /\ Props.callerIs (QueryChat.backend env) req (fun id => String.eqb id uid)
    /\ forall u, e = EvSelectDocuments u -> u = uid.
Proof.
  unfold QueryChat.handler.
  destruct (negb (String.eqb (Http.method req) "POST")) eqn:M; [now simpl|].
  apply negb_false_iff, String.eqb_eq in M.
  rewrite fst_tryCatch. intros Hin Hacc. apply in_app_or in Hin.
  destruct Hin as [Hin | Hin].
  - destruct (answerQuery_gate env req e Hin Hacc) as (rd & uid & K).
    exists rd, uid. now split.
  - destruct (snd (QueryChat.answerQuery env req)); try contradiction.
    simpl in Hin. destruct Hin as [<- | []]. discriminate.
Qed.

Lemma query_access_gated_witness :
  exists requestData uid,
    Http.method Cases.aliceAsks = "POST"
    /\ Http.body Cases.aliceAsks = Http.Parsed requestData
    /\ JS.prop "userId" requestData = Some (JS.Str uid)
    /\ Store.configured (QueryChat.backend (Scenario.queryEnv None [])) = true
    /\ Props.callerIs (QueryChat.backend (Scenario.queryEnv None [])) Cases.aliceAsks
                      (fun id => String.eqb id uid)
    /\ forall u, EvSelectDocuments "alice" = EvSelectDocuments u -> u = uid.
Proof.
  apply (query_access_gated (Scenario.queryEnv None []) Cases.aliceAsks
                            (EvSelectDocuments "alice")).
  - vm_compute. do 3 right. left. reflexivity.
  - reflexivity.
Defined.

(* ================================================================== *)
(** ** The extract-embeddings handler as a whole *)
(* ================================================================== *)

(** Settles [In e tr -> isAccess e = true -> _] for a trace that holds no
    access. *)
Ltac silent :=
  let Hin := fresh "Hin" in
  let Hacc := fresh "Hacc" in
  intros Hin Hacc; simpl in Hin;
  repeat (destruct Hin as [Hin | Hin]; [subst; discriminate Hacc|]);
  contradiction.

Section IngestHandlerFacts.
Import JS Http Store ExtractEmbeddings Spec Props.

Variable env : Env.
Variable fuel : nat.

(** A run of [processDocument] that returns has gone through every
    step, and ends with the insert, the status write and the log. *)
Lemma processDocument_returns sb filePath fileName documentId tr response :
  processDocument env sb filePath fileName documentId fuel = (tr, Ret response) ->
  exists before embeddings chunks,
    chunks <> []
    /\ insertError sb = None
    /\ response = {| responseBody := Processed documentId (List.length chunks);
                     responseStatus := 200 |}
    /\ tr = (EvUpdateStatus documentId "processing" :: EvDownload filePath :: before
             ++ [EvInsertChunks (chunkRecords documentId embeddings 0 chunks);
                 EvUpdateStatus documentId "completed";
                 EvLog "info" "Document processing completed"])%list
    /\ (forall m, updateStatus sb documentId "processing" <> WriteThrew m)
    /\ (forall m, updateStatus sb documentId "completed" <> WriteThrew m).
Proof.
  unfold processDocument. intros H.
  pose proof (writeStatus_trace sb documentId "processing") as T0.
  pose proof (writeStatus_outcome sb documentId "processing") as O0.
  destruct (writeStatus sb documentId "processing") as [t0 [[]|m|]];
    try discriminate H.
  simpl in T0, O0. subst t0. rewrite bind_ret, bind_emit, after_after in H.
  destruct (error (download sb filePath)); [discriminate H|].
  destruct (data (download sb filePath)) as [fileBuffer|]; [|discriminate H].
  destruct (extractTextFromFile fileBuffer fileName) as [t1 [textContent|m|]];
    try discriminate H.
  rewrite bind_ret, after_after in H.
  destruct (len (trim textContent) =? 0); [discriminate H|].
  destruct (Chunker.splitTextIntoChunks textContent CHUNK_SIZE CHUNK_OVERLAP)
    as [|chunk rest]; [discriminate H|].
  rewrite bind_logger, after_after in H.
  destruct (generateEmbeddingsForChunks env (chunk :: rest) fuel)
    as [t2 [embeddings|m|]]; try discriminate H.
  rewrite bind_ret, after_after, bind_emit, after_after in H.
  destruct (insertError sb); [discriminate H|].
  pose proof (writeStatus_trace sb documentId "completed") as T3.
  pose proof (writeStatus_outcome sb documentId "completed") as O3.
  destruct (writeStatus sb documentId "completed") as [t3 [[]|m|]];
    try discriminate H.
  simpl in T3, O3. subst t3.
  rewrite bind_ret, bind_logger, !after_after in H.
  unfold respond, Eff.after, Eff.ret in H. cbn [fst snd] in H.
  injection H as <- <-.
  exists (t1 ++ EvLog "info" "Text extracted and chunked" :: t2)%list,
    embeddings, (chunk :: rest).
  split; [discriminate|]. split; [reflexivity|]. split; [reflexivity|].
  split; [rewrite app_nil_r; cbn [app]; rewrite <- !app_assoc; reflexivity|].
  split; intros m E; [rewrite E in O0 | rewrite E in O3]; discriminate.
Qed.

Lemma catchBlock_answers requestData message :
  snd (catchBlock env requestData message)
  = Ret {| responseBody := Failed message; responseStatus := 500 |}.
Proof.
  unfold catchBlock. rewrite bind_logger, snd_after, snd_bind, snd_tryCatch.
  destruct (prop "documentId" requestData) as [documentId|]; [|reflexivity].
  destruct (truthy documentId); [|reflexivity].
  unfold createSupabaseAdmin. destruct (configured (backend env)); [|reflexivity].
  rewrite bind_unit, writeStatus_outcome.
  now destruct (updateStatus _ _ _).
Qed.

Lemma tryBlock_outcome req :
  match snd (tryBlock env req fuel) with
  | Ret r => In (responseStatus r) [200; 401]
  | _ => True
  end.
Proof.
  unfold tryBlock.
  destruct (body req) as [requestData | m]; [|exact I].
  destruct (prop "filePath" requestData) as [filePath|]; [|exact I].
  destruct (prop "fileName" requestData) as [fileName|]; [|exact I].
  destruct (prop "userId" requestData) as [userId|]; [|exact I].
  destruct (prop "documentId" requestData) as [documentId|]; [|exact I].
  rewrite bind_logger, snd_after.
  destruct (authorization req) as [authHeader|]; [|cbn; tauto].
  destruct (String.eqb authHeader ""); [cbn; tauto|].
  unfold createSupabaseAdmin. destruct (configured (backend env)); [|exact I].
  rewrite bind_unit, bind_emit, snd_after.
  destruct (error (getUser _ _)); [cbn; tauto|].
  destruct (data (getUser _ _)) as [user|]; [|cbn; tauto].
  destruct (strictEqStr (user_id user) userId); cbn [negb]; [|cbn; tauto].
  destruct (processDocument env (backend env) filePath fileName documentId fuel)
    as [tr [r|m|]] eqn:P; cbn [snd]; try exact I.
  destruct (processDocument_returns _ _ _ _ _ _ P) as (b & es & cs & _ & _ & -> & _).
  cbn. tauto.
Qed.

Lemma handler_gate req e :
  In e (fst (handler env req fuel)) ->
  isAccess e = true ->
  exists requestData userId,
    method req = "POST"
    /\ body req = Parsed requestData
    /\ prop "userId" requestData = Some userId
    /\ configured (backend env) = true
    /\ callerIs (backend env) req (fun id => strictEqStr id userId).
Proof.
  unfold handler.
  destruct (negb (String.eqb (method req) "POST")) eqn:M; [now simpl|].
  apply negb_false_iff, String.eqb_eq in M.
  unfold tryBlock, requestDataOf.
  destruct (body req) as [requestData | m] eqn:B;
    [|silent].
  assert (forall filePath fileName userId documentId,
            prop "userId" requestData = Some userId ->
            prop "documentId" requestData = Some documentId ->
            In e (fst (Eff.tryCatch
               (Eff.logger "info" "Starting document processing";;
                match authorization req with
                | None => respond (ErrorBody "Missing authorization") 401
                | Some authHeader =>
                    if String.eqb authHeader ""
                    then respond (ErrorBody "Missing authorization") 401
                    else
                      supabaseAdmin <- createSupabaseAdmin (backend env);;
                      let token := replace "Bearer " "" authHeader in
                      Eff.emit (EvGetUser token);;
                      let auth := getUser supabaseAdmin token in
                      match error auth, data auth with
                      | None, Some user =>
                          if negb (strictEqStr (user_id user) userId)
                          then respond (ErrorBody "Unauthorized") 401
                          else processDocument env supabaseAdmin filePath fileName
                                               documentId fuel
                      | _, _ => respond (ErrorBody "Unauthorized") 401
                      end
                end)
               (catchBlock env requestData))) ->
            isAccess e = true ->
            exists requestData0 userId0,
              method req = "POST"
              /\ Parsed requestData = Parsed requestData0
              /\ prop "userId" requestData0 = Some userId0
              /\ configured (backend env) = true
              /\ callerIs (backend env) req (fun id => strictEqStr id userId0))
    as Fields.
  { intros filePath fileName userId documentId U D.
    rewrite bind_logger.
    destruct (authorization req) as [authHeader|] eqn:H;
      [|silent].
    destruct (String.eqb authHeader "");
      [silent|].
    unfold createSupabaseAdmin. destruct (configured (backend env)) eqn:C.
    2:{ unfold catchBlock. rewrite D. unfold createSupabaseAdmin. rewrite C.
        destruct (truthy documentId); silent. }
    rewrite bind_unit, bind_emit, after_after.
    destruct (error (getUser _ _)) eqn:GE.
    { silent. }
    destruct (data (getUser _ _)) as [user|] eqn:GD;
      [|silent].
    destruct (strictEqStr (user_id user) userId) eqn:S; cbn [negb];
      [|silent].
    intros _ _. exists requestData, userId.
    split; [exact M|]. split; [reflexivity|]. split; [exact U|].
    split; [reflexivity|].
    exists authHeader, user. repeat split; assumption || reflexivity. }
  destruct requestData as [|fields|]; cbn [prop].
  - silent.
  - apply Fields; reflexivity.
  - apply Fields; reflexivity.
Qed.

End IngestHandlerFacts.

(** X16. The extract-embeddings handler lets no exception escape: unless
    the embedding loop is still running when the fuel is spent, it answers,
    and the status of its response is 200, 401, 405 or 500. *)
Theorem ingestion_always_handled (env : ExtractEmbeddings.Env) (req : Http.Request)
        (fuel : nat) :
  match snd (ExtractEmbeddings.handler env req fuel) with
  | Ret response => In (Http.responseStatus response) [200; 401; 405; 500]
  | Throw _ => False
  | Running => True
  end.
Proof.
  unfold ExtractEmbeddings.handler.
  destruct (negb (String.eqb (Http.method req) "POST")); [cbn; tauto|].
  rewrite snd_tryCatch. pose proof (tryBlock_outcome env fuel req) as O.
  destruct (snd (ExtractEmbeddings.tryBlock env req fuel)) as [r | m |].
  - simpl in *. tauto.
  - rewrite catchBlock_answers. cbn. tauto.
  - exact I.
Qed.

(** X17. The extract-embeddings handler writes a status, downloads a file,
    calls the embeddings endpoint or inserts chunks only for a POST whose
    bearer token [auth.getUser] resolves, without error, to the user named
    by the [userId] of the body. *)
Theorem ingestion_access_gated (env : ExtractEmbeddings.Env) (req : Http.Request)
        (fuel : nat) (e : event) :
  In e (fst (ExtractEmbeddings.handler env req fuel)) ->
  Props.isAccess e = true ->
  exists requestData userId,
    Http.method req = "POST"
    /\ Http.body req = Http.Parsed requestData
    /\ JS.prop "userId" requestData = Some userId
    /\ Store.configured (ExtractEmbeddings.backend env) = true
    /\ Props.callerIs (ExtractEmbeddings.backend env) req
                      (fun id => JS.strictEqStr id userId).
Proof. apply handler_gate. Qed.

Lemma ingestion_access_gated_witness :
  exists requestData userId,
    Http.method Scenario.ingestRequest = "POST"
    /\ Http.body Scenario.ingestRequest = Http.Parsed requestData
    /\ JS.prop "userId" requestData = Some userId
    /\ Store.configured (ExtractEmbeddings.backend Cases.library) = true
    /\ Props.callerIs (ExtractEmbeddings.backend Cases.library) Scenario.ingestRequest
                      (fun id => JS.strictEqStr id userId).
Proof.
  apply (ingestion_access_gated Cases.library Scenario.ingestRequest 2
                                (EvDownload (JS.Str "alice/draft.txt"))).
  - vm_compute. do 3 right. left. reflexivity.
  - reflexivity.
Defined.



(* ================================================================== *)
(** ** Records, citations, configuration *)
(* ================================================================== *)

Section RecordFacts.
Import JS Store ExtractEmbeddings.

Lemma chunkRecords_length documentId embeddings chunks :
  forall index,
    List.length (chunkRecords documentId embeddings index chunks) = List.length chunks.
Proof. induction chunks as [|c r IH]; intros index; simpl; [|rewrite IH]; reflexivity. Qed.

Lemma chunkRecords_nth documentId embeddings chunks :
  forall index j chunk,
    nth_error chunks j = Some chunk ->
    nth_error (chunkRecords documentId embeddings index chunks) j
    = Some (documentId, chunk, nth_error embeddings (index + j), Z.of_nat (index + j)).
Proof.
  induction chunks as [|c r IH]; intros index j chunk H.
  - destruct j; discriminate H.
  - destruct j as [|j]; simpl in *.
    + injection H as <-. now rewrite Nat.add_0_r.
    + rewrite (IH (S index) j chunk H). now rewrite Nat.add_succ_r.
Qed.

End RecordFacts.

(** X19. The records built for the insert pair the chunk at position j
    with [chunk_index] j and with the embedding at position j; no check is
    made that there are as many embeddings as chunks, so a chunk beyond the
    last embedding gets a record without one. *)
Theorem chunk_records_paired (documentId : JS.value) (embeddings : list Store.vector)
        (chunks : list string) (j : nat) (chunk : string) :
  nth_error chunks j = Some chunk ->
  List.length (ExtractEmbeddings.chunkRecords documentId embeddings 0 chunks)
  = List.length chunks
  /\ nth_error (ExtractEmbeddings.chunkRecords documentId embeddings 0 chunks) j
     = Some (documentId, chunk, nth_error embeddings j, Z.of_nat j)
  /\ ((List.length embeddings <= j)%nat ->
      nth_error (ExtractEmbeddings.chunkRecords documentId embeddings 0 chunks) j
      = Some (documentId, chunk, None, Z.of_nat j)).
Proof.
  intros H. split; [apply chunkRecords_length|].
  pose proof (chunkRecords_nth documentId embeddings chunks 0 j chunk H) as K.
  simpl in K. split; [exact K|].
  intros L. rewrite K. apply nth_error_None in L. now rewrite L.
Qed.

Lemma chunk_records_paired_witness :
  nth_error (ExtractEmbeddings.chunkRecords (JS.Str "d-draft") [[1%Q]] 0
                                            ["Cats purr"; "Dogs bark"]) 1
  = Some (JS.Str "d-draft", "Dogs bark", None, 1).
Proof.
  destruct (chunk_records_paired (JS.Str "d-draft") [[1%Q]] ["Cats purr"; "Dogs bark"]
                                 1 "Dogs bark" eq_refl) as (_ & _ & K).
  apply K. simpl. lia.
Defined.

(** X20. A 200 answer of the query-chat handler cites exactly the chunks
    that [findRelevantChunks] returned for the request's user and the
    embedding of the request's query, in their order, each with its id and
    similarity; its text is the fixed no-information message when there are
    none, and the text [generateChatResponse] returned for them
    otherwise. *)
Theorem query_sources_cited (env : QueryChat.Env) (req : Http.Request)
        (response : Http.Response) :
  snd (QueryChat.handler env req) = Ret response ->
  Http.responseStatus response = 200 ->
  exists requestData query uid queryEmbedding relevantChunks answer,
    Http.body req = Http.Parsed requestData
    /\ JS.prop "query" requestData = Some query
    /\ JS.prop "userId" requestData = Some (JS.Str uid)
    /\ snd (QueryChat.generateQueryEmbedding env query) = Ret queryEmbedding
    /\ snd (QueryChat.findRelevantChunks (QueryChat.backend env) queryEmbedding uid)
       = Ret relevantChunks
    /\ Http.responseBody response
       = Http.Answer answer (map (fun chunk => (Store.id chunk, Store.similarity chunk))
                                 relevantChunks)
    /\ (relevantChunks = [] /\ answer = QueryChat.noInformation
        \/ relevantChunks <> []
           /\ snd (QueryChat.generateChatResponse env query relevantChunks) = Ret answer).
Proof.
  unfold QueryChat.handler.
  destruct (negb (String.eqb (Http.method req) "POST")); [intros [= <-]; discriminate|].
  rewrite snd_tryCatch.
  destruct (snd (QueryChat.answerQuery env req)) as [r | m |] eqn:T.
  2:{ intros [= <-]. discriminate. }
  2:{ discriminate. }
  intros [= ->] S. revert T. unfold QueryChat.answerQuery.
  destruct (Http.body req) as [requestData | m]; [|discriminate].
  destruct (JS.prop "query" requestData) as [query|] eqn:PQ; [|discriminate].
  destruct (JS.prop "userId" requestData) as [userId|] eqn:PU; [|discriminate].
  assert (forall t code m, code <> 200 ->
            snd (Eff.after t (QueryChat.respond (Http.ErrorBody m) code))
            <> Ret response) as Refused.
  { intros t code m NE [= <-]. now apply NE. }
  destruct (negb (JS.truthy query) || negb (JS.truthy userId)).
  { intros T. now apply (Refused [] 400 _ ltac:(discriminate)) in T. }
  rewrite bind_logger.
  destruct (Http.authorization req) as [authHeader|];
    [|intros T; now apply Refused in T].
  destruct (String.eqb authHeader ""); [intros T; now apply Refused in T|].
  unfold Store.createSupabaseAdmin.
  destruct (Store.configured (QueryChat.backend env)); [|discriminate].
  rewrite bind_unit, bind_emit, after_after, snd_after.
  destruct (Store.error (Store.getUser _ _)).
  { intros T. now apply (Refused [] 401 _ ltac:(discriminate)) in T. }
  destruct (Store.data (Store.getUser _ _)) as [user|].
  2:{ intros T. now apply (Refused [] 401 _ ltac:(discriminate)) in T. }
  destruct userId as [| | b | z | uid |];
    try (intros T; now apply (Refused [] 401 _ ltac:(discriminate)) in T).
  destruct (String.eqb (Store.user_id user) uid); cbn [negb].
  2:{ intros T. now apply (Refused [] 401 _ ltac:(discriminate)) in T. }
  rewrite snd_bind.
  destruct (snd (QueryChat.generateQueryEmbedding env query))
    as [queryEmbedding | m |] eqn:E1; try discriminate.
  rewrite snd_bind.
  destruct (snd (QueryChat.findRelevantChunks _ _ _))
    as [relevantChunks | m |] eqn:E2; try discriminate.
  destruct relevantChunks as [|chunk rest].
  - intros [= <-]. exists requestData, query, uid, queryEmbedding, [], QueryChat.noInformation.
    repeat split; try assumption; try reflexivity. left. now split.
  - rewrite snd_bind.
    destruct (snd (QueryChat.generateChatResponse _ _ _)) as [answer | m |] eqn:E3;
      try discriminate.
    rewrite bind_logger, snd_after. intros [= <-].
    exists requestData, query, uid, queryEmbedding, (chunk :: rest), answer.
    repeat split; try assumption; try reflexivity. right. split; [discriminate | exact E3].
Qed.

Lemma query_sources_cited_witness :
  let env := Scenario.queryEnv None [Cases.completion "Cats are mammals."] in
  exists requestData query uid queryEmbedding relevantChunks answer,
    Http.body Cases.aliceAsks = Http.Parsed requestData
    /\ JS.prop "query" requestData = Some query
    /\ JS.prop "userId" requestData = Some (JS.Str uid)
    /\ snd (QueryChat.generateQueryEmbedding env query) = Ret queryEmbedding
    /\ snd (QueryChat.findRelevantChunks (QueryChat.backend env) queryEmbedding uid)
       = Ret relevantChunks
    /\ Http.responseBody
         {| Http.responseBody := Http.Answer "Cats are mammals." [("c-alice", Float8.Finite (1 - 0))];
            Http.responseStatus := 200 |}
       = Http.Answer answer (map (fun chunk => (Store.id chunk, Store.similarity chunk))
                                 relevantChunks)
    /\ (relevantChunks = [] /\ answer = QueryChat.noInformation
        \/ relevantChunks <> []
           /\ snd (QueryChat.generateChatResponse env query relevantChunks) = Ret answer).
Proof.
  intros env.
  apply (query_sources_cited env Cases.aliceAsks).
  - vm_compute. reflexivity.
  - reflexivity.
Defined.

(** X21. The two configuration checks of the front end agree:
    [validateConfig] accepts a configuration exactly when [isConfigured]
    answers true for it. *)
Theorem config_checks_agree (config : JS.json) :
  snd (Config.validateConfig config) = Ret tt
  <-> snd (Config.isConfigured config) = Ret true.
Proof.
  unfold Config.validateConfig, Config.isConfigured.
  destruct (JS.prop "SUPABASE_URL" config) as [url|]; [|split; discriminate].
  destruct (JS.prop "SUPABASE_ANON_KEY" config) as [key|]; [|split; discriminate].
  unfold Config.andv.
  destruct (JS.truthy url) eqn:TU, (JS.strictEqStr Config.urlPlaceholder url),
    (JS.truthy key) eqn:TK, (JS.strictEqStr Config.keyPlaceholder key);
    repeat (cbn; rewrite ?TU, ?TK); split; discriminate || reflexivity.
Qed.
